(** * ivc-kx-webhook: order webhooks to partner orders

    A shallow embedding of the order pipeline:
    - [src/services/shopify.ts]     webhook signature check ([verifyShopifyHmac])
    - [src/services/line-props.ts]  design bits of a line item ([getDesignBits])
    - [src/services/kornitx.ts]     partner payload builder and client
    - [src/services/retry.ts]       bounded retry with backoff ([withRetry])
    - [src/aws/dynamo.ts]           clients, processed orders and SKU map
    - [functions/api/handler.ts]    the intake ([toSlug], [parseClientSlug],
                                    [handler]) and the candidates it enqueues
    - [functions/worker/handler.ts] the queue worker ([handler])

    Conventions of the embedding.
    - A JavaScript string is a [string]: a sequence of code units below 256
      (the Latin-1 range), on which [trim] and [toLowerCase] are exact.
    - A JavaScript number is written as an integer [Z], the integer of its
      literal. The number itself is the double nearest to that integer
      ([Js.toDouble]): the integer itself below 2^53 in size, a rounded one
      above; [String(n)] prints that double ([Js.ofNumber]). Fractions and
      NaN are outside the model, but for the value of [Math.random], a
      rational, and for the products of the jitter, which are rounded as
      doubles are ([Double.round]).
    - [undefined] and [null] are [None] of an [option]; a property that a
      type marks with [?] is an [option] field.
    - An object used as a dictionary is a finite map or a keyed list of its
      own properties. A read of such an object sees, behind the own
      properties, the members that it inherits from [Object.prototype], and
      a write under the name [__proto__] is lost ([Obj.get], [Obj.set]).
    - A function that can throw returns a [res]; code with effects runs in
      the monad [M] over a world that holds the collaborators' state and
      the trace of the calls made to them. *)

From Stdlib Require Import ZArith List String Ascii Bool Lia QArith Qround Qpower Qabs Lqa.
From Stdlib.Strings Require Import Byte.
From stdpp Require Import base gmap strings list pretty.

Local Open Scope string_scope.
Local Open Scope list_scope.
Local Open Scope Z_scope.

(** * Strings *)

Module Js.

(** WhiteSpace and LineTerminator code units below 256: TAB, LF, VT, FF, CR,
    SP and NBSP. *)
Definition isWhiteSpace (c : ascii) : bool :=
  let n := N_of_ascii c in
  ((9 <=? n) && (n <=? 13) || (n =? 32) || (n =? 160))%N.

(** [String.prototype.toLowerCase], one code unit: A-Z, and the Latin-1
    capitals U+00C0..U+00DE without the multiplication sign U+00D7. *)
Definition lowerChar (c : ascii) : ascii :=
  let n := N_of_ascii c in
  if ((65 <=? n) && (n <=? 90)
      || (192 <=? n) && (n <=? 222) && negb (n =? 215))%N
  then ascii_of_N (n + 32) else c.

Fixpoint toLowerCase (s : string) : string :=
  match s with
  | EmptyString => EmptyString
  | String c r => String (lowerChar c) (toLowerCase r)
  end.

Fixpoint trimStart (s : string) : string :=
  match s with
  | EmptyString => EmptyString
  | String c r => if isWhiteSpace c then trimStart r else s
  end.

Fixpoint trimEnd (s : string) : string :=
  match s with
  | EmptyString => EmptyString
  | String c r =>
      match trimEnd r with
      | EmptyString => if isWhiteSpace c then EmptyString else String c EmptyString
      | r' => String c r'
      end
  end.

Definition trim (s : string) : string := trimEnd (trimStart s).

(** [s.startsWith(p)]. *)
Fixpoint startsWith (s p : string) {struct p} : bool :=
  match p, s with
  | EmptyString, _ => true
  | String a p', String b s' => Ascii.eqb a b && startsWith s' p'
  | String _ _, EmptyString => false
  end.

(** Truthiness of a string: every string but the empty one. *)
Definition nonEmpty (s : string) : bool :=
  match s with EmptyString => false | String _ _ => true end.

(** Truthiness of [string | undefined | null]. *)
Definition truthy (v : option string) : bool :=
  match v with Some s => nonEmpty s | None => false end.

(** [a || b] on [string | undefined]. *)
Definition or (a b : option string) : option string :=
  if truthy a then a else b.

(** [a ?? b]. *)
Definition nullish {A} (a b : option A) : option A :=
  match a with Some _ => a | None => b end.

(** [s.split(',')]: the pieces between the separators, at least one. *)
Fixpoint splitAux (sep : ascii) (s cur : string) : list string :=
  match s with
  | EmptyString => [String.rev cur]
  | String c r =>
      if Ascii.eqb c sep then String.rev cur :: splitAux sep r EmptyString
      else splitAux sep r (String c cur)
  end.

Definition split (sep : ascii) (s : string) : list string :=
  splitAux sep s EmptyString.

(** [xs.join(sep)]. *)
Definition join (sep : string) (xs : list string) : string :=
  String.concat sep xs.

(** A string that does not start with white space. *)
Definition startsBlack (s : string) : Prop :=
  match s with
  | EmptyString => True
  | String c _ => isWhiteSpace c = false
  end.

(** ** Numbers *)

(** The double nearest to an integer, as the reading of a literal gives it:
    53 bits are kept, a tie goes to the even significand. From 2^1024 on
    in size the result stands for an infinity. *)
Definition toDouble (n : Z) : Z :=
  let a := Z.abs n in
  if a <? 2 ^ 53 then n
  else
    let e := Z.log2 a - 52 in
    let q := a / 2 ^ e in
    let r := a mod 2 ^ e in
    let half := 2 ^ (e - 1) in
    let m := if r <? half then q
             else if half <? r then q + 1
             else if Z.even q then q else q + 1 in
    Z.sgn n * (m * 2 ^ e).

(** [Number.isSafeInteger(n)]: an integer that is its own double, with no
    other integer rounded to it. *)
Definition isSafeInteger (n : Z) : bool := Z.abs n <? 2 ^ 53.

(** [Number.isFinite(n)]. *)
Definition isFinite (n : Z) : bool := Z.abs (toDouble n) <? 2 ^ 1024.

(** The multiples of [10 ^ (d - k)] next to the double [x] of [d] digits,
    when they read back as [x]: the nearer one, the even one on a tie. *)
Definition shortestAt (x d k : Z) : option Z :=
  let p := 10 ^ (d - k) in
  let lo := x / p * p in
  let hi := lo + p in
  let okLo := toDouble lo =? x in
  let okHi := toDouble hi =? x in
  if okLo && okHi then
    Some (if x - lo <? hi - x then lo
          else if hi - x <? x - lo then hi
          else if Z.even (lo / p) then lo else hi)
  else if okLo then Some lo
  else if okHi then Some hi
  else None.

(** The integer of the fewest significant digits that reads back as the
    double [x], a positive one: the digits that [Number::toString] prints. *)
Definition shortest (x : Z) : Z :=
  let d := Z.of_nat (String.length (pretty x)) in
  default x (head (omap (shortestAt x d) (seqZ 1 (Z.min d 17)))).

(** The digits without the zeros at their end. *)
Fixpoint dropZeros (ds : list ascii) : list ascii :=
  match ds with
  | [] => []
  | c :: rest =>
      match dropZeros rest with
      | [] => if Ascii.eqb c "0" then [] else [c]
      | rest' => c :: rest'
      end
  end.

(** The exponent form [d.ddde+n] of a positive integer. *)
Definition exponentForm (v : Z) : string :=
  let ds := list_ascii_of_string (pretty v) in
  match dropZeros ds with
  | [] => "0"
  | c :: rest =>
      String c (match rest with
                | [] => ""
                | _ => String "." (string_of_list_ascii rest)
                end)
        +:+ "e+" +:+ pretty (Z.of_nat (length ds) - 1)
  end.

(** [String(x)] of a positive double from 2^53 on: the shortest digits,
    in the exponent form from 10^21 on. *)
Definition ofDouble (x : Z) : string :=
  let v := shortest x in
  if v <? 10 ^ 21 then pretty v else exponentForm v.

(** [String(n)]: below 2^53 in size the decimal digits of the integer. *)
Definition ofNumber (n : Z) : string :=
  if Z.abs n <? 2 ^ 53 then pretty n
  else if negb (isFinite n) then (if n <? 0 then "-Infinity" else "Infinity")
  else if n <? 0 then "-" +:+ ofDouble (- toDouble n)
  else ofDouble (toDouble n).

End Js.

(** * Doubles

    The rounding of a rational to the nearest double, for sizes below
    2^1024: 53 bits are kept, down to the exponent of the subnormal numbers,
    and a tie goes to the even significand. *)

Module Double.

(** The integer part of the binary logarithm of a positive rational. *)
Definition ilog2 (q : Q) : Z :=
  let a := Z.log2 (Qnum q) - Z.log2 (Z.pos (Qden q)) in
  if Qle_bool (2 ^ a) q then a else a - 1.

(** The nearest integer, the even one on a tie. *)
Definition rne (q : Q) : Z :=
  let f := Qfloor q in
  match (q - inject_Z f ?= 1 # 2)%Q with
  | Lt => f
  | Gt => f + 1
  | Eq => if Z.even f then f else f + 1
  end.

Definition round (q : Q) : Q :=
  if Qeq_bool q 0 then 0%Q
  else
    let a := Qabs q in
    let e := Z.max (ilog2 a - 52) (-1074) in
    let m := (inject_Z (rne (a / 2 ^ e)) * 2 ^ e)%Q in
    if Qle_bool 0 q then m else (- m)%Q.

(** [a * b] and [a + b] on doubles. *)
Definition mul (a b : Q) : Q := round (a * b).
Definition add (a b : Q) : Q := round (a + b).

End Double.

(** * Plain objects

    An object that the program creates with [{}] and uses as a dictionary:
    a finite map of its own properties, with [Object.prototype] behind it. *)

Module Obj.

(** The names of the members of [Object.prototype]. *)
Definition protoNames : list string :=
  ["constructor"; "__defineGetter__"; "__defineSetter__"; "hasOwnProperty";
   "__lookupGetter__"; "__lookupSetter__"; "isPrototypeOf";
   "propertyIsEnumerable"; "toString"; "valueOf"; "__proto__";
   "toLocaleString"].

Definition inherited (k : string) : bool := bool_decide (k ∈ protoNames).

(** What [obj[k]] gives: the own property, or the inherited member of that
    name (a function, and for [__proto__] the prototype itself), or
    [undefined]. *)
Inductive slot (V : Type) : Type :=
| Own (v : V)
| Inherited (member : string)
| Absent.
Arguments Own {V} v.
Arguments Inherited {V} member.
Arguments Absent {V}.

(** [obj[k]]. *)
Definition get {V} (own : gmap string V) (k : string) : slot V :=
  match own !! k with
  | Some v => Own v
  | None => if inherited k then Inherited k else Absent
  end.

(** [obj[k] = v] for a string or a number [v]: under the name [__proto__]
    the assignment runs the inherited setter, which ignores such a value. *)
Definition set {V} (own : gmap string V) (k : string) (v : V) : gmap string V :=
  if bool_decide (k = "__proto__") then own else <[k := v]> own.

(** [x == null]. *)
Definition isNullish {V} (x : slot V) : bool :=
  match x with Absent => true | _ => false end.

(** [a ?? b]. *)
Definition nullish {V} (a b : slot V) : slot V :=
  match a with Absent => b | _ => a end.

(** [x] of [number | undefined] as a slot. *)
Definition ofOption {V} (x : option V) : slot V :=
  match x with Some v => Own v | None => Absent end.

(** [String(x)] of an inherited member [x], which is what a read [obj[x]]
    takes as the key: the prototype prints as an object, the constructor
    and the methods as native functions. *)
Definition text (member : string) : string :=
  if bool_decide (member = "__proto__") then "[object Object]"
  else
    "function "
      +:+ (if bool_decide (member = "constructor") then "Object" else member)
      +:+ "() { [native code] }".

End Obj.
Arguments Js.startsWith : simpl never.
Arguments Js.trim : simpl never.
Arguments Js.toLowerCase : simpl never.

(** * JSON values, as [JSON.parse] returns them *)

#[warnings="-register-all"]
Inductive json : Type :=
| JNull
| JBool (b : bool)
| JNumber (literal : string)
| JString (s : string)
| JArray (xs : list json)
| JObject (fields : list (string * json)).

(** What the program takes from the JavaScript runtime: the JSON parser
    ([None] when [JSON.parse] throws a SyntaxError) and the keyed digest
    [createHmac('sha256', secret).update(body).digest('base64')]. *)
Class Runtime : Type := {
  JSON_parse : string -> option json;
  hmacSha256Base64 : string -> list byte -> string;
}.

(** * Exceptions and results *)

Inductive exn : Type :=
| Undefined                                  (* [throw undefined] *)
| Error (message : string)                   (* [new Error(message)] *)
| RangeError (message : string)
| Rejected (reason : string).                (* a collaborator's failure *)

Inductive res (A : Type) : Type :=
| Ok (a : A)
| Throw (e : exn).
Arguments Ok {A} a.
Arguments Throw {A} e.

(** * src/services/line-props.ts *)

Module LineProps.

Record Property : Type := { name : string; value : string }.

(** [type KV = Record<string, string>]: own properties in insertion order,
    each key once. (JavaScript lists keys that are array indices first; a
    key of that kind is equal up to case to no other key, so that
    [lowerToReal] below is the same for both orders.) *)
Definition KV : Type := list (string * string).

(** The own property [k] of [obj]. *)
Fixpoint get (obj : KV) (k : string) : option string :=
  match obj with
  | [] => None
  | (k', v) :: rest => if bool_decide (k' = k) then Some v else get rest k
  end.

(** [obj[k]]: the own property, with [Object.prototype] behind it. *)
Definition read (obj : KV) (k : string) : Obj.slot string :=
  match get obj k with
  | Some v => Obj.Own v
  | None => if Obj.inherited k then Obj.Inherited k else Obj.Absent
  end.

Fixpoint put (obj : KV) (k v : string) : KV :=
  match obj with
  | [] => [(k, v)]
  | (k', v') :: rest =>
      if bool_decide (k' = k) then (k', v) :: rest else (k', v') :: put rest k v
  end.

(** [obj[k] = v]: a key already there keeps its place; under the name
    [__proto__] the assignment is lost. *)
Definition set (obj : KV) (k v : string) : KV :=
  if bool_decide (k = "__proto__") then obj else put obj k v.

(** [Object.keys(obj)]. *)
Definition keys (obj : KV) : list string := map fst obj.

Definition extractProps (props : option (list Property)) : KV :=
  fold_left (fun out p => set out (name p) (value p)) (default [] props) [].

(** [obj[real]] for what [lowerToReal[...]] gave, when that is truthy: a
    string is the key itself; an inherited member is turned into a string,
    which is the key. Either key is an own property of [obj] ([real] comes
    from [Object.keys(obj)]) or none that [obj] inherits, so that the read
    gives a string or [undefined]. *)
Definition valueAt (obj : KV) (real : Obj.slot string) : option string :=
  match real with
  | Obj.Own k => if Js.nonEmpty k then get obj k else None
  | Obj.Inherited member => get obj (Obj.text member)
  | Obj.Absent => None
  end.

(** The candidates loop of [findFirstKey]. *)
Fixpoint firstCandidate (lowerToReal : gmap string string) (obj : KV)
    (candidates : list string) : option string :=
  match candidates with
  | [] => None
  | cand :: rest =>
      let real := Obj.get lowerToReal (Js.toLowerCase cand) in
      if Js.truthy (valueAt obj real) then valueAt obj real
      else firstCandidate lowerToReal obj rest
  end.

(** The object [lowerToReal] that [findFirstKey] fills from
    [Object.keys(obj)]. *)
Definition lowerToRealOf (obj : KV) : gmap string string :=
  fold_left (fun m k => Obj.set m (Js.toLowerCase k) k) (keys obj) ∅.

Definition findFirstKey (obj : KV) (candidates : list string) : option string :=
  if bool_decide (candidates = []) then None
  else firstCandidate (lowerToRealOf obj) obj candidates.

(** [string[] | string | null | undefined]. *)
Inductive keysValue : Type :=
| KeysArray (xs : list string)
| KeysString (s : string)
| KeysNull
| KeysUndefined.

(** [KeyCfg]: either shape; [None] is a property that the object lacks, which
    is what ['topKeys' in cfg] tests. *)
Record KeyCfg : Type := {
  topKeys : option keysValue;
  middleKeys : option keysValue;
  bottomKeys : option keysValue;
  topKeysJson : option keysValue;
  middleKeysJson : option keysValue;
  bottomKeysJson : option keysValue;
}.

Definition jsonStrings (xs : list json) : list string :=
  omap (fun x => match x with JString s => Some s | _ => None end) xs.

Definition toArray `{Runtime} (maybeArrOrJson : keysValue) : list string :=
  match maybeArrOrJson with
  | KeysArray xs => xs
  | _ =>
      let s := match maybeArrOrJson with KeysString s => Js.trim s | _ => "" end in
      if negb (Js.nonEmpty s) then []
      else
        match JSON_parse s with
        | Some (JArray parsed) => jsonStrings parsed
        | _ => filter (fun x => Is_true (Js.nonEmpty x)) (map Js.trim (Js.split "," s))
        end
  end.

Record NormKeys : Type := {
  normTop : list string;
  normMiddle : list string;
  normBottom : list string;
}.

Definition pick (keysField jsonField : option keysValue) : keysValue :=
  match keysField with
  | Some v => v
  | None => default KeysUndefined jsonField
  end.

Definition normalizeKeyCfg `{Runtime} (cfg : KeyCfg) : NormKeys :=
  let top := pick (topKeys cfg) (topKeysJson cfg) in
  let mid := pick (middleKeys cfg) (middleKeysJson cfg) in
  let bot := pick (bottomKeys cfg) (bottomKeysJson cfg) in
  {| normTop := toArray top; normMiddle := toArray mid; normBottom := toArray bot |}.

Record DesignBits : Type := {
  top : option string;
  middle : option string;
  bottom : option string;
  printJobId : option string;
  thumb : option string;
}.

(** The names that [getDesignBits] reads by themselves are no members of
    [Object.prototype]: each read gives the own property or [undefined]. *)
Definition getDesignBits `{Runtime} (obj : KV) (cfg : KeyCfg) : DesignBits :=
  let norm := normalizeKeyCfg cfg in
  {| top := Js.nullish (findFirstKey obj (normTop norm)) (get obj "Top line");
     middle := Js.nullish (findFirstKey obj (normMiddle norm)) (get obj "Middle line");
     bottom := Js.nullish (findFirstKey obj (normBottom norm)) (get obj "Bottom line");
     printJobId :=
       Js.or (Js.or (get obj "_printJobId") (get obj "_printjobid"))
             (get obj "print_job_ref");
     thumb :=
       Js.or (Js.or (get obj "_thumb") (get obj "_thumbnail"))
             (get obj "thumbnail") |}.

End LineProps.

(** * src/types.ts *)

Record Customer : Type := {
  first_name : option string;
  last_name : option string;
  customer_email : option string;
  customer_phone : option string;
}.

Record Address : Type := {
  company : option string;
  address1 : option string;
  address2 : option string;
  city : option string;
  province : option string;
  zip : option string;
  country_code : option string;
  address_name : option string;
  address_phone : option string;
}.

(** [ShopifyOrder['line_items'][number]]. [li_quantity] is [None] when the
    decoded order carries no quantity for the line. *)
Record LineItem : Type := {
  li_id : Z;
  li_quantity : option Z;
  li_title : string;
  li_sku : option string;
  li_variant_id : option Z;
  li_properties : option (list LineProps.Property);
}.

Record ShopifyOrder : Type := {
  order_id : Z;
  order_name : string;
  order_number : Z;
  order_email : option string;
  customer : option Customer;
  processed_at : option string;
  created_at : option string;
  line_items : list LineItem;
  shipping_address : option Address;
}.

Record Candidate : Type := {
  li : LineItem;
  bits : LineProps.DesignBits;
}.

(** * src/services/kornitx.ts: the payload builder *)

Module Kornitx.
Import LineProps.

(** [textual_product_id] is a number, or [undefined], or what the read of the
    map gave for a SKU that is the name of an inherited member. *)
Record KxOrderItem : Type := {
  external_ref : string;
  quantity : Z;
  type : Z;                               (* 2 = print job, 5 = textual *)
  print_job_ref : option string;
  sku : option string;
  description : string;
  textual_product_id : Obj.slot Z;
  attributes : list Property;
}.

(** [sale_datetime], which [formatUtc] computes from a [Date], is modelled
    by itself ([SaleTime.saleDatetimeOf]); [company_ref_id], which [Number]
    computes from the secret, is not part of the embedding. *)
Record KxOrderPayload : Type := {
  payload_external_ref : string;
  customer_name : option string;
  payload_customer_email : option string;
  customer_telephone : option string;
  shipping_address_1 : option string;
  shipping_address_2 : option string;
  shipping_address_3 : option string;
  shipping_address_4 : option string;
  shipping_address_5 : option string;
  shipping_postcode : option string;
  shipping_country_code : option string;
  items : list KxOrderItem;
}.

(** [x || undefined]. *)
Definition orUndefined (x : option string) : option string :=
  if Js.truthy x then x else None.

(** [Number(q || 1)]. *)
Definition quantityOr1 (q : option Z) : Z :=
  match q with
  | Some n => if n =? 0 then 1 else n
  | None => 1
  end.

Fixpoint hasUserFacingLoop (props : list Property) : bool :=
  match props with
  | [] => false
  | p :: rest =>
      let name := Js.trim (name p) in
      let value := Js.trim (value p) in
      if negb (Js.nonEmpty name) || negb (Js.nonEmpty value) then hasUserFacingLoop rest
      else if Js.startsWith name "_" then hasUserFacingLoop rest
      else true
  end.

Definition hasUserFacingProps (li : LineItem) : bool :=
  hasUserFacingLoop (default [] (li_properties li)).

(** One round of the loop of [passthroughAttributes] over [attrs] and [seen]. *)
Definition passthroughStep (st : list Property * gset string) (p : Property)
    : list Property * gset string :=
  let '(attrs, seen) := st in
  let name := Js.trim (name p) in
  let value := Js.trim (value p) in
  if negb (Js.nonEmpty name) || negb (Js.nonEmpty value) then st
  else if Js.startsWith name "_" then st
  else
    let key := Js.toLowerCase name in
    if bool_decide (key ∈ seen) then st
    else (attrs ++ [{| name := name; value := value |}], {[key]} ∪ seen).

Definition passthroughAttributes (li : LineItem) (thumb : option string)
    : list Property :=
  let '(attrs, seen) :=
    fold_left passthroughStep (default [] (li_properties li)) ([], ∅) in
  match thumb with
  | Some t =>
      if Js.nonEmpty t && negb (bool_decide ("_thumb" ∈ seen))
      then attrs ++ [{| name := "_thumb"; value := t |}]
      else attrs
  | None => attrs
  end.

Definition attributesForType2 (thumb : option string) : list Property :=
  match thumb with
  | Some t => if Js.nonEmpty t then [{| name := "_thumb"; value := t |}] else []
  | None => []
  end.

(** [(li.sku || '').trim().toLowerCase()]. *)
Definition normSkuOf (l : LineItem) : string :=
  Js.toLowerCase (Js.trim (default "" (li_sku l))).

(** One round of the candidates loop of [buildKxOrderPayload]. *)
Definition pushItem (skuToProductId : option (gmap string Z))
    (defaultProductId : option Z) (items : list KxOrderItem) (c : Candidate)
    : list KxOrderItem :=
  let normSku := normSkuOf (li c) in
  let mappedPid :=
    match skuToProductId with
    | Some m => Obj.get m normSku
    | None => Obj.Absent
    end in
  let textual_product_id := Obj.nullish mappedPid (Obj.ofOption defaultProductId) in
  let hasPrintJob := Js.truthy (printJobId (bits c)) in
  if hasPrintJob then
    items ++ [{| external_ref := Js.ofNumber (li_id (li c));
                 quantity := quantityOr1 (li_quantity (li c));
                 type := 2;
                 print_job_ref := printJobId (bits c);
                 sku := li_sku (li c);
                 description := li_title (li c);
                 textual_product_id := textual_product_id;
                 attributes := attributesForType2 (thumb (bits c)) |}]
  else if hasUserFacingProps (li c) then
    let attributes := passthroughAttributes (li c) (thumb (bits c)) in
    if (0 <? length attributes)%nat then
      items ++ [{| external_ref := Js.ofNumber (li_id (li c));
                   quantity := quantityOr1 (li_quantity (li c));
                   type := 5;
                   print_job_ref := None;
                   sku := li_sku (li c);
                   description := li_title (li c);
                   textual_product_id := textual_product_id;
                   attributes := attributes |}]
    else items
  else items.

Record BuildOpts : Type := {
  order : ShopifyOrder;
  companyRefId : string;
  candidates : list Candidate;
  skuToProductId : option (gmap string Z);
  defaultProductId : option Z;
}.

Definition buildKxOrderPayload (opts : BuildOpts) : KxOrderPayload :=
  let order := order opts in
  let custName :=
    orUndefined
      (Js.or (shipping_address order ≫= address_name)
         (Some (Js.join " "
            (filter (fun x => Is_true (Js.nonEmpty x))
               (omap id [customer order ≫= first_name;
                         customer order ≫= last_name]))))) in
  let ship := shipping_address order in
  {| payload_external_ref :=
       if Js.nonEmpty (order_name order) then order_name order
       else Js.ofNumber (order_id order);
     customer_name := custName;
     payload_customer_email :=
       orUndefined (Js.or (customer order ≫= customer_email) (order_email order));
     customer_telephone :=
       orUndefined (Js.or (customer order ≫= customer_phone) (ship ≫= address_phone));
     shipping_address_1 := orUndefined (ship ≫= address1);
     shipping_address_2 := orUndefined (ship ≫= address2);
     shipping_address_3 := orUndefined (ship ≫= city);
     shipping_address_4 := orUndefined (ship ≫= province);
     shipping_address_5 := orUndefined (ship ≫= company);
     shipping_postcode := orUndefined (ship ≫= zip);
     shipping_country_code := orUndefined (ship ≫= country_code);
     items := fold_left (pushItem (skuToProductId opts) (defaultProductId opts))
                (candidates opts) [] |}.

End Kornitx.

(** * src/services/shopify.ts *)

Module Shopify.

(** [Buffer.from(s)]: the UTF-8 bytes of a string of code units below 256. *)
Definition utf8Char (c : ascii) : list byte :=
  let n := N_of_ascii c in
  if (n <? 128)%N then [byte_of_ascii c]
  else
    [byte_of_ascii (ascii_of_N (192 + n / 64));
     byte_of_ascii (ascii_of_N (128 + n mod 64))].

Fixpoint bufferFrom (s : string) : list byte :=
  match s with
  | EmptyString => []
  | String c r => utf8Char c ++ bufferFrom r
  end.

Fixpoint bytesEqual (a b : list byte) : bool :=
  match a, b with
  | [], [] => true
  | x :: a', y :: b' => Byte.eqb x y && bytesEqual a' b'
  | _, _ => false
  end.

(** [crypto.timingSafeEqual(a, b)]: Node throws a RangeError when the two
    buffers differ in byte length. *)
Definition timingSafeEqual (a b : list byte) : res bool :=
  if (length a =? length b)%nat then Ok (bytesEqual a b)
  else Throw (RangeError "Input buffers must have the same byte length").

Definition verifyShopifyHmac `{Runtime} (rawBody : list byte)
    (hmacHeader : option string) (secret : string) : res bool :=
  match hmacHeader with
  | None => Ok false
  | Some header =>
      if negb (Js.nonEmpty header) then Ok false
      else
        let digest := hmacSha256Base64 secret rawBody in
        let a := bufferFrom digest in
        let b := bufferFrom header in
        timingSafeEqual a b
  end.

End Shopify.

(** [buf.toString('base64')]. *)
Module Base64.

Definition alphabet : string :=
  "ABCDEFGHIJKLMNOPQRSTUVWXYZabcdefghijklmnopqrstuvwxyz0123456789+/".

Definition digit (n : N) : ascii :=
  default "="%char (String.get (N.to_nat n) alphabet).

Fixpoint encode (bs : list byte) : string :=
  match bs with
  | [] => ""
  | [a] =>
      let x := Byte.to_N a in
      String (digit (x / 4)) (String (digit (x mod 4 * 16)) "==")
  | [a; b] =>
      let x := Byte.to_N a in
      let y := Byte.to_N b in
      String (digit (x / 4))
        (String (digit (x mod 4 * 16 + y / 16))
           (String (digit (y mod 16 * 4)) "="))
  | a :: b :: c :: rest =>
      let x := Byte.to_N a in
      let y := Byte.to_N b in
      let z := Byte.to_N c in
      String (digit (x / 4))
        (String (digit (x mod 4 * 16 + y / 16))
           (String (digit (y mod 16 * 4 + z / 64))
              (String (digit (z mod 64)) (encode rest))))
  end%N.

End Base64.

(** * Collaborators and effects *)

(** An item of the clients table, as [getClientBySlug] casts it. *)
Record Client : Type := {
  client_slug : string;
  client_shopDomain : string;
  client_secretName : string;
  client_topKeysJson : option string;
  client_middleKeysJson : option string;
  client_bottomKeysJson : option string;
  defaultKxProductId : option Z;
}.

(** An item of the processed-orders table. *)
Record ProcessedItem : Type := {
  shopOrderKey : string;
  kxExternalId : string;
  processedAt : string;
}.

(** A numeric attribute of an item, as the document client returns it:
    not there, [null], or a number. *)
Inductive attribute : Type :=
| Missing
| Null
| Num (n : Z).

(** An item of the SKU map table: [item.sku] and [item.product_id]. *)
Record SkuItem : Type := {
  item_sku : option string;
  item_product_id : attribute;
}.

(** The id of an order as [isProcessed] and [markProcessed] take it:
    [string | number]. *)
Inductive OrderId : Type :=
| NumberId (n : Z)
| StringId (s : string).
Coercion NumberId : Z >-> OrderId.

(** The decoded secret of a client. *)
Record ClientSecrets : Type := {
  shopifyWebhookKey : string;
  kxCompanyRefId : string;
  kxApiKey : string;
}.

(** The call [fetch(url, { method: 'POST', headers, body })]; [body] is the
    payload that [JSON.stringify] serialises. *)
Record Request : Type := {
  url : string;
  authorization : string;
  body : Kornitx.KxOrderPayload;
}.

(** What the program reads of a [fetch] response; [resp_text] and [resp_json]
    are the outcomes of [res.text()] and [res.json()]. *)
Record Response : Type := {
  ok : bool;
  status : Z;
  statusText : string;
  resp_text : res string;
  resp_json : res json;
}.

(** The services behind the program, each acting on a state [Env] of its
    own: the DynamoDB document client (one operation per table and command),
    the secrets manager with the decoding of the secret, [fetch], the clock
    and [process.env.KX_BASE_URL]. The calls may throw. *)
Class Collaborators (Env : Type) : Type := {
  ddbGetClient : string -> Env -> res (option Client) * Env;
  ddbGetProcessed : string -> Env -> res (option ProcessedItem) * Env;
  ddbPutProcessed : ProcessedItem -> Env -> res unit * Env;
  ddbBatchGetSkuMap : list (string * string) -> Env -> res (list SkuItem) * Env;
  smGetSecret : string -> Env -> res ClientSecrets * Env;
  fetch : Request -> Env -> res Response * Env;
  nowISO : Env -> string;
  KX_BASE_URL : Env -> option string;
}.

(** What the retry executor takes from the runtime: [Math.random] and the
    passing of [ms] milliseconds in a [setTimeout]. *)
Class Scheduler (Env : Type) : Type := {
  mathRandom : Env -> Q * Env;
  elapse : Z -> Env -> Env;
}.

(** The calls that leave the process, in the order they are made. *)
Inductive event : Type :=
| GetClient (slug : string)
| GetProcessed (key : string)
| PutProcessed (item : ProcessedItem)
| BatchGetSkuMap (keys : list (string * string))
| GetSecretValue (secretId : string)
| Fetch (request : Request)
| SetTimeout (ms : Z)
| Console (level message : string).

Record World (Env : Type) : Type := {
  env : Env;
  trace : list event;
}.
Arguments env {Env} w.
Arguments trace {Env} w.

(** Computations that may throw, over a world. *)
Definition M (Env A : Type) : Type := World Env -> res A * World Env.

Definition ret {Env A} (a : A) : M Env A := fun w => (Ok a, w).

Definition throw {Env A} (e : exn) : M Env A := fun w => (Throw e, w).

Definition bind {Env A B} (m : M Env A) (k : A -> M Env B) : M Env B :=
  fun w =>
    match m w with
    | (Ok a, w') => k a w'
    | (Throw e, w') => (Throw e, w')
    end.

(** [try { body } catch (err) { handler }]. *)
Definition tryCatch {Env A} (body : M Env A) (handler : exn -> M Env A) : M Env A :=
  fun w =>
    match body w with
    | (Ok a, w') => (Ok a, w')
    | (Throw e, w') => handler e w'
    end.

(** A call to a collaborator: the event is recorded, the collaborator's
    state moves on. *)
Definition call {Env A} (ev : event) (f : Env -> res A * Env) : M Env A :=
  fun w =>
    let '(r, e') := f (env w) in
    (r, {| env := e'; trace := trace w ++ [ev] |}).

Definition console {Env} (level message : string) : M Env unit :=
  call (Console level message) (fun e => (Ok tt, e)).

Declare Scope monad_scope.
Delimit Scope monad_scope with monad.
Notation "x <- c1 ;; c2" := (bind c1 (fun x => c2))
  (at level 100, c1 at next level, right associativity) : monad_scope.
Notation "c1 ;; c2" := (bind c1 (fun _ => c2))
  (at level 100, c2 at level 200, right associativity) : monad_scope.
Local Open Scope monad_scope.

Section Program.
Context {Env : Type} `{Scheduler Env} `{Collaborators Env}.

(** [await new Promise((r) => setTimeout(r, delay))]. *)
Definition sleep (delay : Z) : M Env unit :=
  call (SetTimeout delay) (fun e => (Ok tt, elapse delay e)).

(** [Math.random()]. *)
Definition random : M Env Q :=
  fun w =>
    let '(r, e') := mathRandom (env w) in
    (Ok r, {| env := e'; trace := trace w |}).

(** ** src/services/kornitx.ts: the partner API client *)

Definition postKornitXOrder (baseUrl : option string) (companyRefId apiKey : string)
    (payload : Kornitx.KxOrderPayload) : M Env json :=
  let url :=
    default "https://api-sl-2-2.kornitx.net" (Kornitx.orUndefined baseUrl)
      +:+ "/order" in
  let auth := Base64.encode (Shopify.bufferFrom (companyRefId +:+ ":" +:+ apiKey)) in
  let request :=
    {| url := url; authorization := "Basic " +:+ auth; body := payload |} in
  res <- call (Fetch request) (fetch request) ;;
  if negb (ok res) then
    let text := match resp_text res with Ok t => t | Throw _ => "" end in
    throw (Error ("KX " +:+ Js.ofNumber (status res) +:+ " " +:+ statusText res
                    +:+ " - " +:+ text))
  else
    match resp_json res with
    | Ok j => ret j
    | Throw e => throw e
    end.

(** ** src/aws/secrets.ts and src/aws/dynamo.ts *)

(** The read of the secret; the decoding of the secret string into the three
    fields is the collaborator's. *)
Definition getClientSecrets (secretName : string) : M Env ClientSecrets :=
  call (GetSecretValue secretName) (smGetSecret secretName).

Definition getClientBySlug (slug : string) : M Env (option Client) :=
  call (GetClient slug) (ddbGetClient slug).

(** [`${orderId}`]. *)
Definition idText (orderId : OrderId) : string :=
  match orderId with
  | NumberId n => Js.ofNumber n
  | StringId s => s
  end.

(** [`${shopDomain}#${orderId}`]. *)
Definition shopOrderKeyOf (shopDomain : string) (orderId : OrderId) : string :=
  shopDomain +:+ "#" +:+ idText orderId.

Definition isProcessed (shopDomain : string) (orderId : OrderId) : M Env bool :=
  let shopOrderKey := shopOrderKeyOf shopDomain orderId in
  res <- call (GetProcessed shopOrderKey) (ddbGetProcessed shopOrderKey) ;;
  ret (bool_decide (is_Some res)).

Definition markProcessed (shopDomain : string) (orderId : OrderId)
    (kxExternalId : string) : M Env unit :=
  let shopOrderKey := shopOrderKeyOf shopDomain orderId in
  fun w =>
    let item := {| shopOrderKey := shopOrderKey; kxExternalId := kxExternalId;
                   processedAt := nowISO (env w) |} in
    call (PutProcessed item) (ddbPutProcessed item) w.

(** [Array.from(new Set(xs))]: the first occurrence of each element. *)
Fixpoint distinct (seen : gset string) (xs : list string) : list string :=
  match xs with
  | [] => []
  | x :: rest =>
      if bool_decide (x ∈ seen) then distinct seen rest
      else x :: distinct ({[x]} ∪ seen) rest
  end.

(** [Number(x)] of an attribute; [None] is NaN. *)
Definition toNumber (x : attribute) : option Z :=
  match x with
  | Missing => None
  | Null => Some 0
  | Num n => Some n
  end.

(** One round of the loop of [getProductIdsForSkus] over the returned items. *)
Definition recordSku (out : gmap string Z) (item : SkuItem) : gmap string Z :=
  let sku := Js.toLowerCase (default "" (item_sku item)) in
  let pid := toNumber (item_product_id item) in
  match pid with
  | Some n => if Js.nonEmpty sku && Js.isFinite n then Obj.set out sku n else out
  | None => out
  end.

Definition getProductIdsForSkus (slug : string) (skus : list string)
    : M Env (gmap string Z) :=
  let normalized :=
    distinct ∅
      (map (fun s => Js.toLowerCase (Js.trim s))
         (filter (fun s => Is_true (Js.nonEmpty s)) skus)) in
  if (length normalized =? 0)%nat then ret ∅
  else
    let keys := map (fun s => (slug, s)) normalized in
    res <- call (BatchGetSkuMap keys) (ddbBatchGetSkuMap keys) ;;
    ret (fold_left recordSku res ∅).

(** ** src/services/retry.ts *)

Record RetryOptions : Type := {
  attempts : option Z;
  baseMs : option Z;
  maxMs : option Z;
  jitter : option bool;
  onRetry : option (exn -> Z -> M Env unit);
}.

(** [Math.min(maxMs, baseMs * 2 ** (attempt - 1))]. *)
Definition backoffOf (baseMs maxMs attempt : Z) : Z :=
  Z.min maxMs (baseMs * 2 ^ (attempt - 1)).

(** [Math.floor(backoff * (0.5 + r * 0.5))], each product and the sum
    rounded to a double. *)
Definition jittered (backoff : Z) (r : Q) : Z :=
  Qfloor (Double.mul (inject_Z backoff)
            (Double.add (1 # 2) (Double.mul r (1 # 2)))).

(** The loop [for (let attempt = 1; attempt <= attempts; attempt++)] over the
    attempt numbers still to run, and the [throw lastErr] behind it. (The
    numbers are those that the counter takes up to 2^53, where [attempt++]
    is exact.) *)
Fixpoint retryLoop {T} (fn : M Env T) (attempts baseMs maxMs : Z) (jitter : bool)
    (onRetry : option (exn -> Z -> M Env unit)) (todo : list Z) (lastErr : exn)
    : M Env T :=
  match todo with
  | [] => throw lastErr
  | attempt :: rest =>
      tryCatch fn (fun err =>
        match onRetry with
        | Some observe => observe err attempt
        | None => ret tt
        end ;;
        if attempt =? attempts then throw err
        else
          let backoff := backoffOf baseMs maxMs attempt in
          delay <- (if jitter then r <- random ;; ret (jittered backoff r)
                    else ret backoff) ;;
          sleep delay ;;
          retryLoop fn attempts baseMs maxMs jitter onRetry rest err)
  end.

Definition withRetry {T} (fn : M Env T) (opts : option RetryOptions) : M Env T :=
  let attempts := default 5 (opts ≫= attempts) in
  let baseMs := default 1000 (opts ≫= baseMs) in
  let maxMs := default 8000 (opts ≫= maxMs) in
  let jitter := default true (opts ≫= jitter) in
  retryLoop fn attempts baseMs maxMs jitter (opts ≫= onRetry)
    (seqZ 1 attempts) Undefined.

End Program.
Arguments RetryOptions Env : clear implicits.

(** * functions/worker/handler.ts *)

Module Worker.
Import LineProps.

(** The decoded body of a queue record. *)
Record Message : Type := {
  slug : string;
  shopDomain : string;
  secretName : string;
  order : ShopifyOrder;
  candidates : list Candidate;
}.

Fixpoint hasUserFacingLoop (props : list Property) : bool :=
  match props with
  | [] => false
  | p :: rest =>
      let name := Js.trim (name p) in
      let value := Js.trim (value p) in
      if negb (Js.nonEmpty name) || negb (Js.nonEmpty value) then hasUserFacingLoop rest
      else if Js.startsWith name "_" then hasUserFacingLoop rest
      else true
  end.

Definition hasUserFacingProps (l : LineItem) : bool :=
  hasUserFacingLoop (default [] (li_properties l)).

(** The predicate of [candidates.filter(...)]: type 2 or type 5. *)
Definition isPersonalised (c : Candidate) : bool :=
  let hasPrintJob := Js.truthy (printJobId (bits c)) in
  if hasPrintJob then true else hasUserFacingProps (li c).

(** [String(c.li?.sku || '').trim()] of every candidate, the empty ones left
    out. *)
Definition skusOf (candidates : list Candidate) : list string :=
  filter (fun s => Is_true (Js.nonEmpty s))
    (map (fun c => Js.trim (default "" (li_sku (li c)))) candidates).

(** The SKUs of [personalised] that are not empty and for which
    [skuToProductId[sku] == null]. *)
Definition missingOf (skuToProductId : gmap string Z) (personalised : list Candidate)
    : list string :=
  filter (fun sku => Is_true (Js.nonEmpty sku
                               && Obj.isNullish (Obj.get skuToProductId sku)))
    (map (fun p => Js.toLowerCase (Js.trim (default "" (li_sku (li p))))) personalised).

(** [candidates.filter(...)]: the personalised lines. *)
Definition personalisedOf (candidates : list Candidate) : list Candidate :=
  filter (fun c => Is_true (isPersonalised c)) candidates.

(** [order.name || String(order.id)]. *)
Definition externalIdOf (o : ShopifyOrder) : string :=
  if Js.nonEmpty (order_name o) then order_name o else Js.ofNumber (order_id o).

(** The payload that the worker has built: every candidate, the resolved
    map, no default product id. *)
Definition payloadOf (msg : Message) (secrets : ClientSecrets)
    (skuToProductId : gmap string Z) : Kornitx.KxOrderPayload :=
  Kornitx.buildKxOrderPayload
    {| Kornitx.order := order msg;
       Kornitx.companyRefId := kxCompanyRefId secrets;
       Kornitx.candidates := candidates msg;
       Kornitx.skuToProductId := Some skuToProductId;
       Kornitx.defaultProductId := None |}.

Section Handler.
Context {Env : Type} `{Scheduler Env} `{Collaborators Env}.

(** The options of the retried post; the observer writes a warning. *)
Definition retryOptions : RetryOptions Env :=
  {| attempts := Some 5;
     baseMs := Some 1000;
     maxMs := Some 8000;
     jitter := None;
     onRetry := Some (fun _ _ => console "warn" "KX post failed; will retry") |}.

(** The post to the partner API, wrapped in [withRetry]. *)
Definition submit (secrets : ClientSecrets) (kxPayload : Kornitx.KxOrderPayload)
    : M Env json :=
  withRetry
    (fun w => postKornitXOrder (KX_BASE_URL (env w)) (kxCompanyRefId secrets)
                (kxApiKey secrets) kxPayload w)
    (Some retryOptions).

(** The body of the loop over [event.Records], for one record. *)
Definition processRecord (msg : Message) : M Env unit :=
  let order := order msg in
  tryCatch
    (processed <- isProcessed (shopDomain msg) (order_id order) ;;
     if processed : bool then
       console "log" "Order already processed; skipping"
     else
       client <- getClientBySlug (slug msg) ;;
       match client with
       | None =>
           console "error" "Client not found at worker" ;;
           throw (Error "Client not found")
       | Some _ =>
           secrets <- getClientSecrets (secretName msg) ;;
           let skus := skusOf (candidates msg) in
           skuToProductId <- getProductIdsForSkus (slug msg) skus ;;
           let personalised := personalisedOf (candidates msg) in
           if (length personalised =? 0)%nat then
             console "log" "No personalised items; marking processed, skipping KX create" ;;
             markProcessed (shopDomain msg) (order_id order) (externalIdOf order)
           else
             let missing := missingOf skuToProductId personalised in
             if (0 <? length missing)%nat then
               console "error" "Missing product_id mapping for personalised SKUs" ;;
               throw (Error ("Missing product_id mapping: " +:+ Js.join ", " missing))
             else
               let kxPayload := payloadOf msg secrets skuToProductId in
               if (length (Kornitx.items kxPayload) =? 0)%nat then
                 console "log"
                   "After filtering, no personalised items; marking processed, skipping KX create" ;;
                 markProcessed (shopDomain msg) (order_id order) (externalIdOf order)
               else
                 kxResp <- submit secrets kxPayload ;;
                 markProcessed (shopDomain msg) (order_id order) (externalIdOf order) ;;
                 console "log" "KX order created"
       end)
    (fun err =>
       console "error" "Worker fatal error; will retry" ;;
       throw err).

(** [for (const rec of event.Records)]: a record that throws ends the
    invocation. *)
Fixpoint handler (records : list Message) : M Env unit :=
  match records with
  | [] => ret tt
  | msg :: rest => processRecord msg ;; handler rest
  end.

End Handler.
End Worker.

(** * functions/api/handler.ts: the candidates of an order *)

Module Api.
Import LineProps.

(** [(order.line_items || []).map((li) => ({ li, bits }))], the bits read
    with the client's alias configuration. *)
Definition candidatesOf `{Runtime} (client : Client) (order : ShopifyOrder)
    : list Candidate :=
  map (fun l =>
         let props := extractProps (li_properties l) in
         let bits :=
           getDesignBits props
             {| topKeys := None; middleKeys := None; bottomKeys := None;
                topKeysJson := Some (from_option KeysString KeysUndefined (client_topKeysJson client));
                middleKeysJson := Some (from_option KeysString KeysUndefined (client_middleKeysJson client));
                bottomKeysJson := Some (from_option KeysString KeysUndefined (client_bottomKeysJson client)) |} in
         {| li := l; bits := bits |})
      (line_items order).

End Api.

(** * A reference runtime

    HMAC-SHA256 (FIPS 180-4, RFC 2104) and a JSON reader, as instances of
    what the program takes from Node. They run the definitions above on
    concrete inputs. *)

Module Sha256.
Local Open Scope N_scope.

Definition mask : N := 0xffffffff.
Definition add (x y : N) : N := N.land (x + y) mask.
Definition rotr (n x : N) : N :=
  N.lor (N.shiftr x n) (N.land (N.shiftl x (32 - n)) mask).
Definition xor3 (x y z : N) : N := N.lxor (N.lxor x y) z.
Definition Ch (x y z : N) : N := N.lxor (N.land x y) (N.land (N.lxor x mask) z).
Definition Maj (x y z : N) : N := xor3 (N.land x y) (N.land x z) (N.land y z).
Definition Sigma0 (x : N) : N := xor3 (rotr 2 x) (rotr 13 x) (rotr 22 x).
Definition Sigma1 (x : N) : N := xor3 (rotr 6 x) (rotr 11 x) (rotr 25 x).
Definition sigma0 (x : N) : N := xor3 (rotr 7 x) (rotr 18 x) (N.shiftr x 3).
Definition sigma1 (x : N) : N := xor3 (rotr 17 x) (rotr 19 x) (N.shiftr x 10).

Definition isPrime (n : N) : bool :=
  (1 <? n)
  && forallb (fun d => negb (n mod d =? 0))
       (map N.of_nat (seq 2 (N.to_nat (N.sqrt n) - 1))).

(** The first [count] primes, all below 312. *)
Definition primes (count : nat) : list N :=
  take count (filter (fun n => Is_true (isPrime n)) (map N.of_nat (seq 2 310))).

(** The largest [r'] above [r] with [r' ^ k <= x], the low [bits] bits of
    [r] being free. *)
Fixpoint root (k : N) (bits : nat) (x r : N) : N :=
  match bits with
  | O => r
  | S b =>
      let c := r + 2 ^ N.of_nat b in
      root k b x (if c ^ k <=? x then c else r)
  end.

(** The first 32 bits of the fractional part of the [k]-th root of [p]. *)
Definition fraction (k p : N) : N :=
  N.land (root k 40 (p * 2 ^ (32 * k)) 0) mask.

(** The round constants: cube roots of the first 64 primes. *)
Definition K : list N := Eval vm_compute in map (fraction 3) (primes 64).

(** The initial hash value: square roots of the first 8 primes. *)
Definition H0 : list N := Eval vm_compute in map (fraction 2) (primes 8).

(** The bytes of [x], most significant first, [n] of them. *)
Fixpoint bigEndian (n : nat) (x : N) : list N :=
  match n with
  | O => []
  | S n' => bigEndian n' (x / 256) ++ [x mod 256]
  end.

Definition pad (msg : list N) : list N :=
  let len := N.of_nat (length msg) in
  let zeros := (119 - len mod 64) mod 64 in
  msg ++ [0x80] ++ repeat 0 (N.to_nat zeros) ++ bigEndian 8 (8 * len).

Fixpoint wordsOf (n : nat) (bs : list N) : list N :=
  match n, bs with
  | S n', a :: b :: c :: d :: rest =>
      (((a * 256 + b) * 256 + c) * 256 + d) :: wordsOf n' rest
  | _, _ => []
  end.

(** The message schedule: [n] more words behind [w]. *)
Fixpoint schedule (n : nat) (w : list N) : list N :=
  match n with
  | O => w
  | S n' =>
      let t := length w in
      let at_ (i : nat) := nth (t - i) w 0 in
      schedule n'
        (w ++ [add (add (sigma1 (at_ 2%nat)) (at_ 7%nat))
                   (add (sigma0 (at_ 15%nat)) (at_ 16%nat))])
  end.

Definition round (st : list N) (kw : N * N) : list N :=
  match st with
  | [a; b; c; d; e; f; g; h] =>
      let t1 := add (add (add h (Sigma1 e)) (add (Ch e f g) kw.1)) kw.2 in
      let t2 := add (Sigma0 a) (Maj a b c) in
      [add t1 t2; a; b; c; add d t1; e; f; g]
  | _ => st
  end.

Definition compress (h : list N) (block : list N) : list N :=
  let w := schedule 48 (wordsOf 16 block) in
  zip_with add h (fold_left round (zip_with pair K w) h).

Fixpoint blocks (n : nat) (h : list N) (bs : list N) : list N :=
  match n with
  | O => h
  | S n' => blocks n' (compress h (take 64 bs)) (drop 64 bs)
  end.

Definition digest (msg : list N) : list N :=
  let padded := pad msg in
  flat_map (bigEndian 4) (blocks (length padded / 64) H0 padded).

Definition hmac (key msg : list N) : list N :=
  let key := if 64 <? N.of_nat (length key) then digest key else key in
  let key := key ++ repeat 0 (64 - length key)%nat in
  digest (map (N.lxor 0x5c) key ++ digest (map (N.lxor 0x36) key ++ msg)).

End Sha256.

Module JsonReader.

Definition isSpace (c : ascii) : bool :=
  let n := N_of_ascii c in ((n =? 32) || (n =? 9) || (n =? 10) || (n =? 13))%N.

Definition isDigit (c : ascii) : bool :=
  let n := N_of_ascii c in ((48 <=? n) && (n <=? 57))%N.

Fixpoint skipSpace (s : string) : string :=
  match s with
  | String c r => if isSpace c then skipSpace r else s
  | EmptyString => s
  end.

(** The longest run of digits at the head of [s], and what follows. *)
Fixpoint digits (s : string) : string * string :=
  match s with
  | String c r =>
      if isDigit c then let '(d, rest) := digits r in (String c d, rest)
      else (EmptyString, s)
  | EmptyString => (EmptyString, s)
  end.

Definition hexValue (c : ascii) : option N :=
  let n := N_of_ascii c in
  if ((48 <=? n) && (n <=? 57))%N then Some (n - 48)%N
  else if ((65 <=? n) && (n <=? 70))%N then Some (n - 55)%N
  else if ((97 <=? n) && (n <=? 102))%N then Some (n - 87)%N
  else None.

(** A number literal: sign, integer part, fraction, exponent. *)
Definition number (s : string) : option (json * string) :=
  let '(sign, s1) :=
    match s with String "-" r => ("-", r) | _ => ("", s) end in
  let '(int, s2) := digits s1 in
  let intOk :=
    match int with
    | EmptyString => false
    | String "0" (String _ _) => false
    | _ => true
    end in
  let '(frac, s3) :=
    match s2 with
    | String "." r => let '(d, rest) := digits r in (Some d, rest)
    | _ => (None, s2)
    end in
  let '(exp, s4) :=
    match s3 with
    | String e r =>
        if bool_decide (e = "e"%char) || bool_decide (e = "E"%char) then
          let '(sg, r1) :=
            match r with
            | String "+" r' => ("+", r')
            | String "-" r' => ("-", r')
            | _ => ("", r)
            end in
          let '(d, rest) := digits r1 in (Some (String e (sg +:+ d), d), rest)
        else (None, s3)
    | _ => (None, s3)
    end in
  if intOk
     && match frac with Some d => Js.nonEmpty d | None => true end
     && match exp with Some (_, d) => Js.nonEmpty d | None => true end
  then
    Some (JNumber (sign +:+ int
                   +:+ match frac with Some d => "." +:+ d | None => "" end
                   +:+ match exp with Some (e, _) => e | None => "" end), s4)
  else None.

(** The double quote. *)
Definition dquote : ascii := ascii_of_N 34.

(** The characters of a string literal behind its opening quote. An escape
    [\uXXXX] above U+00FF has no code unit in [string] and is refused. *)
Fixpoint chars (s : string) (acc : string) : option (string * string) :=
  match s with
  | EmptyString => None
  | String "\" (String "u" (String a (String b (String c (String d r))))) =>
      match hexValue a, hexValue b, hexValue c, hexValue d with
      | Some 0%N, Some 0%N, Some x, Some y => chars r (String (ascii_of_N (x * 16 + y)) acc)
      | _, _, _, _ => None
      end
  | String "\" (String e r) =>
      if Ascii.eqb e dquote then chars r (String e acc)
      else
        match e with
        | "\"%char | "/"%char => chars r (String e acc)
        | "b"%char => chars r (String (ascii_of_N 8) acc)
        | "f"%char => chars r (String (ascii_of_N 12) acc)
        | "n"%char => chars r (String (ascii_of_N 10) acc)
        | "r"%char => chars r (String (ascii_of_N 13) acc)
        | "t"%char => chars r (String (ascii_of_N 9) acc)
        | _ => None
        end
  | String c r =>
      if Ascii.eqb c dquote then Some (String.rev acc, r)
      else if (N_of_ascii c <? 32)%N then None
      else chars r (String c acc)
  end.

Definition keyword (word : string) (v : json) (s : string) : option (json * string) :=
  if String.prefix word s
  then Some (v, String.substring (String.length word) (String.length s) s)
  else None.

Fixpoint value (fuel : nat) (s : string) : option (json * string) :=
  match fuel with
  | O => None
  | S fuel' =>
      match skipSpace s with
      | EmptyString => None
      | String c r as t =>
          if Ascii.eqb c dquote then
            '(str, rest) ← chars r EmptyString; Some (JString str, rest)
          else
            match c with
            | "n"%char => keyword "null" JNull t
            | "t"%char => keyword "true" (JBool true) t
            | "f"%char => keyword "false" (JBool false) t
            | "["%char =>
                match skipSpace r with
                | String "]" rest => Some (JArray [], rest)
                | t' => elements fuel' t' []
                end
            | "{"%char =>
                match skipSpace r with
                | String "}" rest => Some (JObject [], rest)
                | t' => members fuel' t' []
                end
            | _ => number t
            end
      end
  end
with elements (fuel : nat) (s : string) (acc : list json) : option (json * string) :=
  match fuel with
  | O => None
  | S fuel' =>
      '(v, rest) ← value fuel' s;
      match skipSpace rest with
      | String "," r => elements fuel' r (v :: acc)
      | String "]" r => Some (JArray (rev (v :: acc)), r)
      | _ => None
      end
  end
with members (fuel : nat) (s : string) (acc : list (string * json))
    : option (json * string) :=
  match fuel with
  | O => None
  | S fuel' =>
      match skipSpace s with
      | String c r =>
          if Ascii.eqb c dquote then
            '(key, rest) ← chars r EmptyString;
            match skipSpace rest with
            | String ":" r1 =>
                '(v, rest1) ← value fuel' r1;
                match skipSpace rest1 with
                | String "," r2 => members fuel' r2 ((key, v) :: acc)
                | String "}" r2 => Some (JObject (rev ((key, v) :: acc)), r2)
                | _ => None
                end
            | _ => None
            end
          else None
      | EmptyString => None
      end
  end.

Definition parse (s : string) : option json :=
  '(v, rest) ← value (2 * String.length s + 2) s;
  if Js.nonEmpty (skipSpace rest) then None else Some v.

End JsonReader.

Module Reference.

Definition bytesToN (bs : list byte) : list N := map Byte.to_N bs.
Definition bytesOfN (ns : list N) : list byte :=
  map (fun n => byte_of_ascii (ascii_of_N n)) ns.

(** [createHmac('sha256', secret).update(body).digest('base64')]. *)
Definition hmacBase64 (secret : string) (body : list byte) : string :=
  Base64.encode
    (bytesOfN (Sha256.hmac (bytesToN (Shopify.bufferFrom secret)) (bytesToN body))).

#[export] Instance runtime : Runtime :=
  {| JSON_parse := JsonReader.parse; hmacSha256Base64 := hmacBase64 |}.

End Reference.

(** * Collaborators in memory

    The tables as finite maps, the partner API as a script of the outcomes
    of the coming [fetch] calls (a network failure once the script is used
    up), a constant [Math.random]. *)

Module InMemory.

Record Store : Type := {
  clients : gmap string Client;
  processed : gmap string ProcessedItem;
  skuMap : gmap (string * string) Z;
  secrets : gmap string ClientSecrets;
  responses : list (res Response);
  randomValue : Q;
  clock : string;
  baseUrl : option string;
}.

Definition putProcessed (item : ProcessedItem) (s : Store) : Store :=
  {| clients := clients s;
     processed := <[shopOrderKey item := item]> (processed s);
     skuMap := skuMap s;
     secrets := secrets s;
     responses := responses s;
     randomValue := randomValue s;
     clock := clock s;
     baseUrl := baseUrl s |}.

Definition nextResponse (s : Store) : res Response * Store :=
  match responses s with
  | [] => (Throw (Rejected "fetch failed"), s)
  | r :: rest =>
      (r, {| clients := clients s;
             processed := processed s;
             skuMap := skuMap s;
             secrets := secrets s;
             responses := rest;
             randomValue := randomValue s;
             clock := clock s;
             baseUrl := baseUrl s |})
  end.

Definition batchGet (keys : list (string * string)) (s : Store) : list SkuItem :=
  omap (fun k => (fun pid => {| item_sku := Some k.2; item_product_id := Num pid |})
                   <$> skuMap s !! k) keys.

#[global] Instance collaborators : Collaborators Store := {|
  ddbGetClient slug s := (Ok (clients s !! slug), s);
  ddbGetProcessed key s := (Ok (processed s !! key), s);
  ddbPutProcessed item s := (Ok tt, putProcessed item s);
  ddbBatchGetSkuMap keys s := (Ok (batchGet keys s), s);
  smGetSecret name s :=
    match secrets s !! name with
    | Some v => (Ok v, s)
    | None => (Throw (Rejected "ResourceNotFoundException"), s)
    end;
  fetch _ s := nextResponse s;
  nowISO s := clock s;
  KX_BASE_URL s := baseUrl s;
|}.

#[global] Instance scheduler : Scheduler Store := {|
  mathRandom s := (randomValue s, s);
  elapse _ s := s;
|}.

End InMemory.

(** * Reading a trace *)

Definition fetchesOf (evs : list event) : list Request :=
  omap (fun ev => match ev with Fetch r => Some r | _ => None end) evs.

Definition putsOf (evs : list event) : list ProcessedItem :=
  omap (fun ev => match ev with PutProcessed i => Some i | _ => None end) evs.

Definition timeoutsOf (evs : list event) : list Z :=
  omap (fun ev => match ev with SetTimeout ms => Some ms | _ => None end) evs.

Definition notPut (ev : event) : bool :=
  match ev with PutProcessed _ => false | _ => true end.

Definition notFetch (ev : event) : bool :=
  match ev with Fetch _ => false | _ => true end.

(** Neither a post to the partner API nor a put into the processed-orders
    table. *)
Definition silent (ev : event) : bool := notPut ev && notFetch ev.

Definition isPut (ev : event) : bool := negb (notPut ev).

Definition isFetch (ev : event) : bool := negb (notFetch ev).

(** The number of events of [evs] that pass [P]. *)
Definition countOf (P : event -> bool) (evs : list event) : nat :=
  length (filter (fun ev => Is_true (P ev)) evs).

(** [m] extends the trace, by at most [n] events that pass [P]. *)
Definition addsAtMost {Env A} (P : event -> bool) (n : nat) (m : M Env A) : Prop :=
  ∀ w r w', m w = (r, w') → ∃ evs, trace w' = trace w ++ evs ∧ (countOf P evs <= n)%nat.

(** [m] extends the trace, and only by events that pass [P]. *)
Definition adds {Env A} (P : event -> bool) (m : M Env A) : Prop :=
  ∀ w r w', m w = (r, w') → ∃ evs, trace w' = trace w ++ evs ∧ forallb P evs = true.

(** * The words of the specification *)

Module Spec.
Import LineProps.

(** A property that is not private and not empty, read to the letter. *)
Definition nonPrivateNonEmpty (p : Property) : Prop :=
  name p ≠ "" ∧ value p ≠ "" ∧ Js.startsWith (name p) "_" = false.

(** The same once name and value are trimmed. *)
Definition userFacing (p : Property) : Prop :=
  Js.trim (name p) ≠ "" ∧ Js.trim (value p) ≠ ""
  ∧ Js.startsWith (Js.trim (name p)) "_" = false.

(** The property that an alias stands for: the key of [keys] that equals
    [alias] up to case (the first one, should there be several). *)
Definition keyFor (keys : list string) (alias : string) : option string :=
  head (filter (fun k => Js.toLowerCase k = Js.toLowerCase alias) keys).

(** What one alias gives: the value of its property, when neither the name
    nor the value is empty. *)
Definition aliasValue (obj : KV) (alias : string) : option string :=
  k ← keyFor (keys obj) alias;
  v ← get obj k;
  if Js.nonEmpty k && Js.nonEmpty v then Some v else None.

(** The first alias, in the order of the list, that gives a value. *)
Definition firstAlias (obj : KV) (aliases : list string) : option string :=
  head (omap (aliasValue obj) aliases).

(** No two keys of the object are equal up to case. *)
Definition caseDistinct (obj : KV) : Prop :=
  NoDup (map Js.toLowerCase (keys obj)).

(** An alias that, in lower case, is not the name of a member of
    [Object.prototype]: neither [constructor] nor [__proto__]. *)
Definition plainAlias (alias : string) : Prop :=
  Obj.inherited (Js.toLowerCase alias) = false.

(** Options of the retry executor that doubles hold exactly: the counter of
    the attempts runs up to 2^53, the base of the backoff is positive, and
    both the base and the cap are safe integers. *)
Definition exactOptions (attempts baseMs maxMs : Z) : Prop :=
  1 ≤ attempts ≤ 2 ^ 53 ∧ 1 ≤ baseMs < 2 ^ 53 ∧ Z.abs maxMs < 2 ^ 53.

(** The fixed names under which printJobId and thumb are looked up. *)
Definition metadataNames : list string :=
  ["_printJobId"; "_printjobid"; "print_job_ref"; "_thumb"; "_thumbnail"; "thumbnail"].

(** The first property, in the order of the list, whose name is one of the
    aliases up to case: the reading of the slot lookup to the letter. *)
Definition firstAliasedProperty (props : list Property) (aliases : list string)
    : option string :=
  value <$> head (filter (fun p => Js.toLowerCase (name p) ∈ map Js.toLowerCase aliases) props).

End Spec.

(** The items that [buildKxOrderPayload] makes of the candidates [cs], the
    other options being those of [opts]. *)
Definition itemsOf (opts : Kornitx.BuildOpts) (cs : list Candidate)
    : list Kornitx.KxOrderItem :=
  Kornitx.items
    (Kornitx.buildKxOrderPayload
       {| Kornitx.order := Kornitx.order opts;
          Kornitx.companyRefId := Kornitx.companyRefId opts;
          Kornitx.candidates := cs;
          Kornitx.skuToProductId := Kornitx.skuToProductId opts;
          Kornitx.defaultProductId := Kornitx.defaultProductId opts |}).

(** * A probe for the retry executor

    The wrapped operation follows a script: its [k]-th call (from 0) returns
    [script k]. The state counts the calls and the draws of [Math.random],
    whose [k]-th draw is [rnd k]. *)

Module Probe.

Record State : Type := { calls : nat; draws : nat }.

Definition scheduler (rnd : nat -> Q) : Scheduler State := {|
  mathRandom s := (rnd (draws s), {| calls := calls s; draws := S (draws s) |});
  elapse _ s := s;
|}.

Definition scripted {T} (script : nat -> res T) : M State T :=
  fun w =>
    (script (calls (env w)),
     {| env := {| calls := S (calls (env w)); draws := draws (env w) |};
        trace := trace w |}).

Definition start : World State :=
  {| env := {| calls := 0; draws := 0 |}; trace := [] |}.

(** The delay before the retry that follows attempt [a + j], the draws of
    [Math.random] counted from [d]. *)
Definition delayAt (rnd : nat -> Q) (base cap : Z) (jit : bool) (a : Z) (d j : nat) : Z :=
  if jit then jittered (backoffOf base cap (a + Z.of_nat j)) (rnd (d + j)%nat)
  else backoffOf base cap (a + Z.of_nat j).

(** An observer that returns, leaves the counters alone and sets no timer. *)
Definition passive (observer : option (exn -> Z -> M State unit)) : Prop :=
  match observer with
  | None => True
  | Some observe =>
      ∀ err attempt w, ∃ evs,
        observe err attempt w = (Ok tt, {| env := env w; trace := trace w ++ evs |})
        ∧ timeoutsOf evs = []
  end.

End Probe.


(** * Sample orders *)

Module Samples.
Import LineProps.

(** The text of a JSON array of plain strings. *)
Definition jsonList (xs : list string) : string :=
  let quote := String JsonReader.dquote EmptyString in
  "[" +:+ Js.join ", " (map (fun x => quote +:+ x +:+ quote) xs) +:+ "]".

Definition client : Client :=
  {| client_slug := "acme";
     client_shopDomain := "acme.myshopify.com";
     client_secretName := "acme/kx";
     client_topKeysJson := Some (jsonList ["Line 1"; "Top"]);
     client_middleKeysJson := None;
     client_bottomKeysJson := Some "Line 3, Bottom";
     defaultKxProductId := None |}.

Definition clientSecrets : ClientSecrets :=
  {| shopifyWebhookKey := "key"; kxCompanyRefId := "77"; kxApiKey := "api" |}.

Definition line (id : Z) (quantity : option Z) (sku : option string)
    (props : list Property) : LineItem :=
  {| li_id := id; li_quantity := quantity; li_title := "JURA LABEL";
     li_sku := sku; li_variant_id := Some 555; li_properties := Some props |}.

Definition orderOf (lines : list LineItem) : ShopifyOrder :=
  {| order_id := 999000111; order_name := "#1001"; order_number := 1001;
     order_email := Some "jane@example.com"; customer := None;
     processed_at := Some "2024-05-01T10:00:00Z"; created_at := None;
     line_items := lines; shipping_address := None |}.

(** A print job with a text line besides. *)
Definition printLine : LineItem :=
  line 1 (Some 2) (Some "ABC-1")
    [{| name := "_printJobId"; value := "PJ1" |};
     {| name := "Top line"; value := "HELLO" |}].

(** Two text lines, no print job. *)
Definition textLine : LineItem :=
  line 2 (Some 1) (Some " Dpsjurag-11635890 ")
    [{| name := "Top line"; value := "HELLO" |};
     {| name := "Bottom line"; value := "IVC" |}].

(** Private properties only. *)
Definition plainLine : LineItem :=
  line 3 (Some 1) (Some "PLAIN-1") [{| name := "_note"; value := "gift" |}].

(** A print job ordered zero times. *)
Definition zeroLine : LineItem :=
  line 4 (Some 0) (Some "ABC-1") [{| name := "_printJobId"; value := "PJ4" |}].

(** A print job ordered minus three times. *)
Definition negativeLine : LineItem :=
  line 5 (Some (-3)) (Some "ABC-1") [{| name := "_printJobId"; value := "PJ5" |}].

(** A text line whose value is one space. *)
Definition blankLine : LineItem :=
  line 6 (Some 1) (Some "ABC-1") [{| name := "Top line"; value := " " |}].

(** A print job without SKU. *)
Definition noSkuLine : LineItem :=
  line 7 (Some 1) None [{| name := "_printJobId"; value := "PJ7" |}].

(** A print job whose SKU is the name of an inherited member. *)
Definition constructorLine : LineItem :=
  line 8 (Some 1) (Some "Constructor") [{| name := "_printJobId"; value := "PJ8" |}].

Definition candidatesOf (lines : list LineItem) : list Candidate :=
  @Api.candidatesOf Reference.runtime client (orderOf lines).

Definition candidateOf (l : LineItem) : Candidate :=
  default {| li := l;
             bits := {| top := None; middle := None; bottom := None;
                        printJobId := None; thumb := None |} |}
    (head (candidatesOf [l])).

Definition buildOpts (lines : list LineItem) : Kornitx.BuildOpts :=
  {| Kornitx.order := orderOf lines;
     Kornitx.companyRefId := "77";
     Kornitx.candidates := candidatesOf lines;
     Kornitx.skuToProductId := Some {[ "abc-1" := 42 ]};
     Kornitx.defaultProductId := None |}.

Definition message (lines : list LineItem) : Worker.Message :=
  {| Worker.slug := "acme";
     Worker.shopDomain := "acme.myshopify.com";
     Worker.secretName := "acme/kx";
     Worker.order := orderOf lines;
     Worker.candidates := candidatesOf lines |}.

Definition accepted : Response :=
  {| ok := true; status := 200; statusText := "OK";
     resp_text := Ok "{}";
     resp_json := Ok (JObject []) |}.

Definition unavailable : Response :=
  {| ok := false; status := 503; statusText := "Service Unavailable";
     resp_text := Ok "down"; resp_json := Throw (Error "Unexpected token") |}.

(** A store that knows the client, its secret and the product of ABC-1. *)
Definition store (responses : list (res Response)) : InMemory.Store :=
  {| InMemory.clients := {[ "acme" := client ]};
     InMemory.processed := ∅;
     InMemory.skuMap := {[ ("acme", "abc-1") := 42 ]};
     InMemory.secrets := {[ "acme/kx" := clientSecrets ]};
     InMemory.responses := responses;
     InMemory.randomValue := 0;
     InMemory.clock := "2024-05-01T10:00:05.000Z";
     InMemory.baseUrl := None |}.

Definition world (responses : list (res Response)) : World InMemory.Store :=
  {| env := store responses; trace := [] |}.

(** The same world once the sample order is in the processed-orders table. *)
Definition processedWorld : World InMemory.Store :=
  {| env := InMemory.putProcessed
              {| shopOrderKey := "acme.myshopify.com#999000111";
                 kxExternalId := "#1001";
                 processedAt := "2024-05-01T09:00:00.000Z" |}
              (store [Ok accepted]);
     trace := [] |}.

(** The worlds that a run goes through up to the resolved map. *)
Definition afterCheck (msg : Worker.Message) (w : World InMemory.Store) :=
  (isProcessed (Worker.shopDomain msg) (order_id (Worker.order msg)) w).2.
Definition afterClient (msg : Worker.Message) (w : World InMemory.Store) :=
  (getClientBySlug (Worker.slug msg) (afterCheck msg w)).2.
Definition afterSecrets (msg : Worker.Message) (w : World InMemory.Store) :=
  (getClientSecrets (Worker.secretName msg) (afterClient msg w)).2.
Definition afterMap (msg : Worker.Message) (w : World InMemory.Store) :=
  (getProductIdsForSkus (Worker.slug msg) (Worker.skusOf (Worker.candidates msg))
     (afterSecrets msg w)).2.

(** The body of a signed webhook. *)
Definition signedBody : list byte :=
  Shopify.bufferFrom "The quick brown fox jumps over the lazy dog".

(** An operation that fails twice, then returns. *)
Definition failsTwice (k : nat) : res string :=
  if (k <? 2)%nat then Throw (Error ("KX 503 #" +:+ pretty k)) else Ok "created".

Definition alwaysFails (k : nat) : res string :=
  Throw (Error ("KX 503 #" +:+ pretty k)).

Definition threeAttempts : RetryOptions Probe.State :=
  {| attempts := Some 3; baseMs := Some 100; maxMs := Some 150;
     jitter := Some false; onRetry := None |}.

(** The same options with an observer that throws. *)
Definition failingObserver : RetryOptions Probe.State :=
  {| attempts := Some 3; baseMs := Some 100; maxMs := Some 150;
     jitter := Some false;
     onRetry := Some (fun _ _ => throw (Error "observer failed")) |}.

(** [Math.random] stuck at one half. *)
Definition half (_ : nat) : Q := 1 # 2.

End Samples.
(** * More of the runtime *)

(** [buf.toString('utf8')] on the bytes of a string of code units below 256:
    one byte below 128, or two bytes for a code unit from 128 on. *)
Fixpoint utf8ToString (bs : list byte) : string :=
  match bs with
  | [] => EmptyString
  | b :: rest =>
      if (Byte.to_N b <? 128)%N then String (ascii_of_byte b) (utf8ToString rest)
      else
        match rest with
        | [] => EmptyString
        | b2 :: rest' =>
            String (ascii_of_N ((Byte.to_N b - 192) * 64 + (Byte.to_N b2 - 128)))
              (utf8ToString rest')
        end
  end.

(** * Shapes of attributes, items and payloads *)

Module Shape.
Import LineProps Kornitx.

(** A name without a comma. *)
Definition commaFree (x : string) : Prop :=
  Forall (fun c => c ≠ ","%char) (list_ascii_of_string x).

(** The test that the loops of [hasUserFacingProps] and
    [passthroughAttributes] put to a property. *)
Definition userFacingb (p : Property) : bool :=
  Js.nonEmpty (Js.trim (name p)) && Js.nonEmpty (Js.trim (value p))
  && negb (Js.startsWith (Js.trim (name p)) "_").

(** The attribute pushed for a property: name and value trimmed. *)
Definition trimmed (p : Property) : Property :=
  {| name := Js.trim (name p); value := Js.trim (value p) |}.

(** The key under which [seen] holds a property. *)
Definition keyOf (p : Property) : string := Js.toLowerCase (Js.trim (name p)).

(** The first user-facing property of [props] that has the key of [p]. *)
Definition firstWithKey (props : list Property) (p : Property) : option Property :=
  head (filter (fun q => Is_true (userFacingb q && bool_decide (keyOf q = keyOf p))) props).

(** A character of [String(n)] for an integer [n]: a digit or the minus
    sign. *)
Definition numeric (c : ascii) : Prop :=
  c = "-"%char ∨ (48 ≤ N_of_ascii c ∧ N_of_ascii c ≤ 57)%N.

(** A text without the separator [#] of the keys of the processed-orders
    table. *)
Definition hashFree (s : string) : Prop :=
  Forall (fun c => c ≠ "#"%char) (list_ascii_of_string s).

(** The optional header fields of a payload. *)
Definition headerFields (p : KxOrderPayload) : list (option string) :=
  [customer_name p; payload_customer_email p; customer_telephone p;
   shipping_address_1 p; shipping_address_2 p; shipping_address_3 p;
   shipping_address_4 p; shipping_address_5 p; shipping_postcode p;
   shipping_country_code p].

(** The item that the builder makes of a personalised candidate stands for
    that candidate. *)
Definition itemFor (skuToProductId : option (gmap string Z))
    (defaultProductId : option Z) (item : KxOrderItem) (c : Candidate) : Prop :=
  external_ref item = Js.ofNumber (li_id (li c))
  ∧ sku item = li_sku (li c)
  ∧ description item = li_title (li c)
  ∧ quantity item ≠ 0
  ∧ textual_product_id item
    = Obj.nullish
        (match skuToProductId with
         | Some m => Obj.get m (normSkuOf (li c))
         | None => Obj.Absent
         end)
        (Obj.ofOption defaultProductId)
  ∧ ((Js.truthy (printJobId (bits c)) = true
      ∧ type item = 2
      ∧ print_job_ref item = printJobId (bits c)
      ∧ attributes item = attributesForType2 (thumb (bits c)))
     ∨ (Js.truthy (printJobId (bits c)) = false
        ∧ type item = 5
        ∧ print_job_ref item = None
        ∧ attributes item = passthroughAttributes (li c) (thumb (bits c))
        ∧ attributes item ≠ [])).

End Shape.

(** * Traces of the worker *)

(** [m] extends the trace, and only by events that are [P]. *)
Definition addsOnly {Env A} (P : event -> Prop) (m : M Env A) : Prop :=
  ∀ w r w', m w = (r, w') → ∃ evs, trace w' = trace w ++ evs ∧ Forall P evs.

Module Posted.

(** The request that [postKornitXOrder] makes for a payload under the
    secrets of a client: the payload as body, the basic credentials of the
    client, the path [/order] on some host. *)
Definition requestFor (secrets : ClientSecrets) (payload : Kornitx.KxOrderPayload)
    (r : Request) : Prop :=
  body r = payload
  ∧ authorization r
    = "Basic " +:+ Base64.encode
        (Shopify.bufferFrom (kxCompanyRefId secrets +:+ ":" +:+ kxApiKey secrets))
  ∧ ∃ host, host ≠ "" ∧ url r = host +:+ "/order".

(** The events of a submission: posts of the payload, timers, warnings. *)
Definition ofSubmission (secrets : ClientSecrets) (payload : Kornitx.KxOrderPayload)
    (ev : event) : Prop :=
  match ev with
  | Fetch r => requestFor secrets payload r
  | SetTimeout _ => True
  | Console level _ => level = "warn"
  | _ => False
  end.

End Posted.

Module Requested.
Import LineProps Worker.

(** A request for the SKUs of a message: a key for every SKU that the builder
    will look up, no key twice, no empty SKU, every key of the client. *)
Definition skuRequestOf (msg : Message) (ev : event) : Prop :=
  ∀ keys, ev = BatchGetSkuMap keys →
    NoDup keys
    ∧ keys ≠ []
    ∧ Forall (fun k => k.1 = slug msg ∧ k.2 ≠ ""
                       ∧ Js.toLowerCase k.2 = k.2 ∧ Js.trim k.2 = k.2) keys
    ∧ ∀ c, c ∈ candidates msg → Kornitx.normSkuOf (li c) ≠ "" →
           (slug msg, Kornitx.normSkuOf (li c)) ∈ keys.

End Requested.

(** The item that [markProcessed] puts for the order of a message, at the
    time [now]. *)
Definition ledgerItem (msg : Worker.Message) (now : string) : ProcessedItem :=
  {| shopOrderKey :=
       Worker.shopDomain msg +:+ "#" +:+ Js.ofNumber (order_id (Worker.order msg));
     kxExternalId := Worker.externalIdOf (Worker.order msg);
     processedAt := now |}.

(** The product id that the SKU map in memory gives for a client and a SKU:
    the number stored, when it is finite. *)
Definition storedProduct (store : InMemory.Store) (slug sku : string) : option Z :=
  pid ← InMemory.skuMap store !! (slug, sku);
  if Js.isFinite pid then Some pid else None.

(** The milliseconds that an event waits. *)
Definition waitOf (ev : event) : Z :=
  match ev with SetTimeout ms => ms | _ => 0 end.

Definition totalWait (evs : list event) : Z := foldr Z.add 0 (map waitOf evs).

(** [m] extends the trace by events that wait no negative time and at most
    [n] milliseconds in all. *)
Definition waitsAtMost {Env A} (n : Z) (m : M Env A) : Prop :=
  ∀ w r w', m w = (r, w') →
    ∃ evs, trace w' = trace w ++ evs ∧ Forall (fun ev => 0 ≤ waitOf ev) evs
           ∧ totalWait evs ≤ n.

(** The delays that the loop may still set: the backoff of every attempt to
    come, but for the last one. *)
Definition backoffsOf (n base cap : Z) (todo : list Z) : Z :=
  foldr (fun a acc => (if a =? n then 0 else backoffOf base cap a) + acc) 0 todo.

(** * functions/api/handler.ts: the slug of a client *)

Module Slug.

(** The class [[a-z0-9-_]]. *)
Definition isSlugChar (c : ascii) : bool :=
  let n := N_of_ascii c in
  ((97 <=? n) && (n <=? 122) || (48 <=? n) && (n <=? 57) || (n =? 45) || (n =? 95))%N.

(** The class [[-_]]. *)
Definition isEdge (c : ascii) : bool :=
  let n := N_of_ascii c in ((n =? 45) || (n =? 95))%N.

Definition isDash (c : ascii) : bool := (N_of_ascii c =? 45)%N.

(** [s.replace(/[^a-z0-9-_]+/g, '-')]: every longest run of other characters
    becomes one dash; [inRun] tells that the run has begun. *)
Fixpoint replaceOthers (s : string) (inRun : bool) : string :=
  match s with
  | EmptyString => EmptyString
  | String c r =>
      if isSlugChar c then String c (replaceOthers r false)
      else if inRun then replaceOthers r true
      else String "-" (replaceOthers r true)
  end.

Definition startsWithDash (s : string) : bool :=
  match s with String c _ => isDash c | EmptyString => false end.

(** [s.replace(/-{2,}/g, '-')]: every run of two dashes or more becomes one
    dash. *)
Fixpoint collapseDashes (s : string) : string :=
  match s with
  | EmptyString => EmptyString
  | String c r =>
      if isDash c && startsWithDash r then collapseDashes r
      else String c (collapseDashes r)
  end.

Fixpoint stripStart (s : string) : string :=
  match s with
  | EmptyString => EmptyString
  | String c r => if isEdge c then stripStart r else s
  end.

Fixpoint stripEnd (s : string) : string :=
  match s with
  | EmptyString => EmptyString
  | String c r =>
      match stripEnd r with
      | EmptyString => if isEdge c then EmptyString else String c EmptyString
      | r' => String c r'
      end
  end.

(** [s.replace(/^[-_]+|[-_]+$/g, '')]: the run of dashes and underscores at
    the start goes, and the one at the end. *)
Definition stripEdges (s : string) : string := stripEnd (stripStart s).

Definition toSlug (s : string) : string :=
  stripEdges (collapseDashes (replaceOthers (Js.toLowerCase (Js.trim s)) false)).

(** A line terminator below 256, which [.] does not match. *)
Definition isLineTerminator (c : ascii) : bool :=
  let n := N_of_ascii c in ((n =? 10) || (n =? 13))%N.

(** [[\-_]orders$] with the flag [i], tried at the start of [s]. *)
Definition isOrdersSuffix (s : string) : bool :=
  match s with
  | String c rest => isEdge c && String.eqb (Js.toLowerCase rest) "orders"
  | EmptyString => false
  end.

(** The text before the suffix [[\-_]orders] of [s]. *)
Fixpoint beforeOrders (s : string) : option string :=
  match s with
  | EmptyString => None
  | String c r =>
      if isOrdersSuffix s then Some EmptyString
      else String c <$> beforeOrders r
  end.

(** [String(clientHook).match(/^(.+?)[\-_]orders$/i)]: the group [m[1]], one
    character at least and no line terminator. *)
Definition matchOrders (clientHook : string) : option string :=
  match beforeOrders clientHook with
  | Some prefix =>
      if Js.nonEmpty prefix
         && forallb (fun c => negb (isLineTerminator c)) (list_ascii_of_string prefix)
      then Some prefix else None
  | None => None
  end.

Definition parseClientSlug (clientHook : option string) : option string :=
  match clientHook with
  | None => None
  | Some hook =>
      if negb (Js.nonEmpty hook) then None
      else
        let slug := default hook (matchOrders hook) in
        Some (toSlug slug)
  end.

(** A slug in normal form: lower-case letters, digits, dashes and
    underscores; no two dashes in a row; neither a dash nor an underscore at
    either end. *)
Fixpoint noDoubleDash (s : string) : bool :=
  match s with
  | EmptyString => true
  | String c r => negb (isDash c && startsWithDash r) && noDoubleDash r
  end.

Definition startsWithEdge (s : string) : bool :=
  match s with String c _ => isEdge c | EmptyString => false end.

Fixpoint endsWithEdge (s : string) : bool :=
  match s with
  | EmptyString => false
  | String c EmptyString => isEdge c
  | String _ r => endsWithEdge r
  end.

Definition clean (s : string) : Prop :=
  forallb isSlugChar (list_ascii_of_string s) = true
  ∧ noDoubleDash s = true
  ∧ startsWithEdge s = false
  ∧ endsWithEdge s = false.

End Slug.

(** * functions/api/handler.ts: the intake *)

Module Intake.
Import LineProps Slug.

(** What the handler reads of the API Gateway event:
    [event.pathParameters?.clientHook], [event.headers], [event.body] and
    [event.isBase64Encoded]. *)
Record ProxyEvent : Type := {
  clientHook : option string;
  headers : gmap string string;
  eventBody : option string;
  isBase64Encoded : bool;
}.

(** The body of a response, before [JSON.stringify]: [{ error }],
    [{ ok: true, enqueued: true, items }] and [{ ok: false }]. *)
Inductive ResponseBody : Type :=
| ErrorBody (error : string)
| EnqueuedBody (items : nat)
| FailedBody.

Record ProxyResult : Type := {
  statusCode : Z;
  resultBody : ResponseBody;
}.

(** The input of [SendMessageCommand]; [MessageBody] is the message that
    [JSON.stringify] serialises. *)
Record SendMessage : Type := {
  QueueUrl : string;
  MessageBody : Worker.Message;
  MessageGroupId : option string;
  MessageDeduplicationId : option string;
}.

(** What the intake takes from Node and AWS besides the collaborators of the
    worker: the decoding of a base64 body, [buf.toString('utf8')], the parsed
    body seen at the type [ShopifyOrder] (reading a property of [null]
    throws), [sqs.send] and [process.env.QUEUE_URL]. *)
Class Gateway (Env : Type) : Type := {
  bufferFromBase64 : string -> list byte;
  bufferToString : list byte -> string;
  asOrder : json -> res ShopifyOrder;
  sqsSend : SendMessage -> Env -> res unit * Env;
  QUEUE_URL : string;
}.

(** [/\.(fifo)$/i.test(url)]. *)
Fixpoint isFifo (url : string) : bool :=
  match url with
  | EmptyString => false
  | String _ r => String.eqb (Js.toLowerCase url) ".fifo" || isFifo r
  end.

(** A header under its lower-case name or under its capitalised name, or
    the empty string. *)
Definition headerOf (headers : gmap string string) (lower capitalised : string) : string :=
  default "" (Js.or (Js.or (headers !! lower) (headers !! capitalised)) (Some "")).

Section Handler.
Context {Env : Type} `{Runtime} `{Collaborators Env} `{Gateway Env}.

(** The world of the intake: the world of the shared collaborators and the
    commands passed to [sqs.send], in their order. *)
Record Outbox : Type := {
  inner : World Env;
  sent : list SendMessage;
}.

Definition A (T : Type) : Type := Outbox -> res T * Outbox.

Definition lift {T} (m : M Env T) : A T :=
  fun o => let '(r, w') := m (inner o) in (r, {| inner := w'; sent := sent o |}).

Definition send (cmd : SendMessage) : A unit :=
  fun o =>
    let '(r, e') := sqsSend cmd (env (inner o)) in
    (r, {| inner := {| env := e'; trace := trace (inner o) |};
           sent := sent o ++ [cmd] |}).

Definition pure {T} (a : T) : A T := fun o => (Ok a, o).

Definition raise {T} (e : exn) : A T := fun o => (Throw e, o).

Definition andThen {T U} (m : A T) (k : T -> A U) : A U :=
  fun o =>
    match m o with
    | (Ok a, o') => k a o'
    | (Throw e, o') => (Throw e, o')
    end.

Definition ofRes {T} (r : res T) : A T :=
  match r with Ok a => pure a | Throw e => raise e end.

(** [Buffer.from(event.body || '', event.isBase64Encoded ? 'base64' : 'utf8')]. *)
Definition rawBodyOf (event : ProxyEvent) : list byte :=
  let text := default "" (Kornitx.orUndefined (eventBody event)) in
  if isBase64Encoded event then bufferFromBase64 text else Shopify.bufferFrom text.

Definition shopDomainHeaderOf (event : ProxyEvent) : string :=
  headerOf (headers event) "x-shopify-shop-domain" "X-Shopify-Shop-Domain".

Definition hmacHeaderOf (event : ProxyEvent) : string :=
  headerOf (headers event) "x-shopify-hmac-sha256" "X-Shopify-Hmac-Sha256".

(** The message for the queue and the command that sends it. *)
Definition messageOf (slug : string) (client : Client) (order : ShopifyOrder)
    : Worker.Message :=
  {| Worker.slug := slug;
     Worker.shopDomain := client_shopDomain client;
     Worker.secretName := client_secretName client;
     Worker.order := order;
     Worker.candidates := Api.candidatesOf client order |}.

Definition commandOf (slug : string) (client : Client) (order : ShopifyOrder)
    : SendMessage :=
  if isFifo QUEUE_URL then
    {| QueueUrl := QUEUE_URL;
       MessageBody := messageOf slug client order;
       MessageGroupId := Some (client_shopDomain client);
       MessageDeduplicationId :=
         Some (client_shopDomain client +:+ "#" +:+ Js.ofNumber (order_id order)) |}
  else
    {| QueueUrl := QUEUE_URL;
       MessageBody := messageOf slug client order;
       MessageGroupId := None;
       MessageDeduplicationId := None |}.

(** The [try] block of the handler. *)
Definition attempt (event : ProxyEvent) : A ProxyResult :=
  let clientHook := Kornitx.orUndefined (clientHook event) in
  let slug := parseClientSlug clientHook in
  if negb (Js.truthy slug) then
    pure {| statusCode := 404; resultBody := ErrorBody "Invalid endpoint" |}
  else
    let slug := default "" slug in
    let shopDomainHeader := shopDomainHeaderOf event in
    let hmacHeader := hmacHeaderOf event in
    let rawBody := rawBodyOf event in
    andThen (lift (getClientBySlug slug)) (fun client =>
    match client with
    | None => pure {| statusCode := 404; resultBody := ErrorBody "Unknown client" |}
    | Some client =>
        andThen (lift (getClientSecrets (client_secretName client))) (fun secrets =>
        andThen
          (if Js.nonEmpty shopDomainHeader
              && negb (String.eqb shopDomainHeader (client_shopDomain client))
           then lift (console "warn" "Shop domain mismatch") else pure tt) (fun _ =>
        andThen
          (ofRes (Shopify.verifyShopifyHmac rawBody (Some hmacHeader)
                    (shopifyWebhookKey secrets))) (fun ok =>
        if negb ok then
          pure {| statusCode := 401; resultBody := ErrorBody "Invalid HMAC" |}
        else
          match JSON_parse (bufferToString rawBody) with
          | None => pure {| statusCode := 400; resultBody := ErrorBody "Invalid JSON" |}
          | Some parsed =>
              andThen (ofRes (asOrder parsed)) (fun order =>
              andThen (send (commandOf slug client order)) (fun _ =>
              pure {| statusCode := 200;
                      resultBody :=
                        EnqueuedBody (length (Api.candidatesOf client order)) |}))
          end)))
    end).

(** The handler: what the [try] block returns, or, when it throws, a log
    line and the answer 200 with [{ ok: false }]. *)
Definition handler (event : ProxyEvent) (o : Outbox) : ProxyResult * Outbox :=
  match attempt event o with
  | (Ok result, o') => (result, o')
  | (Throw _, o') =>
      ({| statusCode := 200; resultBody := FailedBody |},
       (lift (console "error" "API handler fatal error") o').2)
  end.

End Handler.
End Intake.

(** * src/services/kornitx.ts: the sale time *)

(** What [formatUtc] takes from [Date]: the time value of [new Date(ts)]
    ([None] when it is NaN) and the UTC fields of a time value. *)
Class Calendar : Type := {
  Date_getTime : string -> option Z;
  getUTCFullYear : Z -> Z;
  getUTCMonth : Z -> Z;
  getUTCDate : Z -> Z;
  getUTCHours : Z -> Z;
  getUTCMinutes : Z -> Z;
  getUTCSeconds : Z -> Z;
}.

Module SaleTime.

Definition pad (n : Z) : string :=
  if n <? 10 then "0" +:+ Js.ofNumber n else Js.ofNumber n.

Definition formatUtc `{Calendar} (ts : option string) : option string :=
  if negb (Js.truthy ts) then None
  else
    match Date_getTime (default "" ts) with
    | None => None
    | Some d =>
        Some (Js.ofNumber (getUTCFullYear d) +:+ "-" +:+ pad (getUTCMonth d + 1)
              +:+ "-" +:+ pad (getUTCDate d) +:+ " " +:+ pad (getUTCHours d)
              +:+ ":" +:+ pad (getUTCMinutes d) +:+ ":" +:+ pad (getUTCSeconds d))
    end.

(** [sale_datetime] of the payload:
    [formatUtc(order.processed_at || order.created_at)]. *)
Definition saleDatetimeOf `{Calendar} (order : ShopifyOrder) : option string :=
  formatUtc (Js.or (processed_at order) (created_at order)).

(** The UTC fields of a time value lie in the ranges that the language
    gives them. *)
Definition inRange `{Calendar} (d : Z) : Prop :=
  0 ≤ getUTCMonth d ≤ 11 ∧ 1 ≤ getUTCDate d ≤ 31 ∧ 0 ≤ getUTCHours d ≤ 23
  ∧ 0 ≤ getUTCMinutes d ≤ 59 ∧ 0 ≤ getUTCSeconds d ≤ 59.

End SaleTime.

(** A reference calendar: the proleptic Gregorian calendar on time values in
    milliseconds, and the reading of [YYYY-MM-DDTHH:MM:SSZ]. *)
Module Gregorian.

Definition msPerDay : Z := 86400000.

(** The civil date of a day number, day 0 being 1970-01-01. *)
Definition civil (day : Z) : Z * Z * Z :=
  let z := day + 719468 in
  let era := z / 146097 in
  let doe := z - era * 146097 in
  let yoe := (doe - doe / 1460 + doe / 36524 - doe / 146096) / 365 in
  let doy := doe - (365 * yoe + yoe / 4 - yoe / 100) in
  let mp := (5 * doy + 2) / 153 in
  let d := doy - (153 * mp + 2) / 5 + 1 in
  let m := if mp <? 10 then mp + 3 else mp - 9 in
  let y := yoe + era * 400 + (if m <=? 2 then 1 else 0) in
  (y, m, d).

(** The day number of a civil date. *)
Definition dayOf (y m d : Z) : Z :=
  let y' := if m <=? 2 then y - 1 else y in
  let era := y' / 400 in
  let yoe := y' - era * 400 in
  let doy := (153 * (if 2 <? m then m - 3 else m + 9) + 2) / 5 + d - 1 in
  let doe := yoe * 365 + yoe / 4 - yoe / 100 + doy in
  era * 146097 + doe - 719468.

Definition digitsOf (s : string) : option Z :=
  if Js.nonEmpty s && forallb JsonReader.isDigit (list_ascii_of_string s)
  then Some (fold_left (fun acc c => acc * 10 + Z.of_N (N_of_ascii c - 48))
               (list_ascii_of_string s) 0)
  else None.

Definition parse (ts : string) : option Z :=
  if bool_decide (String.length ts = 20%nat)
     && String.eqb (String.substring 4 1 ts) "-" && String.eqb (String.substring 7 1 ts) "-"
     && String.eqb (String.substring 10 1 ts) "T" && String.eqb (String.substring 13 1 ts) ":"
     && String.eqb (String.substring 16 1 ts) ":" && String.eqb (String.substring 19 1 ts) "Z"
  then
    y ← digitsOf (String.substring 0 4 ts);
    m ← digitsOf (String.substring 5 2 ts);
    d ← digitsOf (String.substring 8 2 ts);
    hh ← digitsOf (String.substring 11 2 ts);
    mm ← digitsOf (String.substring 14 2 ts);
    ss ← digitsOf (String.substring 17 2 ts);
    if (1 <=? m) && (m <=? 12) && (1 <=? d) && (d <=? 31)
       && (hh <=? 23) && (mm <=? 59) && (ss <=? 59)
    then Some (dayOf y m d * msPerDay + ((hh * 60 + mm) * 60 + ss) * 1000)
    else None
  else None.

#[export] Instance calendar : Calendar := {|
  Date_getTime := parse;
  getUTCFullYear t := (civil (t / msPerDay)).1.1;
  getUTCMonth t := (civil (t / msPerDay)).1.2 - 1;
  getUTCDate t := (civil (t / msPerDay)).2;
  getUTCHours t := t mod msPerDay / 3600000;
  getUTCMinutes t := t mod 3600000 / 60000;
  getUTCSeconds t := t mod 60000 / 1000;
|}.

End Gregorian.

(** * A reference gateway

    The remaining pieces that the intake takes from Node and AWS, as
    instances that run on concrete inputs: the decoding of base64, the
    reading of a parsed body at the type [ShopifyOrder], a queue that takes
    every message. *)

Module Base64Reader.

Fixpoint indexOf (c : ascii) (s : string) (i : N) : option N :=
  match s with
  | EmptyString => None
  | String d r => if Ascii.eqb c d then Some i else indexOf c r (i + 1)%N
  end.

Definition valueOf (c : ascii) : N := default 0%N (indexOf c Base64.alphabet 0).

Definition byteOf (n : N) : byte := byte_of_ascii (ascii_of_N (n mod 256)).

(** The bytes of padded base64 text, four characters at a time. *)
Fixpoint decode (s : string) : list byte :=
  match s with
  | String a (String b (String c (String d r))) =>
      let x := valueOf a in
      let y := valueOf b in
      let z := valueOf c in
      let u := valueOf d in
      if Ascii.eqb c "=" then [byteOf (x * 4 + y / 16)]
      else if Ascii.eqb d "=" then [byteOf (x * 4 + y / 16); byteOf (y mod 16 * 16 + z / 4)]
      else byteOf (x * 4 + y / 16) :: byteOf (y mod 16 * 16 + z / 4)
             :: byteOf (z mod 4 * 64 + u) :: decode r
  | _ => []
  end%N.

End Base64Reader.

(** [JSON.stringify] of a JSON value. *)
Module JsonWriter.

Definition quote : string := String JsonReader.dquote EmptyString.

Fixpoint escape (s : string) : string :=
  match s with
  | EmptyString => EmptyString
  | String c r =>
      if Ascii.eqb c JsonReader.dquote || Ascii.eqb c "\"
      then String "\" (String c (escape r))
      else String c (escape r)
  end.

Fixpoint print (j : json) : string :=
  match j with
  | JNull => "null"
  | JBool b => if b then "true" else "false"
  | JNumber literal => literal
  | JString s => quote +:+ escape s +:+ quote
  | JArray xs => "[" +:+ Js.join "," (map print xs) +:+ "]"
  | JObject fields =>
      "{" +:+ Js.join ","
                (map (fun kv => quote +:+ escape kv.1 +:+ quote +:+ ":" +:+ print kv.2) fields)
        +:+ "}"
  end.

End JsonWriter.

Module OrderReader.
Import LineProps.

(** [j[k]]: the last member of that name. *)
Definition field (k : string) (j : json) : option json :=
  match j with
  | JObject fields => snd <$> last (filter (fun kv => kv.1 = k) fields)
  | _ => None
  end.

Definition text (j : json) : option string :=
  match j with JString s => Some s | _ => None end.

Definition integer (j : json) : option Z :=
  match j with
  | JNumber (String "-" digits) => Z.opp <$> Gregorian.digitsOf digits
  | JNumber digits => Gregorian.digitsOf digits
  | _ => None
  end.

Definition items (j : json) : option (list json) :=
  match j with JArray xs => Some xs | _ => None end.

Definition property (j : json) : Property :=
  {| name := default "" (field "name" j ≫= text);
     value := default "" (field "value" j ≫= text) |}.

Definition lineItem (j : json) : LineItem :=
  {| li_id := default 0 (field "id" j ≫= integer);
     li_quantity := field "quantity" j ≫= integer;
     li_title := default "" (field "title" j ≫= text);
     li_sku := field "sku" j ≫= text;
     li_variant_id := field "variant_id" j ≫= integer;
     li_properties := map property <$> (field "properties" j ≫= items) |}.

Definition customerOf (j : json) : Customer :=
  {| first_name := field "first_name" j ≫= text;
     last_name := field "last_name" j ≫= text;
     customer_email := field "email" j ≫= text;
     customer_phone := field "phone" j ≫= text |}.

Definition addressOf (j : json) : Address :=
  {| company := field "company" j ≫= text;
     address1 := field "address1" j ≫= text;
     address2 := field "address2" j ≫= text;
     city := field "city" j ≫= text;
     province := field "province" j ≫= text;
     zip := field "zip" j ≫= text;
     country_code := field "country_code" j ≫= text;
     address_name := field "name" j ≫= text;
     address_phone := field "phone" j ≫= text |}.

(** The parsed body as an order; the first property read of [null] throws. *)
Definition order (j : json) : res ShopifyOrder :=
  match j with
  | JNull => Throw (Error "Cannot read properties of null (reading 'line_items')")
  | _ =>
      Ok {| order_id := default 0 (field "id" j ≫= integer);
            order_name := default "" (field "name" j ≫= text);
            order_number := default 0 (field "order_number" j ≫= integer);
            order_email := field "email" j ≫= text;
            customer := customerOf <$> field "customer" j;
            processed_at := field "processed_at" j ≫= text;
            created_at := field "created_at" j ≫= text;
            line_items := map lineItem (default [] (field "line_items" j ≫= items));
            shipping_address := addressOf <$> field "shipping_address" j |}
  end.

End OrderReader.

Module InMemoryGateway.

(** A FIFO queue that takes every message. *)
#[global] Instance gateway : Intake.Gateway InMemory.Store := {|
  Intake.bufferFromBase64 := Base64Reader.decode;
  Intake.bufferToString := utf8ToString;
  Intake.asOrder := OrderReader.order;
  Intake.sqsSend _ s := (Ok tt, s);
  Intake.QUEUE_URL := "https://sqs.eu-west-2.amazonaws.com/1/orders.fifo";
|}.

(** [Math.random] stuck at one half. *)
Definition steady : Scheduler InMemory.Store := {|
  mathRandom s := (1 # 2, s);
  elapse _ s := s;
|}.

End InMemoryGateway.

(** * Sample webhooks *)

Module Webhooks.
Import Intake.

(** An order of one line: a print job of SKU [ABC-1], twice. *)
Definition orderJson : json :=
  JObject
    [("id", JNumber "999000111"); ("name", JString "#1001");
     ("order_number", JNumber "1001"); ("email", JString "jane@example.com");
     ("processed_at", JString "2024-05-01T10:00:00Z");
     ("line_items",
      JArray
        [JObject
           [("id", JNumber "1"); ("quantity", JNumber "2");
            ("title", JString "JURA LABEL"); ("sku", JString "ABC-1");
            ("variant_id", JNumber "555");
            ("properties",
             JArray
               [JObject [("name", JString "_printJobId"); ("value", JString "PJ1")];
                JObject [("name", JString "Top line"); ("value", JString "HELLO")]])]])].

Definition bodyText : string := Eval vm_compute in JsonWriter.print orderJson.

(** The signature of the sample body under the key of the sample client. *)
Definition signature : string :=
  Eval vm_compute in Reference.hmacBase64 "key" (Shopify.bufferFrom bodyText).

Definition webhook (hook : string) (hmac : string) : ProxyEvent :=
  {| clientHook := Some hook;
     headers := {[ "x-shopify-hmac-sha256" := hmac;
                   "x-shopify-shop-domain" := "acme.myshopify.com" ]};
     eventBody := Some bodyText;
     isBase64Encoded := false |}.

Definition outbox (responses : list (res Response)) : @Outbox InMemory.Store :=
  {| inner := Samples.world responses; sent := [] |}.

(** A record of a client that is not in the clients table. *)
Definition ghost : Worker.Message :=
  {| Worker.slug := "ghost";
     Worker.shopDomain := "ghost.myshopify.com";
     Worker.secretName := "ghost/kx";
     Worker.order := Samples.orderOf [Samples.printLine];
     Worker.candidates := Samples.candidatesOf [Samples.printLine] |}.

End Webhooks.
(** * Strings: trimming *)

Section StringFacts.

Lemma trimEnd_keeps_head c r :
  Js.isWhiteSpace c = false → Js.trimEnd (String c r) = String c (Js.trimEnd r).
Proof.
  intros Hc. simpl. rewrite Hc. by destruct (Js.trimEnd r).
Qed.

Lemma trim_of_empty_is_empty s : Js.nonEmpty (Js.trim s) = true → Js.nonEmpty s = true.
Proof. by destruct s. Qed.

Lemma startsWith_underscore c r :
  Js.startsWith (String c r) "_" = Ascii.eqb "_" c.
Proof. cbn [Js.startsWith]. apply andb_true_r. Qed.

Lemma trim_keeps_underscore s :
  Js.startsWith s "_" = true → Js.startsWith (Js.trim s) "_" = true.
Proof.
  destruct s as [|c r]; [done|]. rewrite startsWith_underscore.
  destruct (Ascii.eqb_spec "_" c) as [<-|]; [|done].
  intros _. unfold Js.trim.
  change (Js.trimStart (String "_" r)) with (String "_" r).
  rewrite trimEnd_keeps_head by done. by rewrite startsWith_underscore.
Qed.

Lemma nonEmpty_true s : Js.nonEmpty s = true ↔ s ≠ "".
Proof. by destruct s. Qed.

Lemma nonEmpty_false s : Js.nonEmpty s = false ↔ s = "".
Proof. by destruct s. Qed.

End StringFacts.

(** * The payload builder *)

Section Builder.
Import LineProps Kornitx.

Lemma userFacing_bool p :
  Spec.userFacing p ↔
  Js.nonEmpty (Js.trim (name p)) = true ∧ Js.nonEmpty (Js.trim (value p)) = true
  ∧ Js.startsWith (Js.trim (name p)) "_" = false.
Proof. unfold Spec.userFacing. by rewrite !nonEmpty_true. Qed.

Lemma hasUserFacingLoop_Exists props :
  hasUserFacingLoop props = true ↔ Exists Spec.userFacing props.
Proof.
  induction props as [|p rest IH]; simpl.
  - split; [done|]. by intros ?%Exists_nil.
  - rewrite Exists_cons, <- IH, userFacing_bool.
    destruct (Js.nonEmpty (Js.trim (name p))), (Js.nonEmpty (Js.trim (value p)));
      simpl; [|intuition congruence..].
    destruct (Js.startsWith (Js.trim (name p)) "_"); intuition congruence.
Qed.

Lemma userFacing_to_the_letter p : Spec.userFacing p → Spec.nonPrivateNonEmpty p.
Proof.
  rewrite userFacing_bool. unfold Spec.nonPrivateNonEmpty.
  rewrite <- !nonEmpty_true. intros (Hn & Hv & Hs).
  repeat split; [by apply trim_of_empty_is_empty..|].
  destruct (Js.startsWith (name p) "_") eqn:E; [|done].
  apply trim_keeps_underscore in E. congruence.
Qed.

Lemma pushItem_app s d acc c : pushItem s d acc c = acc ++ pushItem s d [] c.
Proof.
  unfold pushItem.
  destruct (Js.truthy _); [done|].
  destruct (hasUserFacingProps _); [|by rewrite app_nil_r].
  destruct (0 <? _)%nat; [done|by rewrite app_nil_r].
Qed.

Lemma fold_pushItem s d cs acc :
  fold_left (pushItem s d) cs acc = acc ++ fold_left (pushItem s d) cs [].
Proof.
  revert acc. induction cs as [|c cs IH]; intros acc; simpl.
  - by rewrite app_nil_r.
  - rewrite (IH (pushItem s d acc c)), (IH (pushItem s d [] c)).
    by rewrite (pushItem_app s d acc c), app_assoc.
Qed.

Lemma itemsOf_app opts cs1 cs2 :
  itemsOf opts (cs1 ++ cs2) = itemsOf opts cs1 ++ itemsOf opts cs2.
Proof.
  unfold itemsOf, buildKxOrderPayload. simpl.
  by rewrite fold_left_app, fold_pushItem.
Qed.

Lemma itemsOf_one opts c :
  itemsOf opts [c] = pushItem (skuToProductId opts) (defaultProductId opts) [] c.
Proof. done. Qed.

Lemma itemsOf_split opts before c after :
  itemsOf opts (before ++ c :: after)
  = itemsOf opts before
    ++ pushItem (skuToProductId opts) (defaultProductId opts) [] c
    ++ itemsOf opts after.
Proof.
  change (c :: after) with ([c] ++ after).
  by rewrite !itemsOf_app, itemsOf_one.
Qed.

(** What a candidate adds is fixed by the split of the item list around it. *)
Lemma itemsOf_yield opts before c after xs :
  itemsOf opts (before ++ c :: after) = itemsOf opts before ++ xs ++ itemsOf opts after →
  pushItem (skuToProductId opts) (defaultProductId opts) [] c = xs.
Proof.
  rewrite itemsOf_split. intros E%app_inv_head. by apply app_inv_tail in E.
Qed.

(** The loop of [passthroughAttributes] never loses an attribute, and a key
    it has seen stands for an attribute it has pushed. *)
Lemma passthrough_invariant props attrs seen :
  (seen ≠ ∅ → attrs ≠ []) →
  let '(attrs', seen') := fold_left passthroughStep props (attrs, seen) in
  (attrs ≠ [] → attrs' ≠ []) ∧ (seen' ≠ ∅ → attrs' ≠ [])
  ∧ (Exists Spec.userFacing props → attrs' ≠ []).
Proof.
  revert attrs seen.
  induction props as [|p rest IH]; intros attrs seen Hinv; cbn [fold_left].
  - split; [done|]. split; [done|]. by intros ?%Exists_nil.
  - destruct (passthroughStep (attrs, seen) p) as [attrs1 seen1] eqn:Hstep.
    assert ((attrs ≠ [] → attrs1 ≠ []) ∧ (seen1 ≠ ∅ → attrs1 ≠ [])
            ∧ (Spec.userFacing p → attrs1 ≠ [])) as (Hkeep & Hinv1 & Hnew).
    { rewrite userFacing_bool. unfold passthroughStep in Hstep.
      destruct (Js.nonEmpty (Js.trim (name p))), (Js.nonEmpty (Js.trim (value p)));
        simpl in Hstep; [|injection Hstep as <- <-; intuition congruence..].
      destruct (Js.startsWith (Js.trim (name p)) "_");
        [injection Hstep as <- <-; intuition congruence|].
      case_bool_decide as Hseen; injection Hstep as <- <-.
      - split; [done|]. split; [done|]. intros _. apply Hinv. set_solver.
      - split; [|split]; intros _; by destruct attrs. }
    specialize (IH attrs1 seen1 Hinv1).
    destruct (fold_left passthroughStep rest (attrs1, seen1)) as [attrs' seen'].
    destruct IH as (IH1 & IH2 & IH3).
    split; [tauto|]. split; [done|].
    intros [Hp|Hrest]%Exists_cons; tauto.
Qed.

Lemma passthroughAttributes_nonempty l t :
  hasUserFacingProps l = true → passthroughAttributes l t ≠ [].
Proof.
  unfold hasUserFacingProps, passthroughAttributes.
  intros Hex%hasUserFacingLoop_Exists.
  pose proof (passthrough_invariant (default [] (li_properties l)) [] ∅) as Hinv.
  destruct (fold_left passthroughStep _ _) as [attrs seen].
  destruct Hinv as (_ & _ & Hne); [done|].
  specialize (Hne Hex).
  destruct t as [t|]; [|done].
  destruct (_ && _); [|done]. by destruct attrs.
Qed.

End Builder.

(** * SKU normalization *)

Section Normalization.

Lemma lowerChar_keeps_space c : Js.isWhiteSpace (Js.lowerChar c) = Js.isWhiteSpace c.
Proof. by destruct c as [[] [] [] [] [] [] [] []]. Qed.

Lemma lowerChar_twice c : Js.lowerChar (Js.lowerChar c) = Js.lowerChar c.
Proof. by destruct c as [[] [] [] [] [] [] [] []]. Qed.

Lemma toLowerCase_cons c r :
  Js.toLowerCase (String c r) = String (Js.lowerChar c) (Js.toLowerCase r).
Proof. done. Qed.

Lemma toLowerCase_twice s : Js.toLowerCase (Js.toLowerCase s) = Js.toLowerCase s.
Proof.
  induction s as [|c r IH]; [done|].
  by rewrite !toLowerCase_cons, lowerChar_twice, IH.
Qed.

Lemma toLowerCase_trimStart s :
  Js.toLowerCase (Js.trimStart s) = Js.trimStart (Js.toLowerCase s).
Proof.
  induction s as [|c r IH]; [done|].
  rewrite toLowerCase_cons. cbn [Js.trimStart]. rewrite lowerChar_keeps_space.
  destruct (Js.isWhiteSpace c); [done|]. by rewrite toLowerCase_cons.
Qed.

Lemma toLowerCase_trimEnd s :
  Js.toLowerCase (Js.trimEnd s) = Js.trimEnd (Js.toLowerCase s).
Proof.
  induction s as [|c r IH]; [done|].
  rewrite toLowerCase_cons. cbn [Js.trimEnd]. rewrite <- IH, lowerChar_keeps_space.
  destruct (Js.trimEnd r); [by destruct (Js.isWhiteSpace c)|done].
Qed.

Lemma toLowerCase_trim s : Js.toLowerCase (Js.trim s) = Js.trim (Js.toLowerCase s).
Proof. unfold Js.trim. by rewrite toLowerCase_trimEnd, toLowerCase_trimStart. Qed.

Lemma trimStart_black s : Js.startsBlack (Js.trimStart s).
Proof.
  induction s as [|c r IH]; [done|]. cbn [Js.trimStart].
  by destruct (Js.isWhiteSpace c) eqn:Hc.
Qed.

Lemma trimStart_of_black s : Js.startsBlack s → Js.trimStart s = s.
Proof. destruct s as [|c r]; [done|]. cbn. by intros ->. Qed.

Lemma trimEnd_black s : Js.startsBlack s → Js.startsBlack (Js.trimEnd s).
Proof.
  destruct s as [|c r]; [done|]. cbn [Js.startsBlack]. intros Hc.
  by rewrite trimEnd_keeps_head.
Qed.

Lemma trimEnd_cons c r :
  Js.trimEnd (String c r)
  = match Js.trimEnd r with
    | EmptyString => if Js.isWhiteSpace c then EmptyString else String c EmptyString
    | r' => String c r'
    end.
Proof. done. Qed.

Lemma trimEnd_twice s : Js.trimEnd (Js.trimEnd s) = Js.trimEnd s.
Proof.
  induction s as [|c r IH]; [done|]. rewrite trimEnd_cons.
  destruct (Js.trimEnd r) as [|c' r'] eqn:Hr.
  - destruct (Js.isWhiteSpace c) eqn:Hc; [done|]. by rewrite trimEnd_cons, Hc.
  - by rewrite trimEnd_cons, IH.
Qed.

Lemma trim_twice s : Js.trim (Js.trim s) = Js.trim s.
Proof.
  unfold Js.trim.
  rewrite (trimStart_of_black (Js.trimEnd _)) by apply trimEnd_black, trimStart_black.
  apply trimEnd_twice.
Qed.

(** X1. The normalization of a SKU, trimming and then lower-casing, is
    idempotent, so that the key the builder looks up is the key the worker
    checks and the key the map is filled under. *)
Theorem sku_normalization_is_idempotent s :
  let normalize s := Js.toLowerCase (Js.trim s) in
  normalize (normalize s) = normalize s.
Proof.
  intros normalize. unfold normalize.
  by rewrite <- toLowerCase_trim, trim_twice, toLowerCase_twice.
Qed.

End Normalization.

Section BuilderTheorems.
Import LineProps Kornitx.

(** C5. Classification by the payload builder. A candidate whose printJobId
    is not empty adds exactly one item, of type 2, carrying that printJobId,
    whatever its properties are; a candidate without printJobId none of whose
    properties is non-private and non-empty adds no item; a candidate with
    both a printJobId and such properties adds one item of type 2 and none
    of type 5. *)
Theorem classification_of_candidates opts before c after :
  (Js.truthy (printJobId (bits c)) = true →
   ∃ item,
     itemsOf opts (before ++ c :: after)
     = itemsOf opts before ++ [item] ++ itemsOf opts after
     ∧ type item = 2 ∧ print_job_ref item = printJobId (bits c))
  ∧ (Js.truthy (printJobId (bits c)) = false →
     Forall (fun p => ¬ Spec.nonPrivateNonEmpty p) (default [] (li_properties (li c))) →
     itemsOf opts (before ++ c :: after) = itemsOf opts before ++ itemsOf opts after)
  ∧ (Js.truthy (printJobId (bits c)) = true →
     Exists Spec.nonPrivateNonEmpty (default [] (li_properties (li c))) →
     ∃ item,
       itemsOf opts (before ++ c :: after)
       = itemsOf opts before ++ [item] ++ itemsOf opts after
       ∧ type item = 2 ∧ (type item =? 5) = false).
Proof.
  rewrite itemsOf_split. unfold pushItem.
  split; [|split].
  - intros ->. eexists. split; [reflexivity|]. done.
  - intros -> Hnone.
    destruct (hasUserFacingProps (li c)) eqn:Hfacing; [|done].
    apply hasUserFacingLoop_Exists, Exists_exists in Hfacing as (p & Hin & Hp).
    rewrite Forall_forall in Hnone.
    destruct (Hnone p Hin). by apply userFacing_to_the_letter.
  - intros -> _. eexists. split; [reflexivity|]. done.
Qed.

Lemma classification_of_candidates_witness :
  let opts := Samples.buildOpts [] in
  let text := Samples.candidateOf Samples.textLine in
  let print := Samples.candidateOf Samples.printLine in
  let plain := Samples.candidateOf Samples.plainLine in
  (∃ item,
     itemsOf opts ([text] ++ print :: [plain])
     = itemsOf opts [text] ++ [item] ++ itemsOf opts [plain]
     ∧ type item = 2 ∧ print_job_ref item = Some "PJ1")
  ∧ itemsOf opts ([print] ++ plain :: [text])
    = itemsOf opts [print] ++ itemsOf opts [text].
Proof.
  intros opts text print plain. split.
  - apply (proj1 (classification_of_candidates opts [text] print [plain])).
    reflexivity.
  - apply (proj1 (proj2 (classification_of_candidates opts [print] plain [text]))).
    + reflexivity.
    + repeat constructor. intros (_ & _ & Hprivate). discriminate Hprivate.
Defined.

(** C7, as the code has it. The quantity of a built item is 1 when the line
    item has no quantity or the quantity 0; every other quantity, a negative
    one too, is passed through. *)
Theorem quantity_of_built_item opts before c after item :
  itemsOf opts (before ++ c :: after)
  = itemsOf opts before ++ [item] ++ itemsOf opts after →
  (li_quantity (li c) = None → quantity item = 1)
  ∧ (li_quantity (li c) = Some 0 → quantity item = 1)
  ∧ (∀ q, li_quantity (li c) = Some q → q ≠ 0 → quantity item = q).
Proof.
  intros Hyield%itemsOf_yield.
  assert (quantity item = quantityOr1 (li_quantity (li c))) as ->.
  { unfold pushItem in Hyield.
    destruct (Js.truthy _); [by injection Hyield as <-|].
    destruct (hasUserFacingProps _); [|done].
    destruct (0 <? _)%nat; [by injection Hyield as <-|done]. }
  unfold quantityOr1.
  split; [by intros ->|]. split; [by intros ->|].
  intros q -> Hq. by destruct (Z.eqb_spec q 0).
Qed.

Lemma quantity_of_built_item_witness :
  let opts := Samples.buildOpts [] in
  let c := Samples.candidateOf Samples.negativeLine in
  ∃ item,
    itemsOf opts ([] ++ c :: []) = itemsOf opts [] ++ [item] ++ itemsOf opts []
    ∧ li_quantity (li c) = Some (-3) ∧ quantity item = -3.
Proof.
  intros opts c.
  eexists. split; [reflexivity|]. split; [reflexivity|].
  refine (proj2 (proj2 (quantity_of_built_item opts [] c [] _ _)) (-3) _ _);
    [reflexivity | reflexivity | discriminate].
Defined.

(** C7, as the claim has it, fails: a line with the quantity 0 is built with
    the quantity 1. *)
Lemma quantity_zero_is_replaced :
  let c := Samples.candidateOf Samples.zeroLine in
  li_quantity (li c) = Some 0
  ∧ map quantity (itemsOf (Samples.buildOpts []) [c]) = [1].
Proof. split; reflexivity. Qed.

(** C10, as the code has it. A candidate without printJobId that has a
    property whose trimmed name is not empty and does not start with an
    underscore, and whose trimmed value is not empty, adds exactly one item,
    of type 5, with at least one attribute; and whenever a line passes
    [hasUserFacingProps], [passthroughAttributes] returns at least one
    attribute, so that the builder never drops a textual candidate after
    filtering. *)
Theorem textual_candidate_yields_item opts before c after :
  (∀ t, hasUserFacingProps (li c) = true →
        (0 < length (passthroughAttributes (li c) t))%nat)
  ∧ (Js.truthy (printJobId (bits c)) = false →
     Exists Spec.userFacing (default [] (li_properties (li c))) →
     ∃ item,
       itemsOf opts (before ++ c :: after)
       = itemsOf opts before ++ [item] ++ itemsOf opts after
       ∧ type item = 5 ∧ (0 < length (attributes item))%nat).
Proof.
  assert (∀ t, hasUserFacingProps (li c) = true →
               (0 < length (passthroughAttributes (li c) t))%nat) as Hattrs.
  { intros t Hfacing. pose proof (passthroughAttributes_nonempty _ t Hfacing).
    destruct (passthroughAttributes (li c) t); [done|simpl; lia]. }
  split; [done|].
  intros Hjob Hfacing%hasUserFacingLoop_Exists.
  rewrite itemsOf_split. unfold pushItem. rewrite Hjob.
  fold (hasUserFacingProps (li c)) in Hfacing. rewrite Hfacing.
  specialize (Hattrs (thumb (bits c)) Hfacing).
  destruct (Nat.ltb_spec 0 (length (passthroughAttributes (li c) (thumb (bits c)))));
    [|lia].
  eexists. split; [reflexivity|]. done.
Qed.

Lemma textual_candidate_yields_item_witness :
  let opts := Samples.buildOpts [] in
  let c := Samples.candidateOf Samples.textLine in
  ∃ item,
    itemsOf opts ([] ++ c :: []) = itemsOf opts [] ++ [item] ++ itemsOf opts []
    ∧ type item = 5 ∧ (0 < length (attributes item))%nat.
Proof.
  intros opts c.
  apply (proj2 (textual_candidate_yields_item opts [] c [])).
  - reflexivity.
  - apply Exists_cons_hd. by rewrite userFacing_bool.
Defined.

(** C10, as the claim has it, fails: the value of one space is not empty,
    the name is not empty and starts with no underscore, there is no
    printJobId, and the line adds no item. *)
Lemma blank_value_adds_no_item :
  let c := Samples.candidateOf Samples.blankLine in
  printJobId (bits c) = None
  ∧ Exists Spec.nonPrivateNonEmpty (default [] (li_properties (li c)))
  ∧ itemsOf (Samples.buildOpts []) [c] = [].
Proof.
  split; [reflexivity|]. split; [|reflexivity].
  apply Exists_cons_hd. by repeat split.
Qed.

End BuilderTheorems.

(** * The bits extractor *)

Section LinePropsTheorems.
Import LineProps.
Context `{Runtime}.

Lemma lowerToReal_lookup ks (m : gmap string string) x :
  fold_left (fun m k => Obj.set m (Js.toLowerCase k) k) ks m !! x
  = if bool_decide (x = "__proto__") then m !! x
    else match last (filter (fun k => Js.toLowerCase k = x) ks) with
         | Some k => Some k
         | None => m !! x
         end.
Proof.
  revert m. induction ks as [|k ks IH]; intros m; [by case_bool_decide|].
  cbn [fold_left]. rewrite IH, filter_cons. unfold Obj.set.
  destruct (decide (x = "__proto__")) as [->|Hx].
  - rewrite !(bool_decide_eq_true_2 ("__proto__" = "__proto__")) by done.
    destruct (decide (Js.toLowerCase k = "__proto__")) as [Hk|Hk].
    + by rewrite (bool_decide_eq_true_2 _ Hk).
    + rewrite (bool_decide_eq_false_2 _ Hk). by rewrite lookup_insert_ne.
  - rewrite !(bool_decide_eq_false_2 (x = "__proto__")) by done.
    destruct (decide (Js.toLowerCase k = x)) as [<-|Hne].
    + rewrite (bool_decide_eq_false_2 (Js.toLowerCase k = "__proto__")) by done.
      rewrite last_cons, lookup_insert_eq. by destruct (last (filter _ ks)).
    + destruct (bool_decide (Js.toLowerCase k = "__proto__")); [done|].
      by rewrite lookup_insert_ne.
Qed.

(** [lowerToReal] holds, for a lower-case name other than [__proto__], the
    last key of the object that has it; it never holds [__proto__]. *)
Lemma lowerToRealOf_lookup obj x :
  lowerToRealOf obj !! x
  = if bool_decide (x = "__proto__") then None
    else last (filter (fun k => Js.toLowerCase k = x) (keys obj)).
Proof.
  unfold lowerToRealOf. rewrite lowerToReal_lookup.
  case_bool_decide; [done|]. by destruct (last _).
Qed.

(** What the read of [lowerToReal] gives for a plain alias. *)
Lemma lowerToRealOf_plain obj alias :
  Spec.plainAlias alias →
  Obj.get (lowerToRealOf obj) (Js.toLowerCase alias)
  = Obj.ofOption
      (last (filter (fun k => Js.toLowerCase k = Js.toLowerCase alias) (keys obj))).
Proof.
  unfold Spec.plainAlias, Obj.get. intros Hplain. rewrite lowerToRealOf_lookup.
  case_bool_decide as Hproto; [by rewrite Hproto in Hplain|].
  rewrite Hplain. by destruct (last _).
Qed.

(** What the read of [lowerToReal] gives for the other aliases: the member
    that the object inherits, but for [constructor] when a key of the
    properties has that name up to case. *)
Lemma lowerToRealOf_inherited obj alias :
  Obj.inherited (Js.toLowerCase alias) = true →
  Obj.get (lowerToRealOf obj) (Js.toLowerCase alias)
  = if bool_decide (Js.toLowerCase alias = "__proto__")
    then Obj.Inherited "__proto__"
    else match last (filter (fun k => Js.toLowerCase k = Js.toLowerCase alias)
                       (keys obj)) with
         | Some k => Obj.Own k
         | None => Obj.Inherited (Js.toLowerCase alias)
         end.
Proof.
  unfold Obj.get. intros Hin. rewrite lowerToRealOf_lookup, Hin.
  case_bool_decide as Hproto; [by rewrite Hproto|]. by destruct (last _).
Qed.

Lemma matching_keys ks x :
  NoDup (map Js.toLowerCase ks) →
  last (filter (fun k => Js.toLowerCase k = x) ks)
  = head (filter (fun k => Js.toLowerCase k = x) ks).
Proof.
  induction ks as [|k ks IH]; [done|].
  cbn [map]. intros [Hk Hks]%NoDup_cons. rewrite filter_cons.
  destruct (decide (Js.toLowerCase k = x)) as [<-|]; [|by apply IH].
  destruct (filter (fun k' => Js.toLowerCase k' = Js.toLowerCase k) ks)
    as [|k' rest] eqn:Hrest; [done|].
  assert (k' ∈ filter (fun k' => Js.toLowerCase k' = Js.toLowerCase k) ks) as Hin
    by (rewrite Hrest; apply list_elem_of_here).
  apply list_elem_of_filter in Hin as [Heq Hin]. destruct Hk.
  rewrite <- Heq. apply list_elem_of_fmap. by exists k'.
Qed.

Lemma valueAt_aliasValue obj alias :
  Spec.caseDistinct obj → Spec.plainAlias alias →
  (if Js.truthy (valueAt obj (Obj.get (lowerToRealOf obj) (Js.toLowerCase alias)))
   then valueAt obj (Obj.get (lowerToRealOf obj) (Js.toLowerCase alias))
   else None)
  = Spec.aliasValue obj alias.
Proof.
  intros Hdistinct Hplain. rewrite lowerToRealOf_plain, matching_keys by done.
  unfold Spec.aliasValue, Spec.keyFor.
  destruct (head (filter _ (keys obj))) as [k|]; [|done]. cbn.
  destruct (Js.nonEmpty k); [|by destruct (get obj k)].
  destruct (get obj k) as [v|]; [|done]. cbn. by destruct (Js.nonEmpty v).
Qed.

Lemma firstCandidate_firstAlias obj aliases :
  Spec.caseDistinct obj → Forall Spec.plainAlias aliases →
  firstCandidate (lowerToRealOf obj) obj aliases = Spec.firstAlias obj aliases.
Proof.
  intros Hdistinct Hplain. unfold Spec.firstAlias.
  induction Hplain as [|a rest Ha _ IH]; [done|].
  cbn [firstCandidate omap list_omap]. rewrite IH.
  rewrite <- (valueAt_aliasValue obj a) by done.
  destruct (valueAt obj _) as [v|]; [|done]. cbn [Js.truthy].
  by destruct (Js.nonEmpty v).
Qed.

Lemma findFirstKey_firstAlias obj aliases :
  Spec.caseDistinct obj → Forall Spec.plainAlias aliases →
  findFirstKey obj aliases = Spec.firstAlias obj aliases.
Proof.
  intros Hdistinct Hplain. unfold findFirstKey. case_bool_decide as Hnil; [by subst|].
  by apply firstCandidate_firstAlias.
Qed.


(** C9. The printJobId and the thumb of the design bits are the same under
    any two alias configurations; they are the same even for two property
    objects, as soon as these agree on the six fixed metadata names. *)
Theorem metadata_bits_ignore_configuration props cfg1 cfg2 :
  (printJobId (getDesignBits (extractProps props) cfg1)
   = printJobId (getDesignBits (extractProps props) cfg2)
   ∧ thumb (getDesignBits (extractProps props) cfg1)
     = thumb (getDesignBits (extractProps props) cfg2))
  ∧ ∀ props',
      Forall (fun k => get (extractProps props) k = get (extractProps props') k)
        Spec.metadataNames →
      printJobId (getDesignBits (extractProps props) cfg1)
      = printJobId (getDesignBits (extractProps props') cfg2)
      ∧ thumb (getDesignBits (extractProps props) cfg1)
        = thumb (getDesignBits (extractProps props') cfg2).
Proof.
  split; [done|].
  intros props' Hagree. unfold Spec.metadataNames in Hagree.
  repeat (apply Forall_cons in Hagree as [? Hagree]).
  unfold getDesignBits. cbn [printJobId thumb]. split; congruence.
Qed.

End LinePropsTheorems.

Section LinePropsExamples.
Import LineProps.

Lemma metadata_bits_ignore_configuration_witness :
  let props := Some [{| name := "_printJobId"; value := "PJ1" |};
                     {| name := "Top"; value := "HELLO" |}] in
  let props' := Some [{| name := "Line 1"; value := "BYE" |};
                      {| name := "_printJobId"; value := "PJ1" |}] in
  let cfg1 := {| topKeys := Some (KeysArray ["Top"]); middleKeys := None;
                 bottomKeys := None; topKeysJson := None; middleKeysJson := None;
                 bottomKeysJson := None |} in
  let cfg2 := {| topKeys := None; middleKeys := None; bottomKeys := None;
                 topKeysJson := Some (KeysString (Samples.jsonList ["Line 1"]));
                 middleKeysJson := None; bottomKeysJson := None |} in
  top (@getDesignBits Reference.runtime (extractProps props) cfg1) = Some "HELLO"
  ∧ top (@getDesignBits Reference.runtime (extractProps props') cfg2) = Some "BYE"
  ∧ printJobId (@getDesignBits Reference.runtime (extractProps props) cfg1)
    = printJobId (@getDesignBits Reference.runtime (extractProps props') cfg2)
  ∧ thumb (@getDesignBits Reference.runtime (extractProps props) cfg1)
    = thumb (@getDesignBits Reference.runtime (extractProps props') cfg2).
Proof.
  intros props props' cfg1 cfg2.
  split; [reflexivity|]. split; [reflexivity|].
  apply (proj2 (@metadata_bits_ignore_configuration Reference.runtime props cfg1 cfg2) props').
  repeat constructor.
Defined.



(** Of two properties whose names are equal up to case, the alias stands
    for the last one. *)
Example case_variants_last_wins :
  let props := [{| name := "top"; value := "A" |};
                {| name := "TOP"; value := "B" |}] in
  findFirstKey (extractProps (Some props)) ["Top"] = Some "B".
Proof. vm_compute. reflexivity. Qed.

(** A property named [__proto__] is lost when the properties are
    collected, and the alias [__proto__] reads the prototype of
    [lowerToReal], which as a key is [[object Object]]; the alias
    [constructor] reads the inherited constructor when no property has that
    name. *)
Example inherited_names_as_aliases :
  let lost := [{| name := "__proto__"; value := "A" |}] in
  let other := [{| name := "[object Object]"; value := "B" |};
                {| name := "function Object() { [native code] }"; value := "C" |}] in
  keys (extractProps (Some lost)) = []
  ∧ findFirstKey (extractProps (Some lost)) ["__proto__"] = None
  ∧ findFirstKey (extractProps (Some other)) ["__PROTO__"] = Some "B"
  ∧ findFirstKey (extractProps (Some other)) ["Constructor"] = Some "C"
  ∧ findFirstKey
      (extractProps (Some (other ++ [{| name := "CONSTRUCTOR"; value := "D" |}])))
      ["Constructor"] = Some "D".
Proof. vm_compute. by repeat split. Qed.

End LinePropsExamples.

(** * The signature verifier *)

Section ShopifyTheorems.
Import Shopify.
Context `{Runtime}.

Lemma verify_missing_signature rawBody secret :
  verifyShopifyHmac rawBody None secret = Ok false
  ∧ verifyShopifyHmac rawBody (Some "") secret = Ok false.
Proof. done. Qed.

Lemma verify_other_length rawBody header secret :
  Js.nonEmpty header = true →
  length (bufferFrom header) ≠ length (bufferFrom (hmacSha256Base64 secret rawBody)) →
  verifyShopifyHmac rawBody (Some header) secret
  = Throw (RangeError "Input buffers must have the same byte length").
Proof.
  intros Hne Hlen. unfold verifyShopifyHmac, timingSafeEqual. rewrite Hne.
  cbn [negb]. by destruct (Nat.eqb_spec (length (bufferFrom (hmacSha256Base64 secret rawBody)))
                             (length (bufferFrom header))).
Qed.

Lemma verify_same_length rawBody header secret :
  Js.nonEmpty header = true →
  length (bufferFrom header) = length (bufferFrom (hmacSha256Base64 secret rawBody)) →
  verifyShopifyHmac rawBody (Some header) secret
  = Ok (bytesEqual (bufferFrom (hmacSha256Base64 secret rawBody)) (bufferFrom header)).
Proof.
  intros Hne Hlen. unfold verifyShopifyHmac, timingSafeEqual. rewrite Hne, Hlen.
  by rewrite Nat.eqb_refl.
Qed.

Lemma bytesEqual_refl bs : bytesEqual bs bs = true.
Proof.
  induction bs as [|b bs IH]; [done|]. cbn [bytesEqual].
  rewrite IH, andb_true_r. by apply Byte.byte_dec_lb.
Qed.

(** X2. The digest of the body under the secret, presented as the claimed
    signature, is verified. *)
Theorem verify_accepts_own_digest rawBody secret :
  Js.nonEmpty (hmacSha256Base64 secret rawBody) = true →
  verifyShopifyHmac rawBody (Some (hmacSha256Base64 secret rawBody)) secret = Ok true.
Proof.
  intros Hne. rewrite verify_same_length by done. by rewrite bytesEqual_refl.
Qed.

End ShopifyTheorems.

Section ShopifyExamples.
Import Shopify.

Import Samples.

Example reference_digest :
  Reference.hmacBase64 "key" signedBody = "97yD9DBThCSxMpjmqm+xQ+9NWaFJRhdZl0edvC0aPNg=".
Proof. vm_compute. reflexivity. Qed.

Lemma verify_accepts_own_digest_witness :
  @verifyShopifyHmac Reference.runtime signedBody
    (Some "97yD9DBThCSxMpjmqm+xQ+9NWaFJRhdZl0edvC0aPNg=") "key" = Ok true.
Proof.
  apply (@verify_accepts_own_digest Reference.runtime signedBody "key").
  vm_compute. reflexivity.
Defined.

Example verify_rejects_another_digest :
  @verifyShopifyHmac Reference.runtime signedBody
    (Some "97yD9DBThCSxMpjmqm+xQ+9NWaFJRhdZl0edvC0aPNA=") "key" = Ok false.
Proof. vm_compute. reflexivity. Qed.

(** C1, at the input where the code leaves it: a claimed signature of three
    characters, compared with a digest of forty-four, makes
    [timingSafeEqual] throw, and [verifyShopifyHmac] with it. *)
Theorem verify_throws_on_short_signature :
  @verifyShopifyHmac Reference.runtime signedBody (Some "abc") "key"
  = Throw (RangeError "Input buffers must have the same byte length").
Proof. vm_compute. reflexivity. Qed.

End ShopifyExamples.

(** * The retry executor *)

Section RetryTheorems.
Context {T : Type} (script : nat → res T) (rnd : nat → Q).
Context (n base cap : Z) (jit : bool).
Context (observer : option (exn → Z → M Probe.State unit)).
Hypothesis observer_passive : Probe.passive observer.

Let loop := @retryLoop _ (Probe.scheduler rnd) T (Probe.scripted script)
              n base cap jit observer.

Let delayAt := Probe.delayAt rnd base cap jit.

Lemma delayAt_next a d j :
  delayAt a d (S j) = delayAt (a + 1) (if jit then S d else d) j.
Proof.
  unfold delayAt, Probe.delayAt. replace (a + Z.of_nat (S j)) with (a + 1 + Z.of_nat j) by lia.
  destruct jit; [|done]. by replace (d + S j)%nat with (S d + j)%nat by lia.
Qed.

Lemma observer_runs err attempt w :
  ∃ evs,
    match observer with
    | Some observe => observe err attempt
    | None => ret tt
    end w = (Ok tt, {| env := env w; trace := trace w ++ evs |})
    ∧ timeoutsOf evs = [].
Proof.
  destruct observer as [observe|].
  - apply observer_passive.
  - exists []. destruct w. by rewrite app_nil_r.
Qed.

Lemma timeoutsOf_app evs1 evs2 :
  timeoutsOf (evs1 ++ evs2) = timeoutsOf evs1 ++ timeoutsOf evs2.
Proof. apply omap_app. Qed.

Lemma loop_run len : ∀ a lastErr w,
  a + Z.of_nat len = n →
  ∃ m w',
    loop (seqZ a (Z.of_nat (S len))) lastErr w
    = (script (Probe.calls (env w) + m)%nat, w')
    ∧ (m ≤ len)%nat
    ∧ Probe.calls (env w') = (Probe.calls (env w) + S m)%nat
    ∧ (∀ j, (j < m)%nat → ∃ e, script (Probe.calls (env w) + j)%nat = Throw e)
    ∧ ((∃ e, script (Probe.calls (env w) + m)%nat = Throw e) → m = len)
    ∧ timeoutsOf (trace w')
      = timeoutsOf (trace w) ++ map (delayAt a (Probe.draws (env w))) (seq 0 m).
Proof.
  induction len as [|len IH]; intros a lastErr w Hlast.
  - exists 0%nat.
    change (seqZ a (Z.of_nat 1)) with [a].
    unfold loop. cbn [retryLoop]. unfold tryCatch, Probe.scripted at 1.
    rewrite Nat.add_0_r.
    destruct (script (Probe.calls (env w))) as [v|e] eqn:Hcall.
    + eexists. split; [reflexivity|]. cbn.
      split_and!; [lia | lia | intros; lia | done | by rewrite app_nil_r].
    + unfold bind at 1.
      edestruct (observer_runs e a) as (evs & -> & Hevs).
      replace (a =? n) with true by (symmetry; apply Z.eqb_eq; lia).
      eexists. split; [reflexivity|]. cbn.
      split_and!; [lia | lia | intros; lia | done |].
      by rewrite timeoutsOf_app, Hevs, app_nil_r.
  - rewrite seqZ_cons by lia.
    replace (Z.pred (Z.of_nat (S (S len)))) with (Z.of_nat (S len)) by lia.
    unfold loop. cbn [retryLoop]. fold loop. unfold tryCatch, Probe.scripted at 1.
    destruct (script (Probe.calls (env w))) as [v|e] eqn:Hcall.
    + exists 0%nat. rewrite Nat.add_0_r, Hcall.
      eexists. split; [reflexivity|]. cbn.
      split_and!; [lia | lia | intros; lia | by intros [? ?] | by rewrite app_nil_r].
    + unfold bind at 1.
      edestruct (observer_runs e a) as (evs & -> & Hevs).
      replace (a =? n) with false by (symmetry; apply Z.eqb_neq; lia).
      cbn [env trace].
      set (w4 := {| env := {| Probe.calls := S (Probe.calls (env w));
                              Probe.draws := if jit then S (Probe.draws (env w))
                                             else Probe.draws (env w) |};
                    trace := (trace w ++ evs) ++ [SetTimeout (delayAt a (Probe.draws (env w)) 0)] |}).
      destruct (IH (Z.succ a) e w4) as (m & w' & Hrun & Hm & Hcalls & Hfail & Hend & Htime);
        [lia|].
      exists (S m), w'.
      replace (Probe.calls (env w) + S m)%nat with (Probe.calls (env w4) + m)%nat
        by (cbn; lia).
      split.
      { rewrite <- Hrun. unfold w4, delayAt, Probe.delayAt, bind, random, sleep, call, ret.
        rewrite Z.add_0_r, Nat.add_0_r. by destruct jit. }
      split_and!.
      * lia.
      * rewrite Hcalls. cbn. lia.
      * intros [|j] Hj; [rewrite Nat.add_0_r; eauto|].
        replace (Probe.calls (env w) + S j)%nat with (Probe.calls (env w4) + j)%nat
          by (cbn; lia).
        apply Hfail. lia.
      * intros Hthrow. f_equal. by apply Hend.
      * rewrite Htime. unfold w4 at 1. cbn [trace env Probe.draws].
        rewrite !timeoutsOf_app, Hevs, app_nil_r. cbn [timeoutsOf omap list_omap app].
        rewrite <- app_assoc. f_equal. cbn [seq map app]. f_equal.
        rewrite <- seq_shift, map_map. apply map_ext. intros j.
        by rewrite delayAt_next.
Qed.


End RetryTheorems.


Section RetryExamples.

Import Samples.

(** With no attempt configured the loop body never runs: the operation is not
    called, and [lastErr], still [undefined], is thrown. *)
Example retry_without_attempts :
  let none := {| attempts := Some 0; baseMs := None; maxMs := None;
                 jitter := None; onRetry := None |} in
  let '(r, w) :=
    @withRetry _ (Probe.scheduler half) _ (Probe.scripted failsTwice)
      (Some none) Probe.start in
  r = Throw Undefined ∧ Probe.calls (env w) = 0%nat ∧ trace w = [].
Proof. vm_compute. done. Qed.

Example retry_fails_twice_then_succeeds :
  let '(r, w) :=
    @withRetry _ (Probe.scheduler half) _ (Probe.scripted failsTwice)
      (Some threeAttempts) Probe.start in
  r = Ok "created" ∧ Probe.calls (env w) = 3%nat
  ∧ timeoutsOf (trace w) = [100; 150].
Proof. vm_compute. done. Qed.

Example retry_always_fails :
  let '(r, w) :=
    @withRetry _ (Probe.scheduler half) _ (Probe.scripted alwaysFails)
      (Some threeAttempts) Probe.start in
  r = Throw (Error "KX 503 #2") ∧ Probe.calls (env w) = 3%nat
  ∧ timeoutsOf (trace w) = [100; 150].
Proof. vm_compute. done. Qed.

Example retry_defaults_with_jitter :
  let '(r, w) :=
    @withRetry _ (Probe.scheduler half) _ (Probe.scripted alwaysFails)
      None Probe.start in
  r = Throw (Error "KX 503 #4") ∧ Probe.calls (env w) = 5%nat
  ∧ timeoutsOf (trace w) = [750; 1500; 3000; 6000].
Proof. vm_compute. done. Qed.



End RetryExamples.

(** * The worker *)

(** ** Which events a computation adds *)

Section Frames.
Context {Env : Type}.

Lemma adds_ret P {A} (a : A) : adds P (@ret Env A a).
Proof. intros w r w' [= <- <-]. exists []. by rewrite app_nil_r. Qed.

Lemma adds_throw P {A} e : adds P (@throw Env A e).
Proof. intros w r w' [= <- <-]. exists []. by rewrite app_nil_r. Qed.

Lemma adds_call P {A} ev (f : Env → res A * Env) : P ev = true → adds P (call ev f).
Proof.
  intros Hev w r w'. unfold call. destruct (f (env w)) as [r0 e'].
  intros [= <- <-]. exists [ev]. cbn. by rewrite Hev.
Qed.

Lemma adds_bind P {A B} (m : M Env A) (k : A → M Env B) :
  adds P m → (∀ a, adds P (k a)) → adds P (bind m k).
Proof.
  intros Hm Hk w r w'. unfold bind.
  destruct (m w) as [[a|e] w1] eqn:Hrun; destruct (Hm _ _ _ Hrun) as (evs1 & Ht1 & Hp1).
  - intros (evs2 & Ht2 & Hp2)%Hk. exists (evs1 ++ evs2).
    by rewrite Ht2, Ht1, app_assoc, forallb_app, Hp1, Hp2.
  - intros [= <- <-]. eauto.
Qed.

Lemma adds_tryCatch P {A} (m : M Env A) (h : exn → M Env A) :
  adds P m → (∀ e, adds P (h e)) → adds P (tryCatch m h).
Proof.
  intros Hm Hh w r w'. unfold tryCatch.
  destruct (m w) as [[a|e] w1] eqn:Hrun; destruct (Hm _ _ _ Hrun) as (evs1 & Ht1 & Hp1).
  - intros [= <- <-]. eauto.
  - intros (evs2 & Ht2 & Hp2)%Hh. exists (evs1 ++ evs2).
    by rewrite Ht2, Ht1, app_assoc, forallb_app, Hp1, Hp2.
Qed.

Lemma adds_weaken (P Q : event → bool) {A} (m : M Env A) :
  (∀ ev, P ev = true → Q ev = true) → adds P m → adds Q m.
Proof.
  intros HPQ Hm w r w' (evs & Ht & Hp)%Hm. exists evs. split; [done|].
  rewrite forallb_forall in *. auto.
Qed.

Lemma putsOf_app evs1 evs2 : putsOf (evs1 ++ evs2) = putsOf evs1 ++ putsOf evs2.
Proof. apply omap_app. Qed.

Lemma fetchesOf_app evs1 evs2 : fetchesOf (evs1 ++ evs2) = fetchesOf evs1 ++ fetchesOf evs2.
Proof. apply omap_app. Qed.

Lemma putsOf_notPut evs : forallb notPut evs = true → putsOf evs = [].
Proof.
  induction evs as [|[] evs IH]; cbn; try done; intros; by apply IH.
Qed.

Lemma fetchesOf_notFetch evs : forallb notFetch evs = true → fetchesOf evs = [].
Proof.
  induction evs as [|[] evs IH]; cbn; try done; intros; by apply IH.
Qed.

Lemma adds_no_put {A} (m : M Env A) w r w' :
  adds notPut m → m w = (r, w') → putsOf (trace w') = putsOf (trace w).
Proof.
  intros Hm (evs & -> & Hp)%Hm.
  by rewrite putsOf_app, (putsOf_notPut _ Hp), app_nil_r.
Qed.

Lemma adds_no_fetch {A} (m : M Env A) w r w' :
  adds notFetch m → m w = (r, w') → fetchesOf (trace w') = fetchesOf (trace w).
Proof.
  intros Hm (evs & -> & Hp)%Hm.
  by rewrite fetchesOf_app, (fetchesOf_notFetch _ Hp), app_nil_r.
Qed.

Lemma silent_notPut ev : silent ev = true → notPut ev = true.
Proof. by intros [? ?]%andb_prop. Qed.

Lemma silent_notFetch ev : silent ev = true → notFetch ev = true.
Proof. by intros [? ?]%andb_prop. Qed.

End Frames.

Section WorkerFrames.
Context {Env : Type} `{Scheduler Env} `{Collaborators Env}.

Lemma isProcessed_silent s i : adds silent (isProcessed s i).
Proof.
  apply adds_bind; [by apply adds_call|]. intros. apply adds_ret.
Qed.

Lemma getClientBySlug_silent s : adds silent (getClientBySlug s).
Proof. by apply adds_call. Qed.

Lemma getClientSecrets_silent s : adds silent (getClientSecrets s).
Proof. by apply adds_call. Qed.

Lemma getProductIdsForSkus_silent s skus : adds silent (getProductIdsForSkus s skus).
Proof.
  unfold getProductIdsForSkus. destruct (_ =? _)%nat; [apply adds_ret|].
  apply adds_bind; [by apply adds_call|]. intros. apply adds_ret.
Qed.

Lemma console_silent level message : adds silent (@console Env level message).
Proof. by apply adds_call. Qed.

Lemma sleep_silent delay : adds silent (sleep delay).
Proof. by apply adds_call. Qed.

Lemma random_silent : adds silent random.
Proof.
  intros w r w'. unfold random. destruct (mathRandom (env w)).
  intros [= <- <-]. exists []. by rewrite app_nil_r.
Qed.

Lemma postKornitXOrder_notPut baseUrl companyRefId apiKey payload :
  adds notPut (postKornitXOrder baseUrl companyRefId apiKey payload).
Proof.
  apply adds_bind; [by apply adds_call|]. intros res.
  destruct (negb (ok res)); [apply adds_throw|].
  destruct (resp_json res); [apply adds_ret|apply adds_throw].
Qed.

Lemma retryLoop_notPut {T} (fn : M Env T) n base cap jit observer todo lastErr :
  adds notPut fn →
  (∀ observe, observer = Some observe → ∀ err k, adds notPut (observe err k)) →
  adds notPut (retryLoop fn n base cap jit observer todo lastErr).
Proof.
  intros Hfn Hobs. revert lastErr.
  induction todo as [|attempt rest IH]; intros lastErr; cbn [retryLoop].
  - apply adds_throw.
  - apply adds_tryCatch; [done|]. intros err.
    apply adds_bind.
    { destruct observer as [observe|]; [by apply Hobs|apply adds_ret]. }
    intros _. destruct (attempt =? n); [apply adds_throw|].
    apply adds_bind.
    { destruct jit; [|apply adds_ret].
      apply adds_bind; [|intros; apply adds_ret].
      apply (adds_weaken silent); [apply silent_notPut|apply random_silent]. }
    intros delay. apply adds_bind; [|done].
    apply (adds_weaken silent); [apply silent_notPut|apply sleep_silent].
Qed.

Lemma submit_notPut secrets payload : adds notPut (Worker.submit secrets payload).
Proof.
  unfold Worker.submit, withRetry. apply retryLoop_notPut.
  - intros w r w'. apply postKornitXOrder_notPut.
  - intros observe [= <-] err k.
    apply (adds_weaken silent); [apply silent_notPut|apply console_silent].
Qed.

End WorkerFrames.

(** ** How many events a computation adds *)

Section Bounds.
Context {Env : Type}.

Lemma countOf_app P evs1 evs2 :
  countOf P (evs1 ++ evs2) = (countOf P evs1 + countOf P evs2)%nat.
Proof. unfold countOf. by rewrite filter_app, length_app. Qed.

Lemma atMost_le P (n n' : nat) {A} (m : M Env A) :
  (n ≤ n')%nat → addsAtMost P n m → addsAtMost P n' m.
Proof.
  intros Hle Hm w r w' (evs & Ht & Hn)%Hm. exists evs. split; [done|lia].
Qed.

Lemma atMost_ret P n {A} (a : A) : addsAtMost P n (@ret Env A a).
Proof.
  intros w r w' [= <- <-]. exists []. rewrite app_nil_r. split; [done|cbn; lia].
Qed.

Lemma atMost_throw P n {A} e : addsAtMost P n (@throw Env A e).
Proof.
  intros w r w' [= <- <-]. exists []. rewrite app_nil_r. split; [done|cbn; lia].
Qed.

Lemma atMost_call_other P n {A} ev (f : Env → res A * Env) :
  P ev = false → addsAtMost P n (call ev f).
Proof.
  intros Hev w r w'. unfold call. destruct (f (env w)) as [r0 e'].
  intros [= <- <-]. exists [ev]. split; [done|].
  unfold countOf. rewrite filter_cons.
  destruct (decide _) as [Ht|]; [by rewrite Hev in Ht|cbn; lia].
Qed.

Lemma atMost_call_one P n {A} ev (f : Env → res A * Env) :
  addsAtMost P (S n) (call ev f).
Proof.
  intros w r w'. unfold call. destruct (f (env w)) as [r0 e'].
  intros [= <- <-]. exists [ev]. split; [done|].
  unfold countOf. rewrite filter_cons. destruct (decide _); cbn; lia.
Qed.

Lemma atMost_bind P (n1 n2 : nat) {A B} (m : M Env A) (k : A → M Env B) :
  addsAtMost P n1 m → (∀ a, addsAtMost P n2 (k a)) →
  addsAtMost P (n1 + n2) (bind m k).
Proof.
  intros Hm Hk w r w'. unfold bind.
  destruct (m w) as [[a|e] w1] eqn:Hrun; destruct (Hm _ _ _ Hrun) as (evs1 & Ht1 & Hn1).
  - intros (evs2 & Ht2 & Hn2)%Hk. exists (evs1 ++ evs2).
    rewrite Ht2, Ht1, app_assoc, countOf_app. split; [done|lia].
  - intros [= <- <-]. exists evs1. split; [done|lia].
Qed.

Lemma atMost_tryCatch P (n1 n2 : nat) {A} (m : M Env A) (h : exn → M Env A) :
  addsAtMost P n1 m → (∀ e, addsAtMost P n2 (h e)) →
  addsAtMost P (n1 + n2) (tryCatch m h).
Proof.
  intros Hm Hh w r w'. unfold tryCatch.
  destruct (m w) as [[a|e] w1] eqn:Hrun; destruct (Hm _ _ _ Hrun) as (evs1 & Ht1 & Hn1).
  - intros [= <- <-]. exists evs1. split; [done|lia].
  - intros (evs2 & Ht2 & Hn2)%Hh. exists (evs1 ++ evs2).
    rewrite Ht2, Ht1, app_assoc, countOf_app. split; [done|lia].
Qed.

End Bounds.

Section WorkerBounds.
Import Worker.
Context {Env : Type} `{Scheduler Env} `{Collaborators Env}.

Lemma console_adds_none P level message :
  P (Console level message) = false → addsAtMost P 0 (@console Env level message).
Proof. intros. by apply atMost_call_other. Qed.

Lemma postKornitXOrder_posts_once baseUrl companyRefId apiKey payload :
  addsAtMost isFetch 1 (postKornitXOrder baseUrl companyRefId apiKey payload).
Proof.
  apply (atMost_bind _ 1 0); [apply atMost_call_one|]. intros res.
  destruct (negb (ok res)); [apply atMost_throw|].
  destruct (resp_json res); [apply atMost_ret|apply atMost_throw].
Qed.

Lemma retryLoop_posts {T} (fn : M Env T) n base cap jit observer todo lastErr :
  addsAtMost isFetch 1 fn →
  (∀ observe, observer = Some observe → ∀ err k, addsAtMost isFetch 0 (observe err k)) →
  addsAtMost isFetch (length todo) (retryLoop fn n base cap jit observer todo lastErr).
Proof.
  intros Hfn Hobs. revert lastErr.
  induction todo as [|attempt rest IH]; intros lastErr; cbn [retryLoop length].
  - apply atMost_throw.
  - apply (atMost_le _ (1 + length rest)); [lia|].
    apply atMost_tryCatch; [done|]. intros err.
    apply (atMost_bind _ 0 (length rest)).
    { destruct observer as [observe|]; [by apply Hobs|apply atMost_ret]. }
    intros _. destruct (attempt =? n); [apply atMost_throw|].
    apply (atMost_bind _ 0 (length rest)).
    { destruct jit; [|apply atMost_ret].
      apply (atMost_bind _ 0 0); [|intros; apply atMost_ret].
      intros w r w'. unfold random. destruct (mathRandom (env w)).
      intros [= <- <-]. exists []. by rewrite app_nil_r. }
    intros delay. apply (atMost_bind _ 0 (length rest)); [|done].
    by apply atMost_call_other.
Qed.

Lemma submit_posts secrets payload : addsAtMost isFetch 5 (submit secrets payload).
Proof.
  unfold submit, withRetry. apply (retryLoop_posts _ _ _ _ _ _ (seqZ 1 5)).
  - intros w r w'. apply postKornitXOrder_posts_once.
  - intros observe [= <-] err k. by apply console_adds_none.
Qed.

Lemma submit_puts_nothing secrets payload : addsAtMost isPut 0 (submit secrets payload).
Proof.
  intros w r w' Hrun.
  destruct (submit_notPut secrets payload _ _ _ Hrun) as (evs & Ht & Hp).
  exists evs. split; [done|]. clear Ht Hrun. unfold countOf.
  induction evs as [|ev evs IH]; [done|]. cbn in Hp.
  apply andb_prop in Hp as [Hev Hp]. rewrite filter_cons.
  destruct (decide _) as [Hput|]; [|by apply IH].
  unfold isPut in Hput. by rewrite Hev in Hput.
Qed.

Lemma isProcessed_adds_none P s i :
  (∀ k, P (GetProcessed k) = false) → addsAtMost P 0 (isProcessed s i).
Proof.
  intros HP. apply (atMost_bind _ 0 0); [by apply atMost_call_other|].
  intros. apply atMost_ret.
Qed.

Lemma getProductIdsForSkus_adds_none P s skus :
  (∀ k, P (BatchGetSkuMap k) = false) → addsAtMost P 0 (getProductIdsForSkus s skus).
Proof.
  intros HP. unfold getProductIdsForSkus.
  destruct (_ =? _)%nat; [apply atMost_ret|].
  apply (atMost_bind _ 0 0); [by apply atMost_call_other|]. intros. apply atMost_ret.
Qed.

Lemma markProcessed_puts_once s i x : addsAtMost isPut 1 (markProcessed s i x).
Proof. intros w r w'. unfold markProcessed. apply atMost_call_one. Qed.

Lemma markProcessed_posts_nothing s i x : addsAtMost isFetch 0 (markProcessed s i x).
Proof. intros w r w'. unfold markProcessed. by apply atMost_call_other. Qed.

(** X4. One run of the worker for a record posts to the partner API at most
    five times, whatever the collaborators answer. *)
Theorem record_posts_at_most_five_times msg :
  addsAtMost isFetch 5 (processRecord msg).
Proof.
  unfold processRecord.
  apply (atMost_tryCatch _ 5 0); [|intros; apply (atMost_bind _ 0 0);
    [by apply console_adds_none|intros; apply atMost_throw]].
  apply (atMost_bind _ 0 5); [by apply isProcessed_adds_none|]. intros [|].
  { apply (atMost_le _ 0); [lia|]. by apply console_adds_none. }
  apply (atMost_bind _ 0 5); [by apply atMost_call_other|]. intros [client|].
  2: { apply (atMost_bind _ 0 5); [by apply console_adds_none|].
       intros. apply atMost_throw. }
  apply (atMost_bind _ 0 5); [by apply atMost_call_other|]. intros secrets.
  apply (atMost_bind _ 0 5); [by apply getProductIdsForSkus_adds_none|]. intros m.
  cbv zeta. destruct (_ =? _)%nat.
  { apply (atMost_bind _ 0 5); [by apply console_adds_none|]. intros.
    apply (atMost_le _ 0); [lia|]. apply markProcessed_posts_nothing. }
  destruct (_ <? _)%nat.
  { apply (atMost_bind _ 0 5); [by apply console_adds_none|].
    intros. apply atMost_throw. }
  destruct (_ =? _)%nat.
  { apply (atMost_bind _ 0 5); [by apply console_adds_none|]. intros.
    apply (atMost_le _ 0); [lia|]. apply markProcessed_posts_nothing. }
  apply (atMost_bind _ 5 0); [apply submit_posts|]. intros.
  apply (atMost_bind _ 0 0); [apply markProcessed_posts_nothing|].
  intros. by apply console_adds_none.
Qed.

(** X5. One run of the worker for a record puts at most one item into the
    processed-orders table, whatever the collaborators answer. *)
Theorem record_is_marked_at_most_once msg :
  addsAtMost isPut 1 (processRecord msg).
Proof.
  unfold processRecord.
  apply (atMost_tryCatch _ 1 0); [|intros; apply (atMost_bind _ 0 0);
    [by apply console_adds_none|intros; apply atMost_throw]].
  apply (atMost_bind _ 0 1); [by apply isProcessed_adds_none|]. intros [|].
  { apply (atMost_le _ 0); [lia|]. by apply console_adds_none. }
  apply (atMost_bind _ 0 1); [by apply atMost_call_other|]. intros [client|].
  2: { apply (atMost_bind _ 0 1); [by apply console_adds_none|].
       intros. apply atMost_throw. }
  apply (atMost_bind _ 0 1); [by apply atMost_call_other|]. intros secrets.
  apply (atMost_bind _ 0 1); [by apply getProductIdsForSkus_adds_none|]. intros m.
  cbv zeta. destruct (_ =? _)%nat.
  { apply (atMost_bind _ 0 1); [by apply console_adds_none|]. intros.
    apply markProcessed_puts_once. }
  destruct (_ <? _)%nat.
  { apply (atMost_bind _ 0 1); [by apply console_adds_none|].
    intros. apply atMost_throw. }
  destruct (_ =? _)%nat.
  { apply (atMost_bind _ 0 1); [by apply console_adds_none|]. intros.
    apply markProcessed_puts_once. }
  apply (atMost_bind _ 0 1); [apply submit_puts_nothing|]. intros.
  apply (atMost_bind _ 1 0); [apply markProcessed_puts_once|].
  intros. by apply console_adds_none.
Qed.

End WorkerBounds.

Section WorkerTheorems.
Import LineProps Worker.
Context {Env : Type} `{Scheduler Env} `{Collaborators Env}.

(** C4. A record whose order the processed-orders table already holds is
    acknowledged at once: the run returns, it has made one call, the read of
    the table, and written one log line; it has posted nothing and put
    nothing. *)
Theorem processed_order_is_skipped (msg : Message) (w : World Env) item e' :
  ddbGetProcessed
    (shopDomain msg +:+ "#" +:+ Js.ofNumber (order_id (order msg))) (env w)
  = (Ok (Some item), e') →
  let '(r, w') := processRecord msg w in
  r = Ok tt
  ∧ env w' = e'
  ∧ trace w'
    = trace w
      ++ [GetProcessed (shopDomain msg +:+ "#" +:+ Js.ofNumber (order_id (order msg)));
          Console "log" "Order already processed; skipping"]
  ∧ fetchesOf (trace w') = fetchesOf (trace w)
  ∧ putsOf (trace w') = putsOf (trace w).
Proof.
  intros Hread.
  unfold processRecord, tryCatch, bind, isProcessed, shopOrderKeyOf, idText,
    call at 1, bind, ret.
  rewrite Hread. cbn.
  rewrite <- app_assoc, fetchesOf_app, putsOf_app. cbn. by rewrite !app_nil_r.
Qed.

Lemma worker_hasUserFacingProps l :
  Worker.hasUserFacingProps l = Kornitx.hasUserFacingProps l.
Proof.
  unfold Worker.hasUserFacingProps, Kornitx.hasUserFacingProps.
  induction (default [] (li_properties l)) as [|p rest IH]; [done|].
  cbn [Worker.hasUserFacingLoop Kornitx.hasUserFacingLoop]. by rewrite IH.
Qed.

Lemma pushItem_not_personalised s d acc c :
  isPersonalised c = false → Kornitx.pushItem s d acc c = acc.
Proof.
  unfold isPersonalised, Kornitx.pushItem. rewrite worker_hasUserFacingProps.
  destruct (Js.truthy _); [done|]. by intros ->.
Qed.

(** A payload with an item has a personalised candidate behind it. *)
Lemma items_need_personalised msg secrets m :
  Kornitx.items (payloadOf msg secrets m) ≠ [] → personalisedOf (candidates msg) ≠ [].
Proof.
  unfold payloadOf, Kornitx.buildKxOrderPayload, personalisedOf. cbn.
  generalize (candidates msg). intros cs Hitems Hnone. apply Hitems. clear Hitems.
  induction cs as [|c cs IH]; [done|].
  rewrite filter_cons in Hnone. destruct (decide _) as [|Hc]; [done|].
  cbn [fold_left]. rewrite pushItem_not_personalised; [by apply IH|].
  by destruct (isPersonalised c).
Qed.

Lemma pushItem_personalised s d c :
  isPersonalised c = true → Kornitx.pushItem s d [] c ≠ [].
Proof.
  unfold isPersonalised, Kornitx.pushItem. rewrite worker_hasUserFacingProps.
  destruct (Js.truthy _); [done|]. intros Hfacing. rewrite Hfacing.
  pose proof (passthroughAttributes_nonempty _ (thumb (bits c)) Hfacing).
  by destruct (Kornitx.passthroughAttributes _ _).
Qed.

(** X3. The worker and the builder classify alike: the built payload has no
    item exactly when no candidate is personalised. Past the worker's check
    of the personalised candidates the payload is therefore never empty. *)
Theorem payload_empty_iff_nothing_personalised msg secrets m :
  Kornitx.items (payloadOf msg secrets m) = [] ↔ personalisedOf (candidates msg) = [].
Proof.
  split.
  - intros Hitems.
    destruct (personalisedOf (candidates msg)) as [|c cs] eqn:Hpers; [done|].
    assert (c ∈ personalisedOf (candidates msg)) as Hc
      by (rewrite Hpers; apply list_elem_of_here).
    apply list_elem_of_filter in Hc as [Hc Hin].
    apply list_elem_of_split in Hin as (before & after & Hsplit).
    unfold payloadOf, Kornitx.buildKxOrderPayload in Hitems. cbn in Hitems.
    rewrite Hsplit, fold_left_app in Hitems. cbn [fold_left] in Hitems.
    rewrite fold_pushItem, pushItem_app in Hitems.
    apply app_eq_nil in Hitems as [[_ Hnone]%app_eq_nil _].
    destruct (pushItem_personalised (Some m) None c); [by destruct (isPersonalised c)|done].
  - intros Hpers.
    destruct (Kornitx.items (payloadOf msg secrets m)) as [|i items] eqn:Hitems; [done|].
    destruct (items_need_personalised msg secrets m); [by rewrite Hitems|done].
Qed.

Section Resolved.
Variables (msg : Message) (w w1 w2 w3 w4 : World Env).
Variables (client : Client) (secrets : ClientSecrets) (skuToProductId : gmap string Z).

(** The run up to the resolved map: the order is not yet processed, the
    client and its secret are found, the SKUs are looked up. *)
Hypothesis not_processed :
  isProcessed (shopDomain msg) (order_id (order msg)) w = (Ok false, w1).
Hypothesis client_found : getClientBySlug (slug msg) w1 = (Ok (Some client), w2).
Hypothesis secrets_read : getClientSecrets (secretName msg) w2 = (Ok secrets, w3).
Hypothesis map_resolved :
  getProductIdsForSkus (slug msg) (skusOf (candidates msg)) w3
  = (Ok skuToProductId, w4).

Lemma resolved_silently :
  fetchesOf (trace w4) = fetchesOf (trace w) ∧ putsOf (trace w4) = putsOf (trace w).
Proof.
  pose proof (isProcessed_silent _ _ _ _ _ not_processed) as (e1 & T1 & S1).
  pose proof (getClientBySlug_silent _ _ _ _ client_found) as (e2 & T2 & S2).
  pose proof (getClientSecrets_silent _ _ _ _ secrets_read) as (e3 & T3 & S3).
  pose proof (getProductIdsForSkus_silent _ _ _ _ _ map_resolved) as (e4 & T4 & S4).
  rewrite T4, T3, T2, T1.
  assert (forallb silent (e1 ++ e2 ++ e3 ++ e4) = true) as Hall
    by by rewrite !forallb_app, S1, S2, S3, S4.
  rewrite <- !app_assoc, fetchesOf_app, putsOf_app.
  rewrite (fetchesOf_notFetch (e1 ++ e2 ++ e3 ++ e4)),
    (putsOf_notPut (e1 ++ e2 ++ e3 ++ e4)), !app_nil_r; [done|..].
  all: rewrite forallb_forall in *; intros ev Hev%Hall.
  - by apply silent_notPut.
  - by apply silent_notFetch.
Qed.

(** The run from the resolved map on. *)
Lemma processRecord_resolved :
  processRecord msg w
  = tryCatch (fun w0 =>
      (let personalised := personalisedOf (candidates msg) in
       if (length personalised =? 0)%nat then
         console "log" "No personalised items; marking processed, skipping KX create" ;;
         markProcessed (shopDomain msg) (order_id (order msg)) (externalIdOf (order msg))
       else
         let missing := missingOf skuToProductId personalised in
         if (0 <? length missing)%nat then
           console "error" "Missing product_id mapping for personalised SKUs" ;;
           throw (Error ("Missing product_id mapping: " +:+ Js.join ", " missing))
         else
           let kxPayload := payloadOf msg secrets skuToProductId in
           if (length (Kornitx.items kxPayload) =? 0)%nat then
             console "log"
               "After filtering, no personalised items; marking processed, skipping KX create" ;;
             markProcessed (shopDomain msg) (order_id (order msg)) (externalIdOf (order msg))
           else
             kxResp <- submit secrets kxPayload ;;
             markProcessed (shopDomain msg) (order_id (order msg)) (externalIdOf (order msg)) ;;
             console "log" "KX order created") w4)
      (fun err => console "error" "Worker fatal error; will retry" ;; throw err) w.
Proof.
  unfold processRecord, tryCatch.
  unfold bind at 1. rewrite not_processed.
  unfold bind at 1. rewrite client_found.
  unfold bind at 1. rewrite secrets_read.
  unfold bind at 1. rewrite map_resolved. done.
Qed.


(** C3. When the run reaches the submission and the retried post ends with
    an error, the run throws that error; from its start to its end it has
    put nothing into the processed-orders table, and the collaborators are
    left as the failed submission left them. *)
Theorem failed_submission_leaves_order_unmarked (err : exn) (w5 : World Env) :
  missingOf skuToProductId (personalisedOf (candidates msg)) = [] →
  Kornitx.items (payloadOf msg secrets skuToProductId) ≠ [] →
  submit secrets (payloadOf msg secrets skuToProductId) w4 = (Throw err, w5) →
  let '(r, w') := processRecord msg w in
  r = Throw err
  ∧ putsOf (trace w') = putsOf (trace w)
  ∧ env w' = env w5
  ∧ trace w' = trace w5 ++ [Console "error" "Worker fatal error; will retry"].
Proof.
  intros Hmissing Hitems Hsubmit.
  pose proof (items_need_personalised _ _ _ Hitems) as Hpers.
  rewrite processRecord_resolved. unfold tryCatch. cbv zeta. rewrite Hmissing.
  destruct (personalisedOf (candidates msg)) as [|c0 cs0]; [done|].
  destruct (Kornitx.items _) as [|i0 is0]; [done|].
  cbn [length Nat.eqb Nat.ltb Nat.leb]. unfold bind at 1. rewrite Hsubmit. cbn.
  split_and!; try done.
  rewrite putsOf_app. cbn. rewrite app_nil_r.
  rewrite (adds_no_put _ _ _ _ (submit_notPut _ _) Hsubmit).
  apply resolved_silently.
Qed.

End Resolved.
End WorkerTheorems.

Section WorkerExamples.
Import LineProps Worker Samples.

Lemma processed_order_is_skipped_witness :
  let msg := message [printLine] in
  let '(r, w') := processRecord msg processedWorld in
  r = Ok tt
  ∧ env w' = env processedWorld
  ∧ trace w'
    = trace processedWorld
      ++ [GetProcessed "acme.myshopify.com#999000111";
          Console "log" "Order already processed; skipping"]
  ∧ fetchesOf (trace w') = fetchesOf (trace processedWorld)
  ∧ putsOf (trace w') = putsOf (trace processedWorld).
Proof.
  intros msg.
  apply (processed_order_is_skipped msg processedWorld
           {| shopOrderKey := "acme.myshopify.com#999000111";
              kxExternalId := "#1001";
              processedAt := "2024-05-01T09:00:00.000Z" |}
           (env processedWorld)).
  vm_compute. reflexivity.
Defined.


Lemma failed_submission_leaves_order_unmarked_witness :
  let msg := message [printLine] in
  let w := world (replicate 5 (Ok unavailable)) in
  let '(r, w') := processRecord msg w in
  r = Throw (Error "KX 503 Service Unavailable - down")
  ∧ putsOf (trace w') = []
  ∧ length (fetchesOf (trace w')) = 5%nat
  ∧ InMemory.processed (env w') = InMemory.processed (env w).
Proof.
  intros msg w.
  pose proof (@failed_submission_leaves_order_unmarked InMemory.Store
                InMemory.scheduler InMemory.collaborators msg w
                (afterCheck msg w) (afterClient msg w) (afterSecrets msg w)
                (afterMap msg w) client clientSecrets {[ "abc-1" := 42 ]}
                ltac:(vm_compute; reflexivity) ltac:(vm_compute; reflexivity)
                ltac:(vm_compute; reflexivity) ltac:(vm_compute; reflexivity)
                (Error "KX 503 Service Unavailable - down")
                (submit clientSecrets (payloadOf msg clientSecrets {[ "abc-1" := 42 ]})
                   (afterMap msg w)).2
                ltac:(vm_compute; reflexivity)
                ltac:(vm_compute; discriminate)
                ltac:(vm_compute; reflexivity)) as Hfails.
  cbv zeta in Hfails.
  destruct (processRecord msg w) as [r w'] eqn:Hrun.
  destruct Hfails as (Hr & Hp & Henv & Htrace).
  split; [exact Hr|]. split; [exact Hp|].
  rewrite Henv, Htrace. split; vm_compute; reflexivity.
Defined.


(** A SKU that is the name of an inherited member is not checked either:
    the read of the resolved map gives the member that the map inherits,
    which is not [null]; the order is posted, its item carrying that member
    in the place of a product id, and marked processed. *)
Example inherited_name_as_sku_is_submitted :
  let c := candidateOf constructorLine in
  let msg := message [constructorLine] in
  let w := world [Ok accepted] in
  isPersonalised c = true
  ∧ Kornitx.normSkuOf (li c) = "constructor"
  ∧ (getProductIdsForSkus (slug msg) (skusOf (candidates msg)) (afterSecrets msg w)).1
    = Ok ∅
  ∧ missingOf ∅ (personalisedOf (candidates msg)) = []
  ∧ let '(r, w') := processRecord msg w in
    r = Ok tt
    ∧ map (fun req => map Kornitx.textual_product_id (Kornitx.items (body req)))
        (fetchesOf (trace w'))
      = [[Obj.Inherited "constructor"]]
    ∧ map shopOrderKey (putsOf (trace w')) = ["acme.myshopify.com#999000111"].
Proof. repeat split; vm_compute; reflexivity. Qed.

Lemma record_posts_at_most_five_times_witness :
  let msg := message [printLine] in
  let w := world (replicate 7 (Ok unavailable)) in
  ∃ evs, trace (processRecord msg w).2 = trace w ++ evs
         ∧ (countOf isFetch evs <= 5)%nat.
Proof.
  intros msg w.
  apply (@record_posts_at_most_five_times InMemory.Store InMemory.scheduler
           InMemory.collaborators msg w (processRecord msg w).1 (processRecord msg w).2).
  apply surjective_pairing.
Defined.

Lemma record_is_marked_at_most_once_witness :
  let msg := message [printLine] in
  let w := world [Ok accepted] in
  ∃ evs, trace (processRecord msg w).2 = trace w ++ evs
         ∧ (countOf isPut evs <= 1)%nat.
Proof.
  intros msg w.
  apply (@record_is_marked_at_most_once InMemory.Store InMemory.scheduler
           InMemory.collaborators msg w (processRecord msg w).1 (processRecord msg w).2).
  apply surjective_pairing.
Defined.

(** A redelivery after a failed submission starts again: the table is read,
    the order is found unprocessed and posted. *)
Example redelivery_submits_again :
  let msg := message [printLine] in
  let '(r1, w1) := processRecord msg (world (replicate 6 (Ok unavailable) ++ [Ok accepted])) in
  let '(r2, w2) := processRecord msg w1 in
  r1 = Throw (Error "KX 503 Service Unavailable - down")
  ∧ r2 = Ok tt
  ∧ length (fetchesOf (trace w1)) = 5%nat
  ∧ length (fetchesOf (trace w2)) = 7%nat
  ∧ map shopOrderKey (putsOf (trace w2)) = ["acme.myshopify.com#999000111"].
Proof. vm_compute. done. Qed.

(** One line with a print job, its SKU mapped to product 42: one item of
    type 2 is posted, with that product and no attribute. *)
Example mapped_print_job_is_posted :
  let msg := message [line 1 (Some 1) (Some "ABC-1")
                        [{| name := "_printJobId"; value := "PJ1" |}]] in
  let '(r, w) := processRecord msg (world [Ok accepted]) in
  r = Ok tt
  ∧ map (fun req =>
           map (fun i => (Kornitx.type i, Kornitx.textual_product_id i,
                          Kornitx.attributes i))
             (Kornitx.items (body req)))
      (fetchesOf (trace w))
    = [[(2, Obj.Own 42, [])]].
Proof. vm_compute. done. Qed.

(** One line with private properties only: nothing is posted and the order
    is marked processed. *)
Example plain_order_is_marked :
  let '(r, w) := processRecord (message [plainLine]) (world [Ok accepted]) in
  r = Ok tt
  ∧ fetchesOf (trace w) = []
  ∧ map shopOrderKey (putsOf (trace w)) = ["acme.myshopify.com#999000111"].
Proof. vm_compute. done. Qed.

(** A second delivery of an order that was submitted stops at the check. *)
Example duplicate_delivery_is_skipped :
  let msg := message [printLine] in
  let '(r, w) := handler [msg; msg] (world [Ok accepted]) in
  r = Ok tt
  ∧ length (fetchesOf (trace w)) = 1%nat
  ∧ length (putsOf (trace w)) = 1%nat.
Proof. vm_compute. done. Qed.

End WorkerExamples.
(** * Strings: joining and splitting *)

Section StringsMore.
Import Shape.

Lemma append_cons x (a b : string) : String x a +:+ b = String x (a +:+ b).
Proof. done. Qed.

Lemma append_assoc (a b c : string) : (a +:+ b) +:+ c = a +:+ b +:+ c.
Proof. induction a as [|x a' IH]; [done|]. by rewrite !append_cons, IH. Qed.

Lemma append_nil_r (a : string) : a +:+ "" = a.
Proof. induction a as [|x a' IH]; [done|]. by rewrite append_cons, IH. Qed.

Lemma rev_app_spec a b : String.rev_app a b = String.rev a +:+ b.
Proof.
  unfold String.rev. revert b. induction a as [|c a IH]; intros b; [done|].
  cbn [String.rev_app]. rewrite IH, (IH (String c "")).
  by rewrite append_assoc.
Qed.

Lemma rev_rev_app a b : String.rev (String.rev_app a b) = String.rev b +:+ a.
Proof.
  revert b. induction a as [|c a IH]; intros b; cbn [String.rev_app].
  - by rewrite append_nil_r.
  - rewrite IH. unfold String.rev at 1. cbn [String.rev_app].
    rewrite rev_app_spec, append_assoc. done.
Qed.

Lemma concat_cons sep x y ys :
  String.concat sep (x :: y :: ys) = x +:+ sep +:+ String.concat sep (y :: ys).
Proof. done. Qed.

Lemma concat_nonempty sep x xs : x ≠ "" → String.concat sep (x :: xs) ≠ "".
Proof. destruct xs; [done|]. rewrite concat_cons. by destruct x. Qed.

Lemma splitAux_piece x s cur :
  commaFree x →
  Js.splitAux "," (x +:+ s) cur = Js.splitAux "," s (String.rev_app x cur).
Proof.
  revert cur. induction x as [|c x IH]; intros cur Hx; [done|].
  apply Forall_cons in Hx as [Hc Hx].
  rewrite append_cons. cbn [Js.splitAux String.rev_app].
  destruct (Ascii.eqb_spec c ","); [done|]. by apply IH.
Qed.

Lemma split_join xs :
  xs ≠ [] → Forall commaFree xs → Js.split "," (Js.join "," xs) = xs.
Proof.
  unfold Js.split, Js.join.
  induction xs as [|x xs IH]; [done|]. intros _ [Hx Hxs]%Forall_cons.
  destruct xs as [|y ys].
  - change (String.concat "," [x]) with x. rewrite <- (append_nil_r x) at 1.
    rewrite splitAux_piece by done. cbn [Js.splitAux].
    by rewrite rev_rev_app.
  - rewrite concat_cons, splitAux_piece by done.
    rewrite append_cons. cbn [Js.splitAux]. rewrite Ascii.eqb_refl, rev_rev_app.
    f_equal. by apply IH.
Qed.

Lemma trimEnd_app a b :
  b ≠ "" → Js.trimEnd b = b → Js.trimEnd (a +:+ b) = a +:+ b.
Proof.
  intros Hb Hbb. induction a as [|c a IH]; [done|].
  rewrite append_cons. cbn [Js.trimEnd]. rewrite IH.
  destruct (a +:+ b) eqn:E; [|done]. by destruct a, b.
Qed.

Lemma trim_black s : Js.trim s = s → s ≠ "" → Js.trimEnd s = s ∧ Js.startsBlack s.
Proof.
  unfold Js.trim. destruct s as [|c r]; [done|]. intros Ht _.
  cbn [Js.trimStart] in Ht. cbn [Js.startsBlack].
  destruct (Js.isWhiteSpace c) eqn:Hc; [|done].
  exfalso.
  assert (∀ s, (String.length (Js.trimEnd s) <= String.length s)%nat) as Hend.
  { induction s as [|c' s' IH']; [done|]. cbn [Js.trimEnd].
    destruct (Js.trimEnd s'); [destruct (Js.isWhiteSpace c')|]; cbn in *; lia. }
  assert (∀ s, (String.length (Js.trimStart s) <= String.length s)%nat) as Hstart.
  { induction s as [|c' s' IH']; [done|]. cbn [Js.trimStart].
    destruct (Js.isWhiteSpace c'); cbn in *; lia. }
  pose proof (Hend (Js.trimStart r)). pose proof (Hstart r).
  rewrite Ht in *. cbn in *. lia.
Qed.

Lemma trim_join xs :
  Forall (fun x => x ≠ "" ∧ Js.trim x = x) xs →
  Js.trim (Js.join "," xs) = Js.join "," xs.
Proof.
  unfold Js.join. induction xs as [|x xs IH]; [done|].
  intros [[Hne Hx] Hxs]%Forall_cons.
  destruct (trim_black x Hx Hne) as [Hend Hstart].
  destruct xs as [|y ys]; [done|].
  rewrite concat_cons. specialize (IH Hxs).
  assert (String.concat "," (y :: ys) ≠ "") as Hrest.
  { apply Forall_cons in Hxs as [[Hy _] _]. by apply concat_nonempty. }
  destruct (trim_black _ IH Hrest) as [Hend' _].
  unfold Js.trim.
  assert (Js.trimStart (x +:+ "," +:+ String.concat "," (y :: ys))
          = x +:+ "," +:+ String.concat "," (y :: ys)) as ->.
  { destruct x as [|c r]; [done|]. rewrite append_cons. cbn [Js.trimStart].
    cbn in Hstart. by rewrite Hstart. }
  rewrite <- append_assoc. by apply trimEnd_app.
Qed.

Lemma length_append (a b : string) :
  String.length (a +:+ b) = (String.length a + String.length b)%nat.
Proof. induction a as [|c a IH]; [done|]. rewrite append_cons. cbn. by rewrite IH. Qed.

Lemma get_append (a b : string) n :
  String.get (String.length a + n) (a +:+ b) = String.get n b.
Proof. rewrite Nat.add_comm. symmetry. apply append_correct2. Qed.

End StringsMore.

(** * Numbers *)

(** ** The rounding of doubles *)

Section DoubleFacts.
Import Double.
Local Open Scope Q_scope.

Lemma rne_cases q : rne q = Qfloor q \/ rne q = (Qfloor q + 1)%Z.
Proof. unfold rne. destruct (_ ?= _); [destruct (Z.even _)|..]; auto. Qed.

Lemma rne_mono q1 q2 : q1 <= q2 -> (rne q1 <= rne q2)%Z.
Proof.
  intros Hle. pose proof (Qfloor_resp_le _ _ Hle) as Hf.
  destruct (Z.eq_dec (Qfloor q1) (Qfloor q2)) as [E|E].
  - unfold rne. rewrite <- E.
    assert (q1 - inject_Z (Qfloor q1) <= q2 - inject_Z (Qfloor q1)) as Hr.
    { apply Qplus_le_compat; [done|apply Qle_refl]. }
    destruct (q1 - inject_Z (Qfloor q1) ?= 1 # 2) eqn:C1;
      destruct (q2 - inject_Z (Qfloor q1) ?= 1 # 2) eqn:C2;
      try (destruct (Z.even (Qfloor q1))); try lia; exfalso;
      try apply (proj2 (Qeq_alt _ _)) in C1; try apply (proj2 (Qlt_alt _ _)) in C1;
      try apply (proj2 (Qgt_alt _ _)) in C1;
      try apply (proj2 (Qeq_alt _ _)) in C2; try apply (proj2 (Qlt_alt _ _)) in C2;
      try apply (proj2 (Qgt_alt _ _)) in C2;
      lra.
  - destruct (rne_cases q1) as [-> | ->], (rne_cases q2) as [-> | ->]; lia.
Qed.

Lemma rne_Z z : rne (inject_Z z) = z.
Proof.
  unfold rne. rewrite Qfloor_Z.
  assert ((inject_Z z - inject_Z z ?= 1 # 2) = Lt) as ->; [|done].
  apply (proj1 (Qlt_alt _ _)). lra.
Qed.

Lemma rne_comp q1 q2 : q1 == q2 -> rne q1 = rne q2.
Proof.
  intros E. apply Z.le_antisymm; apply rne_mono; rewrite E; apply Qle_refl.
Qed.

Lemma rne_nonneg q : 0 <= q -> (0 <= rne q)%Z.
Proof. intros Hq. rewrite <- (rne_Z 0). by apply rne_mono. Qed.

Lemma pow2_pos e : 0 < 2 ^ e.
Proof. by apply Qpower_0_lt. Qed.

Lemma pow2_add a b : 2 ^ (a + b) == 2 ^ a * 2 ^ b.
Proof. by apply Qpower_plus. Qed.

Lemma pow2_Z e : (0 <= e)%Z -> 2 ^ e == inject_Z (2 ^ e).
Proof. intros He. by rewrite Zpower_Qpower. Qed.

(** [ilog2 q] is not above the binary logarithm of [q]. *)
Lemma ilog2_lower q : 0 < q -> 2 ^ ilog2 q <= q.
Proof.
  intros Hq. unfold ilog2.
  destruct (Qle_bool _ q) eqn:Hb; [by apply Qle_bool_iff|].
  destruct q as [n d]. cbn [Qnum Qden] in *.
  assert (0 < n)%Z as Hn by (by unfold Qlt in Hq; cbn in Hq; lia).
  pose proof (Z.log2_spec n Hn) as [Hn1 _].
  pose proof (Z.log2_spec (Z.pos d) ltac:(lia)) as [_ Hd2].
  pose proof (Z.log2_nonneg n). pose proof (Z.log2_nonneg (Z.pos d)).
  set (ln := Z.log2 n) in *. set (ld := Z.log2 (Z.pos d)) in *.
  (* 2^(ln-ld-1) * d <= n *)
  assert (2 ^ (ln - ld - 1) * inject_Z (Z.pos d) <= inject_Z n) as Hkey.
  { apply (Qle_trans _ (2 ^ (ln - ld - 1) * inject_Z (2 ^ (ld + 1)))).
    - apply Qmult_le_l; [apply pow2_pos|]. rewrite <- Zle_Qle. lia.
    - rewrite <- pow2_Z by lia. rewrite <- pow2_add.
      replace (ln - ld - 1 + (ld + 1))%Z with ln by lia.
      rewrite pow2_Z by lia. by rewrite <- Zle_Qle. }
  rewrite (Qmake_Qdiv n d).
  apply Qle_shift_div_l; [by rewrite <- (Zlt_Qlt 0)|done].
Qed.

Lemma pow2_lt_inv a b : 2 ^ a < 2 ^ b -> (a < b)%Z.
Proof. intros Hlt. by apply (Qpower_lt_compat_l_inv 2). Qed.

Lemma ilog2_upper q k : 0 < q -> q < 2 ^ (k + 1) -> (ilog2 q <= k)%Z.
Proof.
  intros Hq Hk. pose proof (ilog2_lower q Hq) as Hl.
  assert (ilog2 q < k + 1)%Z; [|lia].
  apply pow2_lt_inv. by apply (Qle_lt_trans _ q).
Qed.

Lemma Qabs_nonneg_eq q : 0 <= q -> Qabs q = q.
Proof.
  destruct q as [n d]. unfold Qle, Qabs. cbn. intros Hn. f_equal. lia.
Qed.

Lemma round_nonneg q : 0 <= q -> 0 <= round q.
Proof.
  intros Hq. unfold round. destruct (Qeq_bool q 0); [apply Qle_refl|].
  apply Qle_bool_iff in Hq as Hb. rewrite Hb.
  apply Qmult_le_0_compat; [|apply Qlt_le_weak, pow2_pos].
  rewrite <- (Zle_Qle 0). apply rne_nonneg.
  apply Qle_shift_div_l; [apply pow2_pos|]. rewrite Qmult_0_l. apply Qabs_nonneg.
Qed.

(** A number on the grid of the doubles of its size bounds the rounding of
    everything below it. *)
Lemma round_upper x z j :
  0 <= x -> x <= inject_Z z * 2 ^ j -> x < 2 ^ (j + 53) -> (-1074 <= j)%Z ->
  round x <= inject_Z z * 2 ^ j.
Proof.
  intros Hx Hle Hlt Hj. unfold round.
  destruct (Qeq_bool x 0) eqn:Hz.
  { apply (Qle_trans _ x); [|done]. apply Qeq_bool_iff in Hz. rewrite Hz. apply Qle_refl. }
  assert (0 < x) as Hpos.
  { apply Qle_lteq in Hx as [|E]; [done|]. symmetry in E.
    apply Qeq_bool_iff in E. congruence. }
  apply Qle_bool_iff in Hx as Hb. rewrite Hb.
  rewrite (Qabs_nonneg_eq x) by done.
  set (e := Z.max (ilog2 x - 52) (-1074)).
  assert (e <= j)%Z as He.
  { pose proof (ilog2_upper x (j + 52) Hpos) as Hu.
    replace (j + 52 + 1)%Z with (j + 53)%Z in Hu by lia. specialize (Hu Hlt). lia. }
  assert (inject_Z z * 2 ^ j == inject_Z (z * 2 ^ (j - e)) * 2 ^ e) as Hgrid.
  { rewrite inject_Z_mult, <- pow2_Z by lia. rewrite <- Qmult_assoc, <- pow2_add.
    by replace (j - e + e)%Z with j by lia. }
  rewrite Hgrid. apply Qmult_le_compat_r; [|apply Qlt_le_weak, pow2_pos].
  rewrite <- Zle_Qle. rewrite <- (rne_Z (z * 2 ^ (j - e))). apply rne_mono.
  apply Qle_shift_div_r; [apply pow2_pos|]. by rewrite <- Hgrid.
Qed.

Lemma round_le_Z x z :
  0 <= x -> x <= inject_Z z -> (z < 2 ^ 53)%Z -> round x <= inject_Z z.
Proof.
  intros Hx Hle Hz.
  assert (inject_Z z * 2 ^ 0 == inject_Z z) as E by (cbn; ring).
  rewrite <- E.
  apply round_upper; [done| |..|lia].
  - by rewrite E.
  - apply (Qle_lt_trans _ _ _ Hle). change (0 + 53)%Z with 53%Z.
    rewrite pow2_Z by lia. by rewrite <- Zlt_Qlt.
Qed.

End DoubleFacts.


Section Jitter.

(** With [Math.random] from 0 up to, not including, 1 the jittered delay is
    not negative and not above the backoff: the factor is rounded to a
    double that is at most 1. *)
Lemma jittered_range backoff r :
  0 ≤ backoff < 2 ^ 53 → (0 <= r)%Q → (r < 1)%Q → 0 ≤ jittered backoff r ≤ backoff.
Proof.
  intros [Hb Hb53] Hr0 Hr1. unfold jittered, Double.mul, Double.add.
  set (h := Double.round (r * (1 # 2))).
  assert (0 <= h)%Q as Hh0.
  { apply round_nonneg, Qmult_le_0_compat; [done|by compute]. }
  assert (h <= 1 # 2)%Q as Hh1.
  { change (1 # 2)%Q with (inject_Z 1 * 2 ^ (-1))%Q.
    apply round_upper; [apply Qmult_le_0_compat; [done|by compute]| | |lia].
    - change (inject_Z 1 * 2 ^ (-1))%Q with (1 * (1 # 2))%Q.
      apply Qmult_le_compat_r; [by apply Qlt_le_weak|by compute].
    - apply (Qle_lt_trans _ (1 * (1 # 2))); [|by compute].
      apply Qmult_le_compat_r; [by apply Qlt_le_weak|by compute]. }
  set (f := Double.round ((1 # 2) + h)).
  assert (0 <= (1 # 2) + h)%Q as Hs0.
  { change 0%Q with (0 + 0)%Q. apply Qplus_le_compat; [by compute|done]. }
  assert (0 <= f)%Q as Hf0 by (by apply round_nonneg).
  assert (f <= 1)%Q as Hf1.
  { change 1%Q with (inject_Z 1). apply round_le_Z; [done| |done].
    apply (Qle_trans _ ((1 # 2) + (1 # 2))); [|by compute].
    apply Qplus_le_compat; [apply Qle_refl|done]. }
  assert (0 <= inject_Z backoff)%Q as Hbq by (by rewrite <- (Zle_Qle 0)).
  assert (0 <= inject_Z backoff * f)%Q as Hp0 by (by apply Qmult_le_0_compat).
  split.
  - change 0 with (Qfloor (inject_Z 0)). apply Qfloor_resp_le. by apply round_nonneg.
  - rewrite <- (Qfloor_Z backoff) at 2. apply Qfloor_resp_le.
    apply round_le_Z; [done| |done].
    rewrite <- (Qmult_1_r (inject_Z backoff)) at 2.
    rewrite (Qmult_comm _ f), (Qmult_comm _ 1). by apply Qmult_le_compat_r.
Qed.

(** The draw next to 1 gives the whole backoff: [0.5 + r * 0.5] is rounded
    to 1. *)
Example jitter_reaches_the_backoff :
  let r := (1 - (1 # 2 ^ 53))%Q in
  (r < 1)%Q ∧ map (fun backoff => jittered backoff r) [1000; 2000; 4000; 8000]
              = [1000; 2000; 4000; 8000].
Proof. split; [by compute|]. vm_compute. reflexivity. Qed.

End Jitter.

(** ** The printing of numbers *)

Section Printing.
Import Shape.

Lemma ofNumber_safe n : Js.isSafeInteger n = true → Js.ofNumber n = pretty n.
Proof. unfold Js.isSafeInteger, Js.ofNumber. by intros ->. Qed.

Lemma toDouble_safe n : Js.isSafeInteger n = true → Js.toDouble n = n.
Proof. unfold Js.isSafeInteger, Js.toDouble. by intros ->. Qed.

Lemma pretty_N_char_numeric x : numeric (pretty_N_char x).
Proof.
  right. unfold pretty_N_char. destruct x as [|p]; [cbn; lia|].
  do 4 (try destruct p as [p|p|]); cbn; lia.
Qed.

Lemma pretty_N_go_numeric x s :
  ∃ d, pretty_N_go x s = d +:+ s
       ∧ Forall numeric (list_ascii_of_string d)
       ∧ ((0 < x)%N → d ≠ "").
Proof.
  revert s. induction (N.lt_wf_0 x) as [x _ IH]; intros s.
  destruct (decide (0 < x)%N) as [Hx|Hx].
  - rewrite pretty_N_go_step by done.
    destruct (IH (x `div` 10)%N (N.div_lt x 10 Hx eq_refl)
                (String (pretty_N_char (x `mod` 10)) s)) as (d & -> & Hd & _).
    exists (d +:+ String (pretty_N_char (x `mod` 10)) "").
    split; [by rewrite append_assoc|]. split.
    + clear -Hd. induction d as [|c d IHd]; cbn.
      * constructor; [apply pretty_N_char_numeric|constructor].
      * apply Forall_cons in Hd as [Hc Hd]. constructor; [done|by apply IHd].
    + intros _. by destruct d.
  - assert (x = 0%N) as -> by lia. rewrite pretty_N_go_0. exists "".
    split; [done|]. split; [constructor|lia].
Qed.

Lemma pretty_Z_numeric (n : Z) :
  pretty n ≠ "" ∧ Forall numeric (list_ascii_of_string (pretty n)).
Proof.
  assert (∀ p : positive, pretty p ≠ ""
            ∧ Forall numeric (list_ascii_of_string (pretty p))) as Hpos.
  { intros p. unfold pretty, pretty_positive, pretty, pretty_N.
    destruct (decide _) as [|_]; [done|].
    destruct (pretty_N_go_numeric (N.pos p) "") as (d & -> & Hd & Hne).
    rewrite append_nil_r. split; [apply Hne; lia|done]. }
  unfold pretty, pretty_Z. destruct n as [|p|p].
  - split; [done|]. constructor; [right; cbn; lia|constructor].
  - apply Hpos.
  - destruct (Hpos p) as [Hne Hd]. split; [done|].
    cbn. constructor; [by left|done].
Qed.

(** A safe integer prints as an optional minus sign and digits. *)
Lemma ofNumber_numeric n :
  Js.isSafeInteger n = true →
  Forall numeric (list_ascii_of_string (Js.ofNumber n)).
Proof. intros Hn. rewrite ofNumber_safe by done. apply pretty_Z_numeric. Qed.

Lemma append_nonEmpty_l (a b : string) : a ≠ "" → a +:+ b ≠ "".
Proof. by destruct a. Qed.

(** [String(n)] is never the empty string. *)
Lemma ofNumber_nonEmpty n : Js.ofNumber n ≠ "".
Proof.
  unfold Js.ofNumber.
  destruct (_ <? _); [apply pretty_Z_numeric|].
  destruct (negb _); [by destruct (n <? 0)|].
  assert (∀ x, Js.ofDouble x ≠ "") as Hd.
  { intros x. unfold Js.ofDouble. destruct (_ <? _); [apply pretty_Z_numeric|].
    unfold Js.exponentForm. destruct (Js.dropZeros _); [done|].
    by apply append_nonEmpty_l. }
  destruct (n <? 0); [done|apply Hd].
Qed.

(** The integers on both sides of 2^53, and larger ones. *)
Example ofNumber_examples :
  map Js.ofNumber
    [0; -5; 999000111; 2 ^ 53 - 1; 2 ^ 53; 2 ^ 53 + 1; 2 ^ 53 + 2; - (2 ^ 53 + 3);
     2 ^ 64; 10 ^ 21; 2 ^ 70; 2 ^ 1024]
  = ["0"; "-5"; "999000111"; "9007199254740991"; "9007199254740992";
     "9007199254740992"; "9007199254740994"; "-9007199254740996";
     "18446744073709552000"; "1e+21"; "1.1805916207174113e+21"; "Infinity"].
Proof. vm_compute. reflexivity. Qed.

End Printing.
(** * The signature check, once more *)

Section ShopifyMore.
Import Shopify.
Context `{Runtime}.

Lemma utf8ToString_char c bs :
  utf8ToString (utf8Char c ++ bs) = String c (utf8ToString bs).
Proof. by destruct c as [[] [] [] [] [] [] [] []]. Qed.

Lemma utf8ToString_bufferFrom s : utf8ToString (bufferFrom s) = s.
Proof.
  induction s as [|c r IH]; [done|].
  cbn [bufferFrom]. by rewrite utf8ToString_char, IH.
Qed.

Lemma bufferFrom_inj a b : bufferFrom a = bufferFrom b → a = b.
Proof.
  intros E. by rewrite <- (utf8ToString_bufferFrom a), E, utf8ToString_bufferFrom.
Qed.

Lemma bytesEqual_eq a b : bytesEqual a b = true ↔ a = b.
Proof.
  split; [|intros ->; apply bytesEqual_refl].
  revert b. induction a as [|x a IH]; intros [|y b]; cbn [bytesEqual]; try done.
  intros [Hxy Hab]%andb_prop. apply Byte.byte_dec_bl in Hxy. apply IH in Hab. congruence.
Qed.

Lemma verify_true_digest rawBody header secret :
  verifyShopifyHmac rawBody header secret = Ok true →
  header = Some (hmacSha256Base64 secret rawBody).
Proof.
  unfold verifyShopifyHmac, timingSafeEqual.
  destruct header as [h|]; [|done].
  destruct (Js.nonEmpty h) eqn:Hne; [|done]. cbn [negb].
  destruct (_ =? _)%nat; [|done].
  intros [= Heq]. apply bytesEqual_eq, bufferFrom_inj in Heq. by subst h.
Qed.

(** X6. The verifier answers true for the digest of the body under the
    secret, when that is not empty, and for no other claimed signature. *)
Theorem verify_true_iff_digest rawBody header secret :
  verifyShopifyHmac rawBody header secret = Ok true
  ↔ header = Some (hmacSha256Base64 secret rawBody)
    ∧ hmacSha256Base64 secret rawBody ≠ "".
Proof.
  split.
  - unfold verifyShopifyHmac, timingSafeEqual.
    destruct header as [h|]; [|done].
    destruct (Js.nonEmpty h) eqn:Hne; [|done]. cbn [negb].
    destruct (_ =? _)%nat; [|done].
    intros [= Heq]. apply bytesEqual_eq, bufferFrom_inj in Heq. subst h.
    split; [done|]. by apply nonEmpty_true.
  - intros [-> Hne%nonEmpty_true].
    rewrite verify_same_length by done. by rewrite bytesEqual_refl.
Qed.

End ShopifyMore.

(** * The line properties, once more *)

Section ExtractProps.
Import LineProps.

Lemma get_put obj k v k' :
  get (put obj k v) k' = if bool_decide (k = k') then Some v else get obj k'.
Proof.
  induction obj as [|[k0 v0] rest IH]; cbn [put get]; [done|].
  destruct (decide (k0 = k)) as [->|E0].
  - rewrite bool_decide_eq_true_2 by done. cbn [get]. by case_bool_decide.
  - rewrite bool_decide_eq_false_2 by done. cbn [get]. rewrite IH.
    destruct (decide (k0 = k')) as [->|E1].
    + rewrite bool_decide_eq_true_2 by done. by rewrite bool_decide_eq_false_2 by congruence.
    + by rewrite (bool_decide_eq_false_2 (k0 = k')) by done.
Qed.

Lemma keys_put obj k v :
  keys (put obj k v) = if bool_decide (k ∈ keys obj) then keys obj else keys obj ++ [k].
Proof.
  unfold keys. induction obj as [|[k0 v0] rest IH]; cbn [put map fst app].
  - by rewrite bool_decide_eq_false_2 by apply not_elem_of_nil.
  - destruct (decide (k0 = k)) as [->|E0].
    + rewrite bool_decide_eq_true_2 by done. cbn [map fst].
      rewrite bool_decide_eq_true_2; [done|]. apply list_elem_of_here.
    + rewrite bool_decide_eq_false_2 by done. cbn [map fst]. rewrite IH.
      destruct (decide (k ∈ map fst rest)) as [Hin|Hin].
      * rewrite !bool_decide_eq_true_2; [done| |done]. by apply list_elem_of_further.
      * rewrite !bool_decide_eq_false_2; [done| |done].
        intros [?|?]%elem_of_cons; congruence.
Qed.

Lemma get_set obj k v k' :
  get (set obj k v) k'
  = if bool_decide (k = k') && negb (bool_decide (k = "__proto__")) then Some v
    else get obj k'.
Proof.
  unfold set. destruct (bool_decide (k = "__proto__")).
  - by rewrite andb_false_r.
  - by rewrite get_put, andb_true_r.
Qed.

Lemma extract_get props acc k :
  get (fold_left (fun out p => set out (name p) (value p)) props acc) k
  = if bool_decide (k = "__proto__") then get acc k
    else match last (filter (fun p => name p = k) props) with
         | Some p => Some (value p)
         | None => get acc k
         end.
Proof.
  revert acc. induction props as [|p rest IH]; intros acc; [by case_bool_decide|].
  cbn [fold_left]. rewrite IH, filter_cons, get_set.
  destruct (decide (k = "__proto__")) as [->|Hk].
  - rewrite (bool_decide_eq_true_2 ("__proto__" = "__proto__")) by done.
    destruct (decide (name p = "__proto__")) as [Hp|Hp].
    + by rewrite (bool_decide_eq_true_2 (name p = "__proto__")), andb_false_r.
    + by rewrite (bool_decide_eq_false_2 (name p = "__proto__")).
  - rewrite (bool_decide_eq_false_2 (k = "__proto__")) by done.
    destruct (decide (name p = k)) as [Hpk|Hpk].
    + rewrite last_cons. rewrite (bool_decide_eq_true_2 (name p = k)) by done.
      rewrite (bool_decide_eq_false_2 (name p = "__proto__")) by congruence.
      by destruct (last (filter _ rest)).
    + by rewrite (bool_decide_eq_false_2 (name p = k)).
Qed.

Lemma extract_keys props acc :
  NoDup (keys acc) →
  NoDup (keys (fold_left (fun out p => set out (name p) (value p)) props acc))
  ∧ ∀ k, k ∈ keys (fold_left (fun out p => set out (name p) (value p)) props acc)
         ↔ k ∈ keys acc ∨ (k ∈ map name props ∧ k ≠ "__proto__").
Proof.
  revert acc. induction props as [|p rest IH]; intros acc Hacc.
  - split; [done|]. intros k. cbn. rewrite elem_of_nil. tauto.
  - cbn [fold_left].
    assert (NoDup (keys (set acc (name p) (value p)))) as Hnd.
    { unfold set. case_bool_decide; [done|].
      rewrite keys_put. case_bool_decide; [done|].
      apply NoDup_app. split; [done|]. split; [|apply NoDup_singleton].
      intros x Hx ->%list_elem_of_singleton. done. }
    destruct (IH _ Hnd) as [IH1 IH2]. split; [done|].
    intros k. rewrite IH2. cbn [map]. rewrite elem_of_cons.
    unfold set. case_bool_decide as Hproto.
    + intuition congruence.
    + rewrite keys_put. case_bool_decide as Hin.
      * intuition (subst; auto).
      * rewrite elem_of_app, list_elem_of_singleton. intuition (subst; auto).
Qed.

(** X7. [extractProps(props)[k]], for a name [k] other than [__proto__], is
    the value of the last property named [k]; when no property has that
    name it is the member that every object inherits under that name, if
    there is one, and [undefined] otherwise. A property named [__proto__] is
    not kept. The keys of the object are the names of the other properties,
    each once. *)
Theorem extractProps_last_wins props k :
  let obj := extractProps props in
  let named := last (filter (fun p => name p = k) (default [] props)) in
  get obj k = (if bool_decide (k = "__proto__") then None else value <$> named)
  ∧ read obj k
    = (if bool_decide (k = "__proto__") then Obj.Inherited k
       else match named with
            | Some p => Obj.Own (value p)
            | None => if Obj.inherited k then Obj.Inherited k else Obj.Absent
            end)
  ∧ NoDup (keys obj)
  ∧ (k ∈ keys obj ↔ k ∈ map name (default [] props) ∧ k ≠ "__proto__").
Proof.
  intros obj named.
  assert (get obj k = (if bool_decide (k = "__proto__") then None else value <$> named))
    as Hget.
  { unfold obj, extractProps. rewrite extract_get. case_bool_decide; [done|].
    fold named. by destruct named. }
  split; [done|]. split; [|split].
  - unfold read. rewrite Hget. case_bool_decide as Hk; [by rewrite Hk|].
    by destruct named.
  - apply extract_keys. apply NoDup_nil_2.
  - destruct (extract_keys (default [] props) []) as [_ Hk]; [apply NoDup_nil_2|].
    unfold obj, extractProps. rewrite Hk. cbn. rewrite elem_of_nil. tauto.
Qed.

End ExtractProps.

Section FindFirstKey.
Import LineProps.

Lemma text_nonEmpty member : Obj.text member ≠ "".
Proof. unfold Obj.text. by case_bool_decide. Qed.

(** The keys that [findFirstKey] reads in the properties are own properties
    or no names of inherited members: each read gives a string or
    [undefined]. *)
Lemma valueAt_reads_own obj x :
  match Obj.get (lowerToRealOf obj) x with
  | Obj.Own k => k ∈ keys obj
  | Obj.Inherited member => Obj.inherited (Obj.text member) = false
  | Obj.Absent => True
  end.
Proof.
  unfold Obj.get. rewrite lowerToRealOf_lookup.
  case_bool_decide as Hx.
  - subst x. vm_compute. reflexivity.
  - destruct (last (filter _ (keys obj))) as [k|] eqn:Hlast.
    + apply last_Some_elem_of in Hlast. by apply list_elem_of_filter in Hlast as [_ ?].
    + destruct (Obj.inherited x) eqn:Hin; [|done].
      unfold Obj.inherited in Hin. apply bool_decide_eq_true in Hin.
      unfold Obj.protoNames in Hin.
      repeat (apply elem_of_cons in Hin as [->|Hin]; [vm_compute; reflexivity|]).
      by apply elem_of_nil in Hin.
Qed.

Lemma firstCandidate_sound obj cands v :
  firstCandidate (lowerToRealOf obj) obj cands = Some v →
  v ≠ "" ∧ ∃ k cand, cand ∈ cands ∧ k ≠ "" ∧ get obj k = Some v
    ∧ (Js.toLowerCase k = Js.toLowerCase cand
       ∨ (Obj.inherited (Js.toLowerCase cand) = true
          ∧ lowerToRealOf obj !! Js.toLowerCase cand = None
          ∧ k = Obj.text (Js.toLowerCase cand))).
Proof.
  induction cands as [|cand rest IH]; [done|]. cbn [firstCandidate].
  destruct (Js.truthy (valueAt obj _)) eqn:Htruthy.
  - intros Hv. rewrite Hv in Htruthy. split; [by apply nonEmpty_true|].
    revert Hv. unfold Obj.get.
    destruct (lowerToRealOf obj !! Js.toLowerCase cand) as [k|] eqn:Hlook.
    + cbn [valueAt]. destruct (Js.nonEmpty k) eqn:Hk; [|done]. intros Hget.
      exists k, cand. split; [apply list_elem_of_here|].
      split; [by apply nonEmpty_true|]. split; [done|]. left.
      rewrite lowerToRealOf_lookup in Hlook. case_bool_decide; [done|].
      apply last_Some_elem_of in Hlook. by apply list_elem_of_filter in Hlook as [? _].
    + destruct (Obj.inherited (Js.toLowerCase cand)) eqn:Hin; [|done].
      cbn [valueAt]. intros Hget.
      exists (Obj.text (Js.toLowerCase cand)), cand.
      split; [apply list_elem_of_here|]. split; [apply text_nonEmpty|].
      split; [done|]. right. done.
  - intros (Hv & k' & c' & Hin & Hrest)%IH. split; [done|].
    exists k', c'. split; [by apply list_elem_of_further|done].
Qed.

(** X8. What [findFirstKey] returns is never the empty string: it is the
    value, not empty, of a property whose name, not empty either, equals one
    of the candidates up to case; or, for a candidate that is [constructor]
    or [__proto__] up to case and stands for no property, the value of the
    property named by the text of the member that [lowerToReal] inherits.
    With no candidates it returns [undefined]. *)
Theorem findFirstKey_returns_a_matching_value obj cands v :
  findFirstKey obj cands = Some v →
  v ≠ "" ∧ ∃ k cand, cand ∈ cands ∧ k ≠ "" ∧ get obj k = Some v
    ∧ (Js.toLowerCase k = Js.toLowerCase cand
       ∨ (Obj.inherited (Js.toLowerCase cand) = true
          ∧ lowerToRealOf obj !! Js.toLowerCase cand = None
          ∧ k = Obj.text (Js.toLowerCase cand))).
Proof.
  unfold findFirstKey. case_bool_decide; [done|]. apply firstCandidate_sound.
Qed.

End FindFirstKey.

Section ToArray.
Import LineProps Shape.
Context `{Runtime}.


Lemma clean_pieces_stay ys :
  Forall (fun x => x ≠ "" ∧ Js.trim x = x) ys →
  filter (fun x => Is_true (Js.nonEmpty x)) (map Js.trim ys) = ys.
Proof.
  induction 1 as [|y ys [Hy Hyy] _ IH]; [done|].
  cbn [map]. rewrite filter_cons, Hyy, IH.
  apply nonEmpty_true in Hy. rewrite Hy. by destruct (decide _) as [_|[]].
Qed.

(** X10. A list of names, joined with commas, is read back as written, when the
    names are trimmed, not empty and free of commas and the text is not a
    JSON array. *)
Theorem toArray_reads_back_a_comma_list xs :
  Forall (fun x => x ≠ "" ∧ Js.trim x = x) xs →
  Forall commaFree xs →
  (∀ parsed, JSON_parse (Js.join "," xs) ≠ Some (JArray parsed)) →
  toArray (KeysString (Js.join "," xs)) = xs.
Proof.
  intros Hclean Hfree Hparse. unfold toArray. rewrite trim_join by done.
  destruct xs as [|x xs]; [done|].
  assert (Js.nonEmpty (Js.join "," (x :: xs)) = true) as ->.
  { apply Forall_cons in Hclean as [[Hx _] _]. apply nonEmpty_true.
    by apply concat_nonempty. }
  cbn [negb].
  destruct (JSON_parse (Js.join "," (x :: xs))) as [[| | | |parsed|]|] eqn:E;
    try (by destruct (Hparse parsed)).
  all: rewrite split_join by done; by apply clean_pieces_stay.
Qed.

End ToArray.

(** * The payload builder, once more *)

Section Passthrough.
Import LineProps Kornitx Shape.

Lemma passthroughStep_cases attrs seen p :
  passthroughStep (attrs, seen) p
  = if userFacingb p && negb (bool_decide (keyOf p ∈ seen))
    then (attrs ++ [trimmed p], {[keyOf p]} ∪ seen)
    else (attrs, seen).
Proof.
  unfold passthroughStep, userFacingb, keyOf, trimmed.
  destruct (Js.nonEmpty (Js.trim (name p))), (Js.nonEmpty (Js.trim (value p)));
    cbn [negb orb andb]; try done.
  destruct (Js.startsWith _ _); cbn [negb andb]; [done|].
  by case_bool_decide.
Qed.

Lemma lowerChar_underscore c : Js.lowerChar c = "_"%char ↔ c = "_"%char.
Proof. split; [|by intros ->]. by destruct c as [[] [] [] [] [] [] [] []]. Qed.

Lemma toLowerCase_underscore s :
  Js.startsWith (Js.toLowerCase s) "_" = Js.startsWith s "_".
Proof.
  destruct s as [|c r]; [done|]. rewrite toLowerCase_cons, !startsWith_underscore.
  destruct (Ascii.eqb_spec "_" (Js.lowerChar c)) as [E|E],
    (Ascii.eqb_spec "_" c) as [E'|E']; try done.
  - symmetry in E. apply (proj1 (lowerChar_underscore c)) in E. by destruct E'.
  - subst c. by destruct E.
Qed.

Lemma keyOf_trimmed p : keyOf (trimmed p) = keyOf p.
Proof. unfold keyOf, trimmed. cbn. by rewrite trim_twice. Qed.

Lemma firstWithKey_key props p q :
  keyOf p = keyOf q → firstWithKey props p = firstWithKey props q.
Proof. unfold firstWithKey. by intros ->. Qed.

Lemma firstWithKey_Some props p x :
  firstWithKey props p = Some x →
  x ∈ props ∧ userFacingb x = true ∧ keyOf x = keyOf p ∧ firstWithKey props x = Some x.
Proof.
  intros Hx. pose proof Hx as Hx'. unfold firstWithKey in Hx.
  apply head_Some_elem_of in Hx. apply list_elem_of_filter in Hx as [Hx Hin].
  apply andb_prop_elim in Hx as [Hu Hk]. apply bool_decide_unpack in Hk.
  apply Is_true_true in Hu. split; [done|]. split; [done|]. split; [done|].
  by rewrite (firstWithKey_key props x p).
Qed.

(** The state of the loop of [passthroughAttributes] after the properties
    [props]. *)
Lemma passthrough_loop props :
  let '(attrs, seen) := fold_left passthroughStep props ([], ∅) in
  seen = list_to_set (map keyOf attrs)
  ∧ NoDup (map keyOf attrs)
  ∧ sublist attrs (map trimmed props)
  ∧ (∀ a, a ∈ attrs ↔
          ∃ p, firstWithKey props p = Some p ∧ a = trimmed p).
Proof.
  induction props as [|p ps IH] using rev_ind.
  - cbn. split; [done|]. split; [apply NoDup_nil_2|]. split; [done|].
    intros a. split; [by intros ?%elem_of_nil|]. by intros (p & ? & _).
  - rewrite fold_left_app. cbn [fold_left].
    destruct (fold_left passthroughStep ps ([], ∅)) as [attrs seen].
    destruct IH as (Hseen & Hnd & Hsub & Hin).
    rewrite passthroughStep_cases.
    assert (keyOf p ∈ seen ↔ ∃ q, firstWithKey ps q = Some q ∧ keyOf q = keyOf p) as Hkey.
    { rewrite Hseen, elem_of_list_to_set, list_elem_of_fmap. split.
      - intros (a & Ha & (q & Hq & ->)%Hin). exists q. split; [done|].
        by rewrite Ha, keyOf_trimmed.
      - intros (q & Hq & Hk). exists (trimmed q). split; [by rewrite keyOf_trimmed|].
        apply Hin. by exists q. }
    assert (∀ q, firstWithKey (ps ++ [p]) q
                 = match firstWithKey ps q with
                   | Some x => Some x
                   | None => if userFacingb p && bool_decide (keyOf p = keyOf q)
                             then Some p else None
                   end) as Hfirst.
    { intros q. unfold firstWithKey. rewrite filter_app.
      destruct (filter _ ps) as [|x xs]; [|done].
      cbn [app]. rewrite filter_cons, filter_nil.
      destruct (userFacingb p && bool_decide (keyOf p = keyOf q)); by destruct (decide _). }
    destruct (userFacingb p) eqn:Hp; cbn [andb].
    2: { split; [done|]. split; [done|]. split.
         { rewrite map_app. by apply sublist_inserts_r. }
         intros a. rewrite Hin. setoid_rewrite Hfirst. cbn [andb].
         split; intros (q & Hq & ->); exists q; (split; [|done]);
           by destruct (firstWithKey ps q). }
    case_bool_decide as Hseenp; cbn [negb].
    + split; [done|]. split; [done|]. split.
      { rewrite map_app. by apply sublist_inserts_r. }
      intros a. rewrite Hin. setoid_rewrite Hfirst.
      split; intros (q & Hq & ->); exists q; (split; [|done]).
      * by rewrite Hq.
      * destruct (firstWithKey ps q) as [x|] eqn:Hx; [done|]. exfalso.
        cbn [andb] in Hq. case_bool_decide as Hk; [|done]. injection Hq as <-.
        apply Hkey in Hseenp as (q' & Hq' & Hk').
        rewrite (firstWithKey_key ps p q') in Hx by done. congruence.
    + split.
      { rewrite map_app, list_to_set_app_L, Hseen. cbn [map list_to_set].
        rewrite keyOf_trimmed, (right_id_L ∅ (∪)). apply (comm_L (∪)). }
      split.
      { rewrite map_app. apply NoDup_app. split; [done|].
        split; [|apply NoDup_singleton].
        intros k Hk Hk'. cbn [map] in Hk'. apply list_elem_of_singleton in Hk'.
        rewrite keyOf_trimmed in Hk'. subst k. apply Hseenp.
        by rewrite Hseen, elem_of_list_to_set. }
      split.
      { rewrite map_app. by apply sublist_app. }
      intros a. rewrite elem_of_app, list_elem_of_singleton, Hin.
      setoid_rewrite Hfirst. cbn [andb]. split.
      * intros [(q & Hq & ->)| ->].
        -- exists q. by rewrite Hq.
        -- exists p. split; [|done].
           destruct (firstWithKey ps p) as [x|] eqn:Hx.
           ++ exfalso. apply Hseenp, Hkey. exists x.
              apply firstWithKey_Some in Hx as (_ & _ & Hk & Hf). by split.
           ++ by rewrite bool_decide_eq_true_2.
      * intros (q & Hq & ->).
        destruct (firstWithKey ps q) as [x|] eqn:Hx.
        { left. exists q. split; [congruence|done]. }
        case_bool_decide; [|done]. injection Hq as <-. by right.
Qed.

Lemma keyOf_not_private p : userFacingb p = true → Js.startsWith (keyOf p) "_" = false.
Proof.
  unfold userFacingb, keyOf. intros [_ Hp]%andb_prop.
  rewrite toLowerCase_underscore. by destruct (Js.startsWith _ _).
Qed.

(** X11. The thumbnail is appended whenever it is not empty: the loop skips the
    names that start with an underscore, so [seen] never holds [_thumb].
    No two of the attributes have names equal up to case. *)
Theorem passthrough_names_are_distinct l t :
  passthroughAttributes l t = passthroughAttributes l None ++ attributesForType2 t
  ∧ NoDup (map (fun a => Js.toLowerCase (name a)) (passthroughAttributes l t)).
Proof.
  unfold passthroughAttributes, attributesForType2.
  pose proof (passthrough_loop (default [] (li_properties l))) as Hloop.
  destruct (fold_left passthroughStep _ _) as [attrs seen].
  destruct Hloop as (Hseen & Hnd & _ & Hin).
  assert (∀ a, a ∈ attrs → Js.toLowerCase (name a) = keyOf a
                           ∧ Js.startsWith (keyOf a) "_" = false) as Hattrs.
  { intros a (p & Hp & ->)%Hin. apply firstWithKey_Some in Hp as (_ & Hu & _ & _).
    rewrite keyOf_trimmed. split; [done|]. by apply keyOf_not_private. }
  assert (map (fun a => Js.toLowerCase (name a)) attrs = map keyOf attrs) as Hkeys.
  { apply map_ext_in. intros a Ha%list_elem_of_In. by apply Hattrs. }
  assert ("_thumb" ∉ seen) as Hthumb.
  { rewrite Hseen, elem_of_list_to_set. intros (a & Ha & Hina)%list_elem_of_fmap.
    destruct (Hattrs a Hina) as [_ Hpriv]. by rewrite <- Ha in Hpriv. }
  rewrite (bool_decide_eq_false_2 _ Hthumb). cbn [negb].
  destruct t as [t|]; [|by rewrite app_nil_r, Hkeys].
  rewrite andb_true_r.
  destruct (Js.nonEmpty t); [|by rewrite app_nil_r, Hkeys].
  split; [done|]. rewrite map_app, Hkeys. apply NoDup_app. split; [done|].
  split; [|apply NoDup_singleton].
  intros k (a & -> & Hina)%list_elem_of_fmap Hk. cbn [map name] in Hk.
  apply list_elem_of_singleton in Hk.
  destruct (Hattrs a Hina) as [_ Hpriv]. by rewrite Hk in Hpriv.
Qed.

(** X12. The attributes passed through are the user-facing properties, trimmed,
    in the order of the line item; of the properties whose names are equal up
    to case, the first user-facing one is kept. *)
Theorem passthrough_keeps_first_of_each_name l :
  let props := default [] (li_properties l) in
  let attrs := passthroughAttributes l None in
  sublist attrs (map trimmed props)
  ∧ ∀ a, a ∈ attrs ↔ ∃ p, firstWithKey props p = Some p ∧ a = trimmed p.
Proof.
  intros props attrs. subst attrs. unfold passthroughAttributes. fold props.
  pose proof (passthrough_loop props) as Hloop.
  destruct (fold_left passthroughStep _ _) as [attrs seen].
  by destruct Hloop as (_ & _ & Hsub & Hin).
Qed.

End Passthrough.

Section BuilderMore.
Import LineProps Kornitx Shape.

Lemma orUndefined_never_empty x : orUndefined x ≠ Some "".
Proof. unfold orUndefined. by destruct x as [[|c r]|]. Qed.

Lemma quantityOr1_nonzero q : quantityOr1 q ≠ 0.
Proof. unfold quantityOr1. destruct q as [n|]; [|done]. by destruct (Z.eqb_spec n 0). Qed.

Lemma pushItem_itemFor s d c :
  Worker.isPersonalised c = true →
  ∃ item, pushItem s d [] c = [item] ∧ itemFor s d item c.
Proof.
  unfold Worker.isPersonalised, pushItem, itemFor. rewrite worker_hasUserFacingProps.
  destruct (Js.truthy (printJobId (bits c))) eqn:Hjob.
  - intros _. eexists. split; [done|]. cbn.
    split_and!; try done; [apply quantityOr1_nonzero|]. by left.
  - intros Hfacing. rewrite Hfacing.
    pose proof (passthroughAttributes_nonempty _ (thumb (bits c)) Hfacing) as Hne.
    remember (passthroughAttributes (li c) (thumb (bits c))) as attrs eqn:Hattrs.
    destruct attrs as [|a attrs]; [done|].
    cbn [length Nat.ltb Nat.leb]. eexists. split; [done|]. cbn.
    split_and!; try done; [apply quantityOr1_nonzero|]. by right.
Qed.

(** The loop of the builder, over any candidates: one item for each
    personalised candidate, in their order. *)
Lemma pushItem_follows s d cs :
  Forall2 (itemFor s d) (fold_left (pushItem s d) cs []) (Worker.personalisedOf cs).
Proof.
  unfold Worker.personalisedOf.
  induction cs as [|c cs IH]; [constructor|].
  cbn [fold_left]. rewrite fold_pushItem, filter_cons.
  destruct (Worker.isPersonalised c) eqn:Hc.
  - destruct (pushItem_itemFor s d c Hc) as (item & -> & Hitem).
    destruct (decide _) as [_|[]]; [|done]. by constructor.
  - rewrite pushItem_not_personalised by done.
    destruct (decide _) as [[]|_]; done.
Qed.

(** X14. The payload has one item for each personalised candidate, in the order
    of the candidates, and none besides; the item carries the line's id,
    SKU and title, a quantity that is not 0 and the product id that the map
    holds for the normalized SKU, or else the default one; it is of type 2
    with the print job and at most the thumbnail, or of type 5 with the
    attributes passed through, of which there is at least one. *)
Theorem payload_items_follow_candidates opts :
  Forall2 (itemFor (skuToProductId opts) (defaultProductId opts))
    (items (buildKxOrderPayload opts)) (Worker.personalisedOf (candidates opts)).
Proof. unfold buildKxOrderPayload. cbn [items]. apply pushItem_follows. Qed.

(** X15. Past the worker's check of the mappings every item whose SKU is
    not blank carries what the read of the resolved map gives for the SKU,
    trimmed and in lower case, and that is not [undefined]: for a SKU that is
    no name of an inherited member it is the product id that the map holds;
    for [constructor] and [__proto__], when the map holds no product id for
    them, it is the inherited member. *)
Theorem enforced_mapping_gives_product_ids msg secrets m :
  Worker.missingOf m (Worker.personalisedOf (Worker.candidates msg)) = [] →
  Forall (fun item =>
            let normSku := Js.toLowerCase (Js.trim (default "" (sku item))) in
            normSku ≠ "" →
            textual_product_id item = Obj.get m normSku
            ∧ Obj.get m normSku ≠ Obj.Absent
            ∧ (Obj.inherited normSku = false →
               ∃ pid, m !! normSku = Some pid
                      ∧ textual_product_id item = Obj.Own pid))
    (items (Worker.payloadOf msg secrets m)).
Proof.
  intros Hmissing.
  pose proof (pushItem_follows (Some m) None (Worker.candidates msg)) as Hitems.
  change (fold_left _ _ _) with (items (Worker.payloadOf msg secrets m)) in Hitems.
  assert (∀ c, c ∈ Worker.personalisedOf (Worker.candidates msg) →
               normSkuOf (li c) ≠ "" → Obj.get m (normSkuOf (li c)) ≠ Obj.Absent)
    as Hmapped.
  { intros c Hc Hsku Hnone.
    assert (normSkuOf (li c) ∈ Worker.missingOf m
              (Worker.personalisedOf (Worker.candidates msg))) as Hin.
    { apply list_elem_of_filter. split.
      - apply nonEmpty_true in Hsku. by rewrite Hsku, Hnone.
      - apply list_elem_of_fmap. by exists c. }
    rewrite Hmissing in Hin. by apply elem_of_nil in Hin. }
  eapply Forall2_Forall_l; [exact Hitems|].
  apply Forall_forall. intros c Hc item (_ & Hsku & _ & _ & Hpid & _).
  cbn in Hpid. cbv beta zeta. rewrite Hsku. fold (normSkuOf (li c)). intros Hne.
  specialize (Hmapped c Hc Hne).
  assert (textual_product_id item = Obj.get m (normSkuOf (li c))) as Hitem.
  { rewrite Hpid. by destruct (Obj.get m (normSkuOf (li c))). }
  split; [done|]. split; [done|].
  intros Hplain. rewrite Hitem. unfold Obj.get in *.
  destruct (m !! normSkuOf (li c)) as [pid|]; [by exists pid|].
  by rewrite Hplain in Hmapped.
Qed.

Lemma attributesForType2_filled t :
  Forall (fun a => name a ≠ "" ∧ value a ≠ "") (attributesForType2 t).
Proof.
  unfold attributesForType2. destruct t as [t|]; [|constructor].
  destruct (Js.nonEmpty t) eqn:Ht; [|constructor].
  constructor; [|constructor]. split; [done|by apply nonEmpty_true].
Qed.

Lemma passthroughAttributes_filled l t :
  Forall (fun a => name a ≠ "" ∧ value a ≠ "") (passthroughAttributes l t).
Proof.
  unfold passthroughAttributes.
  pose proof (passthrough_loop (default [] (li_properties l))) as Hloop.
  destruct (fold_left passthroughStep _ _) as [attrs seen].
  destruct Hloop as (_ & _ & _ & Hin).
  assert (Forall (fun a => name a ≠ "" ∧ value a ≠ "") attrs) as Hattrs.
  { apply Forall_forall. intros a (p & Hp & ->)%Hin.
    apply firstWithKey_Some in Hp as (_ & Hu & _ & _).
    unfold userFacingb in Hu. apply andb_prop in Hu as [[Hn Hv]%andb_prop _].
    split; by apply nonEmpty_true. }
  destruct t as [t|]; [|done].
  destruct (Js.nonEmpty t) eqn:Ht; cbn [andb]; [|done].
  destruct (negb _); [|done].
  apply Forall_app. split; [done|]. constructor; [|constructor].
  split; [done|by apply nonEmpty_true].
Qed.

(** X13. A built payload sends no empty text where the builder fills a
    field: the reference of the order is never empty; the sale time and a
    customer or shipping field without content are left out, not sent empty;
    and every item has a reference that is not empty, a print job reference
    that is left out or not empty, and attributes whose names and values are
    not empty. (The SKU and the description of an item are the line's, as
    they are.) *)
Theorem payload_has_no_empty_field opts :
  let payload := buildKxOrderPayload opts in
  payload_external_ref payload ≠ ""
  ∧ (∀ calendar : Calendar, SaleTime.saleDatetimeOf (order opts) ≠ Some "")
  ∧ Forall (fun f => f ≠ Some "") (headerFields payload)
  ∧ Forall (fun item =>
              external_ref item ≠ ""
              ∧ print_job_ref item ≠ Some ""
              ∧ Forall (fun a => name a ≠ "" ∧ value a ≠ "") (attributes item))
      (items payload).
Proof.
  intros payload. split; [|split; [|split]].
  2: { intros calendar. unfold SaleTime.saleDatetimeOf, SaleTime.formatUtc.
       destruct (negb _); [done|]. destruct (Date_getTime _); [|done].
       intros [= Hempty]. revert Hempty. apply append_nonEmpty_l, ofNumber_nonEmpty. }
  - cbn. destruct (Js.nonEmpty _) eqn:E; [by apply nonEmpty_true|].
    apply ofNumber_nonEmpty.
  - unfold payload, headerFields, buildKxOrderPayload. cbn.
    repeat (constructor; [apply orUndefined_never_empty|]). constructor.
  - pose proof (pushItem_follows (skuToProductId opts) (defaultProductId opts)
                  (candidates opts)) as Hitems.
    eapply Forall2_Forall_l; [exact Hitems|].
    apply Forall_forall. intros c _ item (Href & _ & _ & _ & _ & Hkind).
    split; [rewrite Href; apply ofNumber_nonEmpty|].
    destruct Hkind as [(Hjob & _ & Hprint & Hattrs)|(_ & _ & Hprint & Hattrs & _)].
    + split.
      * rewrite Hprint. intros Hempty. by rewrite Hempty in Hjob.
      * rewrite Hattrs. apply attributesForType2_filled.
    + split; [by rewrite Hprint|].
      rewrite Hattrs. apply passthroughAttributes_filled.
Qed.

End BuilderMore.

(** * The worker, once more *)

Section Only.
Context {Env : Type}.

Lemma only_ret P {A} (a : A) : addsOnly P (@ret Env A a).
Proof. intros w r w' [= <- <-]. exists []. by rewrite app_nil_r. Qed.

Lemma only_throw P {A} e : addsOnly P (@throw Env A e).
Proof. intros w r w' [= <- <-]. exists []. by rewrite app_nil_r. Qed.

Lemma only_call (P : event → Prop) {A} ev (f : Env → res A * Env) :
  P ev → addsOnly P (call ev f).
Proof.
  intros Hev w r w'. unfold call. destruct (f (env w)) as [r0 e'].
  intros [= <- <-]. exists [ev]. split; [done|]. by constructor.
Qed.

Lemma only_bind P {A B} (m : M Env A) (k : A → M Env B) :
  addsOnly P m → (∀ a, addsOnly P (k a)) → addsOnly P (bind m k).
Proof.
  intros Hm Hk w r w'. unfold bind.
  destruct (m w) as [[a|e] w1] eqn:Hrun; destruct (Hm _ _ _ Hrun) as (evs1 & Ht1 & Hp1).
  - intros (evs2 & Ht2 & Hp2)%Hk. exists (evs1 ++ evs2).
    rewrite Ht2, Ht1, app_assoc. split; [done|]. by apply Forall_app.
  - intros [= <- <-]. by exists evs1.
Qed.

Lemma only_tryCatch P {A} (m : M Env A) (h : exn → M Env A) :
  addsOnly P m → (∀ e, addsOnly P (h e)) → addsOnly P (tryCatch m h).
Proof.
  intros Hm Hh w r w'. unfold tryCatch.
  destruct (m w) as [[a|e] w1] eqn:Hrun; destruct (Hm _ _ _ Hrun) as (evs1 & Ht1 & Hp1).
  - intros [= <- <-]. by exists evs1.
  - intros (evs2 & Ht2 & Hp2)%Hh. exists (evs1 ++ evs2).
    rewrite Ht2, Ht1, app_assoc. split; [done|]. by apply Forall_app.
Qed.

End Only.

Section Submission.
Import Worker Posted.
Context {Env : Type} `{Scheduler Env} `{Collaborators Env}.

Lemma random_only P : addsOnly P random.
Proof.
  intros w r w'. unfold random. destruct (mathRandom (env w)).
  intros [= <- <-]. exists []. by rewrite app_nil_r.
Qed.

(** A call of [postKornitXOrder] makes one request, the one for the payload,
    whatever comes of it. *)
Lemma postKornitXOrder_once baseUrl secrets payload w r w' :
  postKornitXOrder baseUrl (kxCompanyRefId secrets) (kxApiKey secrets) payload w = (r, w') →
  ∃ request, trace w' = trace w ++ [Fetch request] ∧ requestFor secrets payload request.
Proof.
  unfold postKornitXOrder, bind, call.
  destruct (fetch _ (env w)) as [[res|e] e1].
  - set (request := {| url := _; authorization := _; body := _ |}).
    intros Hrun. exists request. split.
    + destruct (negb (ok res)); [by injection Hrun as <- <-|].
      destruct (resp_json res); by injection Hrun as <- <-.
    + split; [done|]. split; [done|].
      exists (default "https://api-sl-2-2.kornitx.net" (Kornitx.orUndefined baseUrl)).
      split; [|done]. unfold Kornitx.orUndefined.
      destruct baseUrl as [[|c s]|]; done.
  - set (request := {| url := _; authorization := _; body := _ |}).
    intros [= <- <-]. exists request. split; [done|].
    split; [done|]. split; [done|].
    exists (default "https://api-sl-2-2.kornitx.net" (Kornitx.orUndefined baseUrl)).
    split; [|done]. unfold Kornitx.orUndefined.
    destruct baseUrl as [[|c s]|]; done.
Qed.

(** The delay before a retry is computed without a call that is traced. *)
Lemma delay_run (jit : bool) backoff (w : World Env) :
  ∃ delay e',
    (if jit then r <- random ;; ret (jittered backoff r) else ret backoff) w
    = (Ok delay, {| env := e'; trace := trace w |}).
Proof.
  destruct jit.
  - unfold bind, random, ret. destruct (mathRandom (env w)) as [q e']. by eexists _, _.
  - exists backoff, (env w). by destruct w.
Qed.

(** The retried post: what it adds to the trace. *)
Lemma retryLoop_submission secrets payload n base cap jit todo lastErr w r w' :
  retryLoop
    (fun w => postKornitXOrder (KX_BASE_URL (env w)) (kxCompanyRefId secrets)
                (kxApiKey secrets) payload w)
    n base cap jit (Some (fun _ _ => console "warn" "KX post failed; will retry"))
    todo lastErr w = (r, w') →
  ∃ evs, trace w' = trace w ++ evs
         ∧ Forall (ofSubmission secrets payload) evs
         ∧ (length (fetchesOf evs) <= length todo)%nat
         ∧ (todo ≠ [] → (1 <= length (fetchesOf evs))%nat).
Proof.
  revert lastErr w r w'.
  induction todo as [|attempt rest IH]; intros lastErr w r w'; cbn [retryLoop].
  - intros [= <- <-]. exists []. rewrite app_nil_r.
    split; [done|]. split; [done|]. split; [cbn; lia|done].
  - unfold tryCatch.
    destruct (postKornitXOrder _ _ _ _ w) as [[v|err] w1] eqn:Hpost;
      destruct (postKornitXOrder_once _ _ _ _ _ _ Hpost) as (request & Ht1 & Hreq).
    + intros [= <- <-]. exists [Fetch request].
      split; [done|]. split; [by constructor|]. cbn. lia.
    + unfold bind at 1, console, call at 1.
      destruct (attempt =? n).
      { intros [= <- <-]. cbn [trace].
        exists [Fetch request; Console "warn" "KX post failed; will retry"].
        split; [by rewrite Ht1, <- app_assoc|].
        split; [constructor; [exact Hreq|constructor; [done|constructor]]|]. cbn. lia. }
      unfold bind at 1.
      match goal with
      | |- context [(if jit then ?a else ?b) ?W] =>
          destruct (delay_run jit (backoffOf base cap attempt) W) as (delay & e2 & Hdelay)
      end.
      rewrite Hdelay.
      unfold bind at 1, sleep, call at 1.
      intros (evs & Ht & Hp & Hlen & _)%IH. cbn [trace] in Ht.
      exists ([Fetch request; Console "warn" "KX post failed; will retry";
               SetTimeout delay] ++ evs).
      split; [rewrite Ht, Ht1, <- !app_assoc; done|].
      split; [constructor; [exact Hreq|constructor; [done|constructor; [done|done]]]|].
      unfold fetchesOf in *. cbn. cbn in Hlen. lia.
Qed.

(** X16. The retried submission of the worker posts at least once and at
    most five times; every post is the request for the built payload, with
    the credentials of the client, and between the posts there are only
    timers and warnings. *)
Theorem submission_posts_the_payload secrets payload w r w' :
  submit secrets payload w = (r, w') →
  ∃ evs, trace w' = trace w ++ evs
         ∧ Forall (ofSubmission secrets payload) evs
         ∧ (1 <= length (fetchesOf evs) <= 5)%nat.
Proof.
  unfold submit, withRetry. cbn [mbind option_bind default retryOptions
    attempts baseMs maxMs jitter onRetry].
  change (seqZ 1 5) with [1; 2; 3; 4; 5].
  intros (evs & Ht & Hp & Hlen & Hone)%retryLoop_submission.
  exists evs. split; [done|]. split; [done|]. split; [by apply Hone|done].
Qed.

(** A submission reads no table. *)
Lemma submit_reads_no_table secrets payload :
  addsOnly (fun ev => match ev with Fetch _ | SetTimeout _ | Console _ _ => True | _ => False end)
    (submit secrets payload).
Proof.
  unfold submit, withRetry. cbn [mbind option_bind default retryOptions
    attempts baseMs maxMs jitter onRetry].
  intros w r w' (evs & Ht & Hp & _)%retryLoop_submission.
  exists evs. split; [done|]. eapply Forall_impl; [exact Hp|].
  by intros [].
Qed.


End Submission.

Section WorkerPaths.
Import LineProps Worker.
Context {Env : Type} `{Scheduler Env} `{Collaborators Env}.

Lemma markProcessed_run msg (w : World Env) :
  markProcessed (shopDomain msg) (order_id (order msg)) (externalIdOf (order msg)) w
  = ((ddbPutProcessed (ledgerItem msg (nowISO (env w))) (env w)).1,
     {| env := (ddbPutProcessed (ledgerItem msg (nowISO (env w))) (env w)).2;
        trace := trace w ++ [PutProcessed (ledgerItem msg (nowISO (env w)))] |}).
Proof.
  unfold markProcessed, call, ledgerItem. by destruct (ddbPutProcessed _ _).
Qed.

Section ResolvedPaths.
Variables (msg : Message) (w w1 w2 w3 w4 : World Env).
Variables (client : Client) (secrets : ClientSecrets) (skuToProductId : gmap string Z).

Hypothesis not_processed :
  isProcessed (shopDomain msg) (order_id (order msg)) w = (Ok false, w1).
Hypothesis client_found : getClientBySlug (slug msg) w1 = (Ok (Some client), w2).
Hypothesis secrets_read : getClientSecrets (secretName msg) w2 = (Ok secrets, w3).
Hypothesis map_resolved :
  getProductIdsForSkus (slug msg) (skusOf (candidates msg)) w3
  = (Ok skuToProductId, w4).

(** X17. When the run reaches the submission and the retried post is answered,
    the order is put into the processed-orders table, once, under the key of
    shop and order and with the reference of the posted payload; nothing is
    posted after the put. The run returns when the put does, and throws the
    error of the put otherwise. *)
Theorem answered_submission_marks_the_order (resp : json) (w5 : World Env) :
  missingOf skuToProductId (personalisedOf (candidates msg)) = [] →
  Kornitx.items (payloadOf msg secrets skuToProductId) ≠ [] →
  submit secrets (payloadOf msg secrets skuToProductId) w4 = (Ok resp, w5) →
  let item := ledgerItem msg (nowISO (env w5)) in
  let '(put, e6) := ddbPutProcessed item (env w5) in
  let '(r, w') := processRecord msg w in
  kxExternalId item
  = Kornitx.payload_external_ref (payloadOf msg secrets skuToProductId)
  ∧ env w' = e6
  ∧ putsOf (trace w') = putsOf (trace w) ++ [item]
  ∧ fetchesOf (trace w') = fetchesOf (trace w5)
  ∧ match put with
    | Ok _ =>
        r = Ok tt
        ∧ trace w' = trace w5 ++ [PutProcessed item; Console "log" "KX order created"]
    | Throw e =>
        r = Throw e
        ∧ trace w'
          = trace w5 ++ [PutProcessed item; Console "error" "Worker fatal error; will retry"]
    end.
Proof.
  intros Hmissing Hitems Hsubmit item.
  pose proof (items_need_personalised _ _ _ Hitems) as Hpers.
  rewrite (processRecord_resolved msg w w1 w2 w3 w4 client secrets skuToProductId) by done.
  unfold tryCatch. cbv zeta. rewrite Hmissing.
  destruct (personalisedOf (candidates msg)) as [|c0 cs0]; [done|].
  destruct (Kornitx.items _) as [|i0 is0]; [done|].
  cbn [length Nat.eqb Nat.ltb Nat.leb]. unfold bind at 1. rewrite Hsubmit.
  unfold bind at 1. rewrite markProcessed_run. fold item.
  pose proof (adds_no_put _ _ _ _ (submit_notPut _ _) Hsubmit) as Hputs.
  destruct (resolved_silently msg w w1 w2 w3 w4 client secrets skuToProductId)
    as [_ Hp4]; [done..|].
  destruct (ddbPutProcessed item (env w5)) as [[[]|e] e6]; cbn.
  all: rewrite <- ?app_assoc, !putsOf_app, !fetchesOf_app; cbn;
    rewrite ?app_nil_r, Hputs, Hp4; by split_and!.
Qed.


End ResolvedPaths.

(** A record of a client that the clients table does not hold fails with
    [Client not found]: the secret is not read, nothing is posted and
    nothing is put. *)
Lemma unknown_client_fails_the_message msg (w w1 w2 : World Env) :
  isProcessed (shopDomain msg) (order_id (order msg)) w = (Ok false, w1) →
  getClientBySlug (slug msg) w1 = (Ok None, w2) →
  processRecord msg w
  = (Throw (Error "Client not found"),
     {| env := env w2;
        trace := trace w
                 ++ [GetProcessed (shopDomain msg +:+ "#" +:+ Js.ofNumber (order_id (order msg)));
                     GetClient (slug msg);
                     Console "error" "Client not found at worker";
                     Console "error" "Worker fatal error; will retry"] |}).
Proof.
  intros Hcheck Hclient. unfold processRecord, tryCatch.
  unfold bind at 1. rewrite Hcheck. unfold bind at 1. rewrite Hclient. cbn.
  f_equal. f_equal.
  unfold isProcessed, bind, call, ret in Hcheck.
  destruct (ddbGetProcessed _ _) as [[item|e] e1]; [|done].
  injection Hcheck as _ <-. cbn in Hclient.
  unfold getClientBySlug, call in Hclient. cbn in Hclient.
  destruct (ddbGetClient _ _) as [rc e2]. injection Hclient as _ <-. cbn.
  by rewrite <- !app_assoc.
Qed.

(** X19. A record that fails ends the invocation with its error: the records
    before it have been worked off, the records after it are not touched. *)
Theorem failing_record_ends_the_invocation before msg after (w w1 w2 : World Env) e :
  handler before w = (Ok tt, w1) →
  processRecord msg w1 = (Throw e, w2) →
  handler (before ++ msg :: after) w = (Throw e, w2).
Proof.
  revert w. induction before as [|m rest IH]; intros w; cbn [app handler].
  - intros [= <-] Hfail. unfold bind. by rewrite Hfail.
  - unfold bind. destruct (processRecord m w) as [[[]|e0] w0]; [|done].
    intros Hrest Hfail. by apply IH.
Qed.

End WorkerPaths.

Section SkuMap.
Import LineProps Worker Requested.
Context {Env : Type} `{Scheduler Env} `{Collaborators Env}.

Lemma distinct_spec seen xs :
  NoDup (distinct seen xs) ∧ ∀ x, x ∈ distinct seen xs ↔ x ∈ xs ∧ x ∉ seen.
Proof.
  revert seen. induction xs as [|y ys IH]; intros seen; cbn [distinct].
  - split; [apply NoDup_nil_2|]. intros x. rewrite elem_of_nil. tauto.
  - case_bool_decide as Hy.
    + destruct (IH seen) as [Hnd Hin]. split; [done|].
      intros x. rewrite Hin, elem_of_cons. split; [tauto|].
      intros [[->|?] ?]; tauto.
    + destruct (IH ({[y]} ∪ seen)) as [Hnd Hin]. split.
      * apply NoDup_cons. split; [|done]. rewrite Hin.
        intros [_ Hno]. apply Hno, elem_of_union_l, elem_of_singleton. done.
      * intros x. rewrite !elem_of_cons, Hin, not_elem_of_union, not_elem_of_singleton.
        destruct (decide (x = y)) as [->|]; tauto.
Qed.

Lemma toLowerCase_nonEmpty s : Js.toLowerCase s = "" ↔ s = "".
Proof. by destruct s. Qed.

(** The SKUs that the worker passes on are trimmed and not empty. *)
Lemma skusOf_spec cands s :
  s ∈ skusOf cands ↔
  s ≠ "" ∧ ∃ c, c ∈ cands ∧ s = Js.trim (default "" (li_sku (li c))).
Proof.
  unfold skusOf. rewrite list_elem_of_filter, list_elem_of_fmap, Is_true_true, nonEmpty_true.
  split; intros [Hs (c & Hc & Hin)]; (split; [done|]); by exists c.
Qed.

Lemma filter_nonEmpty_skusOf cands :
  filter (fun s => Is_true (Js.nonEmpty s)) (skusOf cands) = skusOf cands.
Proof.
  unfold skusOf. generalize (map (fun c => Js.trim (default "" (li_sku (li c)))) cands).
  intros xs. induction xs as [|x xs IH]; [done|].
  rewrite filter_cons. destruct (decide _) as [Hx|Hx]; [|done].
  rewrite filter_cons. destruct (decide _) as [_|[]]; [|done]. by rewrite IH.
Qed.

Lemma getProductIdsForSkus_request msg :
  addsOnly (skuRequestOf msg)
    (getProductIdsForSkus (slug msg) (skusOf (candidates msg))).
Proof.
  unfold getProductIdsForSkus. rewrite filter_nonEmpty_skusOf.
  set (normalized := distinct ∅ _).
  destruct (length normalized =? 0)%nat eqn:Hlen; [apply only_ret|].
  apply only_bind; [|intros; apply only_ret].
  apply only_call. intros keys [= <-].
  destruct (distinct_spec ∅ (map (fun s => Js.toLowerCase (Js.trim s))
                               (skusOf (candidates msg)))) as [Hnd Hin].
  fold normalized in Hnd, Hin.
  split; [|split; [|split]].
  - apply NoDup_fmap_2; [|done]. by intros x y [= ->].
  - destruct normalized; [done|]. done.
  - apply Forall_forall. intros k (n & -> & Hn)%list_elem_of_fmap. cbn.
    apply Hin in Hn as [(s & -> & (Hs & c & Hc & ->)%skusOf_spec)%list_elem_of_fmap _].
    rewrite trim_twice in *. split; [done|].
    split; [by rewrite toLowerCase_nonEmpty|].
    split; [apply toLowerCase_twice|].
    by rewrite <- toLowerCase_trim, trim_twice.
  - intros c Hc Hsku. apply list_elem_of_fmap. exists (Kornitx.normSkuOf (li c)).
    split; [done|]. apply Hin. split; [|apply not_elem_of_empty].
    apply list_elem_of_fmap. exists (Js.trim (default "" (li_sku (li c)))).
    split; [by rewrite trim_twice|].
    apply skusOf_spec. split; [|by exists c].
    unfold Kornitx.normSkuOf in Hsku. by rewrite toLowerCase_nonEmpty in Hsku.
Qed.

(** X20. In a run for a record every read of the SKU map asks for the SKU of each
    candidate as the builder will look it up, trimmed and in lower case;
    it asks for no SKU twice and for no empty SKU. *)
Theorem record_requests_the_skus_it_looks_up msg :
  addsOnly (skuRequestOf msg) (processRecord msg).
Proof.
  assert (∀ level message, addsOnly (skuRequestOf msg) (@console Env level message))
    as Hconsole by (intros; by apply only_call).
  assert (addsOnly (skuRequestOf msg)
            (markProcessed (shopDomain msg) (order_id (order msg))
               (externalIdOf (order msg)))) as Hmark.
  { intros w r w'. unfold markProcessed. by apply only_call. }
  unfold processRecord.
  apply only_tryCatch; [|intros; apply only_bind; [done|intros; apply only_throw]].
  apply only_bind.
  { apply only_bind; [by apply only_call|intros; apply only_ret]. }
  intros [|]; [done|].
  apply only_bind; [by apply only_call|]. intros [client|].
  2: { apply only_bind; [done|intros; apply only_throw]. }
  apply only_bind; [by apply only_call|]. intros secrets.
  apply only_bind; [apply getProductIdsForSkus_request|]. intros m.
  cbv zeta. destruct (_ =? _)%nat; [by apply only_bind|].
  destruct (_ <? _)%nat; [apply only_bind; [done|intros; apply only_throw]|].
  destruct (_ =? _)%nat; [by apply only_bind|].
  apply only_bind.
  { intros w r w' (evs & Ht & Hp)%submit_reads_no_table.
    exists evs. split; [done|]. eapply Forall_impl; [exact Hp|].
    intros ev Hev keys ->. done. }
  intros. by apply only_bind.
Qed.

End SkuMap.

Section InMemorySkuMap.
Import InMemory.

Lemma recordSku_proto acc item : recordSku acc item !! "__proto__" = acc !! "__proto__".
Proof.
  unfold recordSku. destruct (toNumber _) as [n|]; [|done].
  destruct (_ && _); [|done]. unfold Obj.set. case_bool_decide; [done|].
  by rewrite lookup_insert_ne.
Qed.

Lemma fold_recordSku_proto items acc :
  fold_left recordSku items acc !! "__proto__" = acc !! "__proto__".
Proof.
  revert acc. induction items as [|item items IH]; intros acc; [done|].
  cbn [fold_left]. by rewrite IH, recordSku_proto.
Qed.

Lemma fold_recordSku (store : Store) slug ns acc n :
  Forall (fun x => Js.toLowerCase x = x) ns → n ≠ "" → n ≠ "__proto__" →
  fold_left recordSku (batchGet (map (fun s => (slug, s)) ns) store) acc !! n
  = match (if bool_decide (n ∈ ns) then storedProduct store slug n else None) with
    | Some pid => Some pid
    | None => acc !! n
    end.
Proof.
  intros Hlow Hn Hproto. revert acc.
  induction Hlow as [|x ns Hx _ IH]; intros acc; [done|].
  unfold batchGet. cbn [map omap list_omap]. fold (batchGet (map (fun s => (slug, s)) ns) store).
  cbn [snd]. unfold storedProduct in *.
  destruct (decide (n = x)) as [->|Hnx].
  - rewrite (bool_decide_eq_true_2 (x ∈ x :: ns)) by apply list_elem_of_here.
    destruct (skuMap store !! (slug, x)) as [pid|] eqn:Hpid;
      cbn [fmap option_fmap option_map mbind option_bind].
    + cbn [fold_left]. rewrite IH. cbn [mbind option_bind].
      unfold recordSku. cbn [item_sku item_product_id toNumber default].
      change (id x) with x. rewrite Hx.
      apply nonEmpty_true in Hn. rewrite Hn. cbn [andb].
      destruct (Js.isFinite pid).
      * unfold Obj.set. rewrite (bool_decide_eq_false_2 (x = "__proto__")) by done.
        rewrite lookup_insert_eq. by destruct (bool_decide (x ∈ ns)).
      * by destruct (bool_decide (x ∈ ns)).
    + rewrite IH. cbn [mbind option_bind]. by destruct (bool_decide (x ∈ ns)).
  - assert (bool_decide (n ∈ x :: ns) = bool_decide (n ∈ ns)) as ->.
    { apply bool_decide_ext. rewrite elem_of_cons. tauto. }
    destruct (skuMap store !! (slug, x)) as [pid|]; cbn [fmap option_fmap option_map].
    + cbn [fold_left]. rewrite IH.
      destruct (if bool_decide (n ∈ ns) then _ else _); [done|].
      unfold recordSku. cbn [item_sku item_product_id toNumber default].
      change (id x) with x. rewrite Hx.
      destruct (_ && _); [|done]. unfold Obj.set. case_bool_decide; [done|].
      by rewrite lookup_insert_ne.
    + by rewrite IH.
Qed.

(** X21. On tables in memory: a SKU on a line item is resolved to the
    product id that the SKU map holds for the client and the SKU, trimmed
    and in lower case, whatever the case and the white space around it on the
    line; a product id that is not a finite number is left out. Under the
    name [__proto__] the map never has an entry of its own. *)
Theorem stored_sku_is_found_for_every_variant (store : Store) evs slug skus raw :
  raw ∈ skus →
  Js.toLowerCase (Js.trim raw) ≠ "" →
  ∃ m, getProductIdsForSkus slug skus {| env := store; trace := evs |}
       = (Ok m, {| env := store;
                   trace := evs ++ [BatchGetSkuMap
                     (map (fun s => (slug, s))
                        (distinct ∅ (map (fun s => Js.toLowerCase (Js.trim s))
                                       (filter (fun s => Is_true (Js.nonEmpty s)) skus))))] |})
    ∧ m !! "__proto__" = None
    ∧ (Js.toLowerCase (Js.trim raw) ≠ "__proto__" →
       m !! Js.toLowerCase (Js.trim raw)
       = storedProduct store slug (Js.toLowerCase (Js.trim raw))).
Proof.
  intros Hraw Hn. unfold getProductIdsForSkus.
  set (normalized := distinct ∅ _).
  destruct (distinct_spec ∅ (map (fun s => Js.toLowerCase (Js.trim s))
              (filter (fun s => Is_true (Js.nonEmpty s)) skus))) as [_ Hin].
  fold normalized in Hin.
  assert (Js.toLowerCase (Js.trim raw) ∈ normalized) as Hnorm.
  { apply Hin. split; [|apply not_elem_of_empty]. apply list_elem_of_fmap.
    exists raw. split; [done|]. apply list_elem_of_filter. split; [|done].
    apply Is_true_true, nonEmpty_true. intros ->. done. }
  destruct normalized as [|n0 ns] eqn:Hns; [by apply elem_of_nil in Hnorm|].
  cbn [length Nat.eqb]. rewrite <- Hns in *. unfold bind, call, ret. cbn.
  eexists. split; [done|]. split; [by rewrite fold_recordSku_proto|].
  intros Hproto. rewrite fold_recordSku; [|..|done|done].
  - rewrite bool_decide_eq_true_2 by done. by destruct (storedProduct _ _ _).
  - apply Forall_forall. intros x [(s & -> & _)%list_elem_of_fmap _]%Hin.
    apply toLowerCase_twice.
Qed.

End InMemorySkuMap.

Section Acknowledged.
Import Worker.
Context {Env : Type} `{Scheduler Env} `{Collaborators Env}.

(** How a run for a record comes to return: it has found the order in the
    processed-orders table, or it has marked the order and, at most, written
    a log line after that. *)
Lemma returned_run_cases msg (w w' : World Env) :
  processRecord msg w = (Ok tt, w') →
  (∃ item,
     ddbGetProcessed (shopDomain msg +:+ "#" +:+ Js.ofNumber (order_id (order msg)))
       (env w) = (Ok (Some item), env w'))
  ∨ (∃ w5 w6,
       markProcessed (shopDomain msg) (order_id (order msg)) (externalIdOf (order msg)) w5
       = (Ok tt, w6)
       ∧ env w' = env w6).
Proof.
  unfold processRecord, tryCatch.
  match goal with |- context [match ?body w with _ => _ end] =>
    destruct (body w) as [[[]|e] w0] eqn:Hbody end.
  2: { unfold bind, console, call, throw. by cbn. }
  intros [= <-]. revert Hbody.
  unfold bind at 1. unfold isProcessed at 1, bind at 1, call at 1, ret.
  destruct (ddbGetProcessed _ (env w)) as [[[item|]|e] e1] eqn:Hget; [| |done].
  { rewrite bool_decide_eq_true_2 by done. unfold console, call. cbn.
    intros [= <-]. left. by exists item. }
  rewrite bool_decide_eq_false_2 by (by intros [? ?]).
  unfold bind at 1.
  destruct (getClientBySlug _ _) as [[[client|]|e] w2]; [| |done].
  2: { unfold bind, console, call, throw. by cbn. }
  unfold bind at 1. destruct (getClientSecrets _ _) as [[secrets|e] w3]; [|done].
  unfold bind at 1. destruct (getProductIdsForSkus _ _ _) as [[m|e] w4]; [|done].
  cbv zeta.
  destruct (length (personalisedOf (candidates msg)) =? 0)%nat.
  { unfold bind at 1, console, call at 1. cbn [fst snd]. intros Hm. right.
    by eexists _, _. }
  destruct (0 <? length (missingOf m (personalisedOf (candidates msg))))%nat.
  { unfold bind, console, call, throw. by cbn. }
  destruct (length (Kornitx.items (payloadOf msg secrets m)) =? 0)%nat.
  { unfold bind at 1, console, call at 1. cbn [fst snd]. intros Hm. right.
    by eexists _, _. }
  unfold bind at 1. destruct (submit _ _ _) as [[resp|e] w5]; [|done].
  unfold bind at 1.
  destruct (markProcessed _ _ _ w5) as [[[]|e] w6] eqn:Hm; [|done].
  unfold console, call. cbn. intros [= <-]. right. by exists w5, w6.
Qed.

(** X22. A run for a record returns only when the order is in the
    processed-orders table: it has found the order there, or its put of the
    order has returned and nothing has reached the collaborators after it. *)
Theorem returned_run_found_or_put_the_order msg (w w' : World Env) :
  processRecord msg w = (Ok tt, w') →
  (∃ item,
     ddbGetProcessed (shopDomain msg +:+ "#" +:+ Js.ofNumber (order_id (order msg)))
       (env w) = (Ok (Some item), env w'))
  ∨ (∃ e5, ddbPutProcessed (ledgerItem msg (nowISO e5)) e5 = (Ok tt, env w')).
Proof.
  intros [Hfound|(w5 & w6 & Hmark & ->)]%returned_run_cases; [by left|right].
  rewrite markProcessed_run in Hmark.
  destruct (ddbPutProcessed _ (env w5)) as [put e6] eqn:Hput.
  cbn in Hmark. injection Hmark as -> <-. by exists (env w5).
Qed.

End Acknowledged.

Section InMemoryLedger.
Import InMemory Worker.


(** On tables in memory: a run for a record that returns leaves the order
    in the processed-orders table. *)
Lemma returned_run_has_marked msg (w : World Store) w' :
  processRecord msg w = (Ok tt, w') →
  is_Some (processed (env w')
             !! (shopDomain msg +:+ "#" +:+ Js.ofNumber (order_id (order msg)))).
Proof.
  intros [[item Hfound]|(w5 & w6 & Hmark & ->)]%returned_run_cases.
  - cbn in Hfound. injection Hfound as Hitem <-. by rewrite Hitem.
  - unfold markProcessed, call in Hmark. cbn in Hmark. injection Hmark as <-.
    cbn. by rewrite lookup_insert_eq.
Qed.

(** X23. On tables in memory: a record whose run has returned is a no-op when it
    is delivered again: the second run reads the processed-orders table,
    writes a log line and returns; it posts nothing and puts nothing. *)
Theorem redelivery_after_success_is_a_no_op msg (w w' : World Store) :
  processRecord msg w = (Ok tt, w') →
  processRecord msg w'
  = (Ok tt,
     {| env := env w';
        trace := trace w'
                 ++ [GetProcessed (shopDomain msg +:+ "#" +:+ Js.ofNumber (order_id (order msg)));
                     Console "log" "Order already processed; skipping"] |}).
Proof.
  intros [item Hitem]%returned_run_has_marked.
  unfold processRecord, tryCatch.
  unfold bind at 1, isProcessed, shopOrderKeyOf, idText, bind at 1, call at 1, ret.
  remember (shopDomain msg +:+ "#" +:+ Js.ofNumber (order_id (order msg))) as key.
  cbn. rewrite Hitem. rewrite bool_decide_eq_true_2 by done. cbn.
  by rewrite <- app_assoc.
Qed.

End InMemoryLedger.

(** * The time a record waits *)

Section Waits.
Context {Env : Type}.

Lemma totalWait_app evs1 evs2 : totalWait (evs1 ++ evs2) = totalWait evs1 + totalWait evs2.
Proof.
  unfold totalWait. induction evs1 as [|ev evs1 IH]; [done|].
  cbn [app map foldr]. rewrite IH. lia.
Qed.

Lemma waits_le (n n' : Z) {A} (m : M Env A) : n ≤ n' → waitsAtMost n m → waitsAtMost n' m.
Proof.
  intros Hle Hm w r w' (evs & Ht & Hp & Hn)%Hm. exists evs. split; [done|].
  split; [done|lia].
Qed.

Lemma waits_ret n {A} (a : A) : 0 ≤ n → waitsAtMost n (@ret Env A a).
Proof.
  intros Hn w r w' [= <- <-]. exists []. rewrite app_nil_r. split; [done|].
  split; [constructor|done].
Qed.

Lemma waits_throw n {A} e : 0 ≤ n → waitsAtMost n (@throw Env A e).
Proof.
  intros Hn w r w' [= <- <-]. exists []. rewrite app_nil_r. split; [done|].
  split; [constructor|done].
Qed.

Lemma waits_call n {A} ev (f : Env → res A * Env) :
  0 ≤ waitOf ev ≤ n → waitsAtMost n (call ev f).
Proof.
  intros Hev w r w'. unfold call. destruct (f (env w)) as [r0 e'].
  intros [= <- <-]. exists [ev]. split; [done|].
  split; [constructor; [lia|constructor]|]. unfold totalWait. cbn. lia.
Qed.

Lemma waits_bind (n1 n2 : Z) {A B} (m : M Env A) (k : A → M Env B) :
  0 ≤ n2 → waitsAtMost n1 m → (∀ a, waitsAtMost n2 (k a)) →
  waitsAtMost (n1 + n2) (bind m k).
Proof.
  intros Hn2 Hm Hk w r w'. unfold bind.
  destruct (m w) as [[a|e] w1] eqn:Hrun; destruct (Hm _ _ _ Hrun) as (evs1 & Ht1 & Hp1 & Hn1).
  - intros (evs2 & Ht2 & Hp2 & Hn2')%Hk. exists (evs1 ++ evs2).
    rewrite Ht2, Ht1, app_assoc, totalWait_app. split; [done|].
    split; [by apply Forall_app|lia].
  - intros [= <- <-]. exists evs1. split; [done|]. split; [done|lia].
Qed.

Lemma waits_tryCatch (n1 n2 : Z) {A} (m : M Env A) (h : exn → M Env A) :
  0 ≤ n2 → waitsAtMost n1 m → (∀ e, waitsAtMost n2 (h e)) →
  waitsAtMost (n1 + n2) (tryCatch m h).
Proof.
  intros Hn2 Hm Hh w r w'. unfold tryCatch.
  destruct (m w) as [[a|e] w1] eqn:Hrun; destruct (Hm _ _ _ Hrun) as (evs1 & Ht1 & Hp1 & Hn1).
  - intros [= <- <-]. exists evs1. split; [done|]. split; [done|lia].
  - intros (evs2 & Ht2 & Hp2 & Hn2')%Hh. exists (evs1 ++ evs2).
    rewrite Ht2, Ht1, app_assoc, totalWait_app. split; [done|].
    split; [by apply Forall_app|lia].
Qed.

End Waits.

Section RetryWaits.
Import Worker.
Context {Env : Type} `{Scheduler Env} `{Collaborators Env}.

(** [Math.random] returns a number from 0 up to, not including, 1. *)
Hypothesis random_range : ∀ e : Env, (0 <= (mathRandom e).1)%Q ∧ ((mathRandom e).1 < 1)%Q.

Lemma backoffOf_nonneg base cap a : 0 ≤ base → 0 ≤ cap → 0 ≤ backoffOf base cap a.
Proof.
  intros Hb Hc. unfold backoffOf. apply Z.min_glb; [done|].
  apply Z.mul_nonneg_nonneg; [done|]. apply Z.pow_nonneg. lia.
Qed.

Lemma backoffsOf_nonneg n base cap todo : 0 ≤ base → 0 ≤ cap → 0 ≤ backoffsOf n base cap todo.
Proof.
  intros Hb Hc. induction todo as [|a rest IH]; [done|]. cbn [backoffsOf foldr].
  fold (backoffsOf n base cap rest). pose proof (backoffOf_nonneg base cap a Hb Hc).
  destruct (a =? n); lia.
Qed.

Lemma backoffOf_le_cap base cap a : backoffOf base cap a ≤ cap.
Proof. unfold backoffOf. lia. Qed.

Lemma retryLoop_waits {T} (fn : M Env T) n base cap jit observer todo lastErr :
  0 ≤ base → 0 ≤ cap < 2 ^ 53 →
  waitsAtMost 0 fn →
  (∀ observe, observer = Some observe → ∀ err k, waitsAtMost 0 (observe err k)) →
  waitsAtMost (backoffsOf n base cap todo)
    (retryLoop fn n base cap jit observer todo lastErr).
Proof.
  intros Hb [Hc Hc53] Hfn Hobs. revert lastErr.
  induction todo as [|attempt rest IH]; intros lastErr; cbn [retryLoop].
  - by apply waits_throw.
  - pose proof (backoffsOf_nonneg n base cap rest Hb Hc) as Hrest.
    pose proof (backoffOf_nonneg base cap attempt Hb Hc) as Hbackoff.
    cbn [backoffsOf foldr]. fold (backoffsOf n base cap rest).
    apply (waits_le (0 + ((if attempt =? n then 0 else backoffOf base cap attempt)
                          + backoffsOf n base cap rest))); [lia|].
    apply waits_tryCatch; [destruct (attempt =? n); lia|done|]. intros err.
    apply (waits_le (0 + ((if attempt =? n then 0 else backoffOf base cap attempt)
                          + backoffsOf n base cap rest))); [lia|].
    apply waits_bind; [destruct (attempt =? n); lia| |].
    { destruct observer as [observe|]; [by apply Hobs|by apply waits_ret]. }
    intros _. destruct (attempt =? n); [apply waits_throw; lia|].
    intros w r w'. unfold bind at 1.
    assert (∃ delay e2, 0 ≤ delay ≤ backoffOf base cap attempt
              ∧ (if jit then r <- random ;; ret (jittered (backoffOf base cap attempt) r)
                 else ret (backoffOf base cap attempt)) w
                = (Ok delay, {| env := e2; trace := trace w |}))
      as (delay & e2 & Hdelay & ->).
    { destruct jit.
      - unfold bind, random, ret. destruct (random_range (env w)) as [Hlo Hhi].
        destruct (mathRandom (env w)) as [q e2]. cbn in Hlo, Hhi.
        eexists _, _. split; [|done]. apply jittered_range; [|done..].
        pose proof (backoffOf_le_cap base cap attempt). lia.
      - exists (backoffOf base cap attempt), (env w). split; [lia|]. by destruct w. }
    unfold bind at 1, sleep, call at 1.
    intros (evs & Ht & Hp & Hn)%IH. cbn [trace] in Ht.
    exists (SetTimeout delay :: evs). split; [by rewrite Ht, <- app_assoc|].
    split; [constructor; [cbn; lia|done]|].
    unfold totalWait in *. cbn. lia.
Qed.

(** X25. One run of the worker for a record sets its timers for no negative time
    and waits on them, between the attempts to post, for 15 seconds at most
    in all. *)
Theorem record_waits_at_most_15_seconds msg : waitsAtMost 15000 (processRecord msg).
Proof.
  assert (∀ level message, waitsAtMost 0 (@console Env level message))
    as Hconsole by (intros; by apply waits_call).
  assert (waitsAtMost 0
            (markProcessed (shopDomain msg) (order_id (order msg))
               (externalIdOf (order msg)))) as Hmark.
  { intros w r w'. unfold markProcessed. by apply waits_call. }
  unfold processRecord.
  apply (waits_tryCatch 15000 0); [done| |].
  2: { intros. apply (waits_bind 0 0); [done|done|]. intros. by apply waits_throw. }
  apply (waits_bind 0 15000); [done| |].
  { apply (waits_bind 0 0); [done|by apply waits_call|]. intros. by apply waits_ret. }
  intros [|]; [by apply (waits_le 0)|].
  apply (waits_bind 0 15000); [done|by apply waits_call|]. intros [client|].
  2: { apply (waits_bind 0 15000); [done|done|]. intros. by apply waits_throw. }
  apply (waits_bind 0 15000); [done|by apply waits_call|]. intros secrets.
  apply (waits_bind 0 15000); [done| |].
  { unfold getProductIdsForSkus. destruct (_ =? _)%nat; [by apply waits_ret|].
    apply (waits_bind 0 0); [done|by apply waits_call|]. intros. by apply waits_ret. }
  intros m. cbv zeta.
  destruct (length (personalisedOf (candidates msg)) =? 0)%nat.
  { apply (waits_bind 0 15000); [done|done|]. intros. by apply (waits_le 0). }
  destruct (0 <? length (missingOf m (personalisedOf (candidates msg))))%nat.
  { apply (waits_bind 0 15000); [done|done|]. intros. by apply waits_throw. }
  destruct (length (Kornitx.items (payloadOf msg secrets m)) =? 0)%nat.
  { apply (waits_bind 0 15000); [done|done|]. intros. by apply (waits_le 0). }
  apply (waits_bind 15000 0); [done| |].
  2: { intros. apply (waits_bind 0 0); [done|done|]. intros. apply Hconsole. }
  unfold submit, withRetry. cbn [mbind option_bind default retryOptions
    attempts baseMs maxMs jitter onRetry].
  change (seqZ 1 5) with [1; 2; 3; 4; 5].
  change 15000 with (backoffsOf 5 1000 8000 [1; 2; 3; 4; 5]).
  apply retryLoop_waits; [done|done| |].
  - intros w r w' Hpost. unfold postKornitXOrder in Hpost.
    revert Hpost. apply (waits_bind 0 0); [done|by apply waits_call|].
    intros res. destruct (negb (ok res)); [by apply waits_throw|].
    destruct (resp_json res); [by apply waits_ret|by apply waits_throw].
  - intros observe [= <-] err k. apply Hconsole.
Qed.

End RetryWaits.

(** * The keys of the processed-orders table *)

Section LedgerKeys.
Import Shape.

Lemma numeric_not_hash c : numeric c → c ≠ "#"%char.
Proof. intros [Hd|Hc] Hh; subst; [done|]. cbn in Hc. lia. Qed.

Lemma numeric_hashFree s : Forall numeric (list_ascii_of_string s) → hashFree s.
Proof. intros Hs. eapply Forall_impl; [exact Hs|]. intros c. apply numeric_not_hash. Qed.

Lemma hash_cons (a x : string) : a +:+ "#" +:+ x = a +:+ String "#" x.
Proof. done. Qed.

Lemma hash_splits_once a b x y :
  hashFree x → hashFree y →
  a +:+ "#" +:+ x = b +:+ "#" +:+ y → a = b ∧ x = y.
Proof.
  intros Hx Hy. rewrite !hash_cons.
  assert (∀ s t u, hashFree s → s ≠ t +:+ String "#" u) as Hno.
  { intros s t. revert s. induction t as [|c t IH]; intros s u Hs E.
    - subst s. change ("" +:+ String "#" u) with (String "#" u) in Hs.
      unfold hashFree in Hs. cbn in Hs. by apply Forall_cons in Hs as [Hc _].
    - subst s. rewrite append_cons in Hs. unfold hashFree in Hs. cbn in Hs.
      apply Forall_cons in Hs as [_ Hs]. by apply (IH _ u Hs). }
  revert b. induction a as [|c a IH]; intros [|d b].
  - change ("" +:+ String "#" x) with (String "#" x).
    change ("" +:+ String "#" y) with (String "#" y). by intros [= ->].
  - change ("" +:+ String "#" x) with (String "#" x).
    rewrite append_cons. intros [= <- E]. by apply Hno in E.
  - change ("" +:+ String "#" y) with (String "#" y).
    rewrite append_cons. intros [= -> E]. symmetry in E. by apply Hno in E.
  - rewrite !append_cons. intros [= -> E]. apply IH in E as [-> ->]. done.
Qed.

(** X24. Two orders whose ids are safe integers have the same key in the
    processed-orders table only when they are the same order of the same
    shop. For ids of any kind whose texts hold no [#], equal keys mean the
    same shop and the same text of the id. *)
Theorem ledger_keys_are_distinct shop1 shop2 :
  (∀ n1 n2 : Z,
     Js.isSafeInteger n1 = true → Js.isSafeInteger n2 = true →
     shopOrderKeyOf shop1 n1 = shopOrderKeyOf shop2 n2 →
     shop1 = shop2 ∧ n1 = n2)
  ∧ (∀ id1 id2 : OrderId,
       hashFree (idText id1) → hashFree (idText id2) →
       shopOrderKeyOf shop1 id1 = shopOrderKeyOf shop2 id2 →
       shop1 = shop2 ∧ idText id1 = idText id2).
Proof.
  assert (∀ id1 id2 : OrderId,
            hashFree (idText id1) → hashFree (idText id2) →
            shopOrderKeyOf shop1 id1 = shopOrderKeyOf shop2 id2 →
            shop1 = shop2 ∧ idText id1 = idText id2) as Hany.
  { intros id1 id2 H1 H2. unfold shopOrderKeyOf. by apply hash_splits_once. }
  split; [|done].
  intros n1 n2 S1 S2 Hkey.
  apply Hany in Hkey as [-> Htext];
    [|by apply numeric_hashFree, ofNumber_numeric..].
  split; [done|]. cbn [idText] in Htext. rewrite !ofNumber_safe in Htext by done.
  by apply (inj pretty).
Qed.

(** Beyond the safe integers two ids may be the same number: 2^53 + 1 is
    read as 2^53. A text with a [#] may move the border between the shop and
    the id. *)
Example ledger_keys_that_collide :
  shopOrderKeyOf "acme.myshopify.com" (2 ^ 53 + 1)
  = shopOrderKeyOf "acme.myshopify.com" (2 ^ 53)
  ∧ shopOrderKeyOf "a" (StringId "1#2") = shopOrderKeyOf "a#1" (StringId "2").
Proof. split; vm_compute; reflexivity. Qed.

End LedgerKeys.
(** * The slug of a client *)

Section SlugExamples.
Import Slug.
Example toSlug_examples :
  toSlug "  IV Creative!! " = "iv-creative"
  ∧ toSlug "__wobbly--life__" = "wobbly-life"
  ∧ toSlug "a_-_b" = "a_-_b"
  ∧ toSlug "---" = ""
  ∧ parseClientSlug (Some "wobblylife_orders") = Some "wobblylife"
  ∧ parseClientSlug (Some "IV-Creative-ORDERS") = Some "iv-creative"
  ∧ parseClientSlug (Some "_orders") = Some "orders"
  ∧ parseClientSlug (Some "health") = Some "health"
  ∧ parseClientSlug (Some "!!!") = Some ""
  ∧ parseClientSlug (Some "") = None.
Proof. vm_compute. by repeat split. Qed.
End SlugExamples.

Section SlugFacts.
Import Slug.


Lemma replaceOthers_chars s b : forallb isSlugChar (list_ascii_of_string (replaceOthers s b)) = true.
Proof.
  revert b. induction s as [|c r IH]; intros b; [done|]. cbn [replaceOthers].
  destruct (isSlugChar c) eqn:Hc; [cbn; by rewrite Hc, IH|].
  destruct b; [apply IH|cbn; apply IH].
Qed.

Lemma collapseDashes_start s : startsWithDash (collapseDashes s) = startsWithDash s.
Proof.
  induction s as [|c r IH]; [done|]. cbn [collapseDashes].
  destruct (isDash c) eqn:Hc; cbn [andb]; [|by cbn; rewrite Hc].
  destruct (startsWithDash r) eqn:Hr; [by rewrite IH; cbn; rewrite Hc|by cbn; rewrite Hc].
Qed.

Lemma collapseDashes_chars s :
  forallb isSlugChar (list_ascii_of_string s) = true → forallb isSlugChar (list_ascii_of_string (collapseDashes s)) = true.
Proof.
  induction s as [|c r IH]; [done|]. cbn [list_ascii_of_string forallb collapseDashes].
  intros [Hc Hr]%andb_prop. destruct (isDash c && startsWithDash r); [by apply IH|].
  cbn. by rewrite Hc, IH.
Qed.

Lemma collapseDashes_single s : noDoubleDash (collapseDashes s) = true.
Proof.
  induction s as [|c r IH]; [done|]. cbn [collapseDashes].
  destruct (isDash c && startsWithDash r) eqn:E; [done|].
  cbn [noDoubleDash]. by rewrite collapseDashes_start, E, IH.
Qed.

Lemma stripStart_chars s :
  forallb isSlugChar (list_ascii_of_string s) = true → forallb isSlugChar (list_ascii_of_string (stripStart s)) = true.
Proof.
  induction s as [|c r IH]; [done|]. cbn [list_ascii_of_string forallb stripStart].
  intros [Hc Hr]%andb_prop. destruct (isEdge c); [by apply IH|]. cbn. by rewrite Hc, Hr.
Qed.

Lemma stripStart_single s : noDoubleDash s = true → noDoubleDash (stripStart s) = true.
Proof.
  induction s as [|c r IH]; [done|]. cbn [noDoubleDash stripStart].
  intros [Hc Hr]%andb_prop. destruct (isEdge c); [by apply IH|]. cbn. by rewrite Hc, Hr.
Qed.

Lemma stripStart_start s : startsWithEdge (stripStart s) = false.
Proof.
  induction s as [|c r IH]; [done|]. cbn [stripStart].
  by destruct (isEdge c) eqn:Hc.
Qed.

Lemma stripEnd_cons c r :
  stripEnd (String c r)
  = match stripEnd r with
    | EmptyString => if isEdge c then EmptyString else String c EmptyString
    | r' => String c r'
    end.
Proof. done. Qed.

Lemma stripEnd_chars s :
  forallb isSlugChar (list_ascii_of_string s) = true → forallb isSlugChar (list_ascii_of_string (stripEnd s)) = true.
Proof.
  induction s as [|c r IH]; [done|]. rewrite stripEnd_cons. cbn [list_ascii_of_string forallb].
  intros [Hc Hr]%andb_prop. specialize (IH Hr).
  destruct (stripEnd r) as [|c' r']; [destruct (isEdge c); cbn; by rewrite ?Hc|].
  cbn in *. by rewrite Hc, IH.
Qed.

Lemma stripEnd_startDash s :
  startsWithDash (stripEnd s) = true → startsWithDash s = true.
Proof.
  destruct s as [|c r]; [done|]. rewrite stripEnd_cons.
  destruct (stripEnd r); [by destruct (isEdge c)|done].
Qed.

Lemma noDoubleDash_cons c r :
  noDoubleDash (String c r) = negb (isDash c && startsWithDash r) && noDoubleDash r.
Proof. done. Qed.

Lemma stripEnd_single s : noDoubleDash s = true → noDoubleDash (stripEnd s) = true.
Proof.
  induction s as [|c r IH]; [done|]. rewrite stripEnd_cons, noDoubleDash_cons.
  intros [Hc Hr]%andb_prop. specialize (IH Hr).
  destruct (stripEnd r) as [|c' r'] eqn:Hend.
  { destruct (isEdge c); [done|]. cbn. by rewrite andb_false_r. }
  rewrite noDoubleDash_cons, IH, andb_true_r.
  destruct (isDash c); [|done]. cbn [andb negb] in *.
  destruct (startsWithDash (String c' r')) eqn:Hd; [|done].
  rewrite <- Hend in Hd. apply stripEnd_startDash in Hd. by rewrite Hd in Hc.
Qed.

Lemma stripEnd_start s : startsWithEdge s = false → startsWithEdge (stripEnd s) = false.
Proof.
  destruct s as [|c r]; [done|]. rewrite stripEnd_cons. cbn [startsWithEdge]. intros Hc.
  rewrite Hc. by destruct (stripEnd r).
Qed.

Lemma stripEnd_end s : endsWithEdge (stripEnd s) = false.
Proof.
  induction s as [|c r IH]; [done|]. rewrite stripEnd_cons.
  destruct (stripEnd r) as [|c' r'] eqn:Hend; [by destruct (isEdge c) eqn:Hc; cbn; rewrite ?Hc|].
  by cbn [endsWithEdge].
Qed.

Lemma slugChar_black c : isSlugChar c = true → Js.isWhiteSpace c = false.
Proof. by destruct c as [[] [] [] [] [] [] [] []]. Qed.

Lemma slugChar_lower c : isSlugChar c = true → Js.lowerChar c = c.
Proof. by destruct c as [[] [] [] [] [] [] [] []]. Qed.

Lemma slugChar_inline c : isSlugChar c = true → isLineTerminator c = false.
Proof. by destruct c as [[] [] [] [] [] [] [] []]. Qed.

Lemma clean_trim s : forallb isSlugChar (list_ascii_of_string s) = true → Js.trim s = s.
Proof.
  intros Hs. unfold Js.trim.
  assert (Js.trimStart s = s) as ->.
  { destruct s as [|c r]; [done|]. cbn in Hs. apply andb_prop in Hs as [Hc _].
    cbn. by rewrite (slugChar_black c Hc). }
  induction s as [|c r IH]; [done|]. cbn in Hs. apply andb_prop in Hs as [Hc Hr].
  rewrite trimEnd_keeps_head by by apply slugChar_black. by rewrite IH.
Qed.

Lemma clean_lower s : forallb isSlugChar (list_ascii_of_string s) = true → Js.toLowerCase s = s.
Proof.
  induction s as [|c r IH]; [done|]. cbn [list_ascii_of_string forallb]. intros [Hc Hr]%andb_prop.
  by rewrite toLowerCase_cons, slugChar_lower, IH.
Qed.

Lemma clean_replace s : forallb isSlugChar (list_ascii_of_string s) = true → replaceOthers s false = s.
Proof.
  induction s as [|c r IH]; [done|]. cbn [list_ascii_of_string forallb replaceOthers].
  intros [Hc Hr]%andb_prop. by rewrite Hc, IH.
Qed.

Lemma clean_collapse s : noDoubleDash s = true → collapseDashes s = s.
Proof.
  induction s as [|c r IH]; [done|]. cbn [noDoubleDash collapseDashes].
  intros [Hc Hr]%andb_prop. destruct (isDash c && startsWithDash r); [done|]. by rewrite IH.
Qed.

Lemma clean_stripStart s : startsWithEdge s = false → stripStart s = s.
Proof. destruct s as [|c r]; [done|]. cbn. by intros ->. Qed.

Lemma clean_stripEnd s : endsWithEdge s = false → stripEnd s = s.
Proof.
  induction s as [|c r IH]; [done|]. rewrite stripEnd_cons.
  destruct r as [|c' r']; [cbn; by intros ->|].
  intros Hr. change (endsWithEdge (String c (String c' r'))) with (endsWithEdge (String c' r')) in Hr.
  by rewrite IH.
Qed.

Lemma toSlug_clean s : clean (toSlug s).
Proof.
  unfold toSlug, stripEdges. split_and!.
  - apply stripEnd_chars, stripStart_chars, collapseDashes_chars, replaceOthers_chars.
  - apply stripEnd_single, stripStart_single, collapseDashes_single.
  - apply stripEnd_start, stripStart_start.
  - apply stripEnd_end.
Qed.

Lemma clean_is_fixed s : clean s → toSlug s = s.
Proof.
  intros (Hchars & Hdash & Hstart & Hend). unfold toSlug, stripEdges.
  rewrite clean_trim, clean_lower, clean_replace, clean_collapse,
    clean_stripStart, clean_stripEnd; done.
Qed.

(** X26. The slug of any text is in normal form, and a text in normal form
    is its own slug: the slug of a slug is that slug. *)
Theorem toSlug_gives_the_normal_form s :
  clean (toSlug s) ∧ (clean s → toSlug s = s) ∧ toSlug (toSlug s) = toSlug s.
Proof.
  split; [apply toSlug_clean|]. split; [apply clean_is_fixed|].
  apply clean_is_fixed, toSlug_clean.
Qed.

Lemma beforeOrders_suffix t sep word :
  isEdge sep = true → Js.toLowerCase word = "orders" →
  beforeOrders (t +:+ String sep word) = Some t.
Proof.
  intros Hsep Hword.
  assert (String.length word = 6%nat) as Hlen.
  { assert (∀ s, String.length (Js.toLowerCase s) = String.length s) as Hl.
    { induction s as [|c r IH]; [done|]. rewrite toLowerCase_cons. cbn. by rewrite IH. }
    by rewrite <- Hl, Hword. }
  induction t as [|c r IH].
  - change ("" +:+ String sep word) with (String sep word).
    cbn [beforeOrders isOrdersSuffix]. by rewrite Hsep, Hword.
  - rewrite append_cons. cbn [beforeOrders]. rewrite IH.
    assert (isOrdersSuffix (String c (r +:+ String sep word)) = false) as ->; [|done].
    cbn [isOrdersSuffix]. destruct (isEdge c); [|done]. cbn [andb].
    apply String.eqb_neq. intros E.
    assert (String.length (Js.toLowerCase (r +:+ String sep word)) = 6%nat) as Hl by by rewrite E.
    assert (∀ s, String.length (Js.toLowerCase s) = String.length s) as Hl'.
    { induction s as [|c0 r0 IH0]; [done|]. rewrite toLowerCase_cons. cbn. by rewrite IH0. }
    rewrite Hl' in Hl.
    assert (∀ a b, String.length (a +:+ b) = (String.length a + String.length b)%nat) as Happ.
    { induction a as [|c0 a IHa]; intros b; [done|]. rewrite append_cons. cbn. by rewrite IHa. }
    rewrite Happ in Hl. cbn in Hl. lia.
Qed.

(** X27. The endpoint of a client, its slug followed by [_orders] or [-orders] in
    any case, is parsed back to the slug. *)
Theorem parseClientSlug_reads_back_the_slug t sep word :
  clean t → t ≠ "" →
  isEdge sep = true → Js.toLowerCase word = "orders" →
  parseClientSlug (Some (t +:+ String sep word)) = Some t.
Proof.
  intros Hclean Hne Hsep Hword. unfold parseClientSlug, matchOrders.
  rewrite beforeOrders_suffix by done.
  assert (Js.nonEmpty (t +:+ String sep word) = true) as -> by by destruct t.
  cbn [negb]. apply nonEmpty_true in Hne. rewrite Hne. cbn [andb].
  assert (forallb (fun c => negb (isLineTerminator c)) (list_ascii_of_string t) = true) as ->.
  { destruct Hclean as (Hchars & _). apply forallb_forall. intros c Hc.
    rewrite forallb_forall in Hchars. by rewrite slugChar_inline by by apply Hchars. }
  cbn [default]. f_equal. by apply clean_is_fixed.
Qed.

End SlugFacts.

(** * The intake *)

Section IntakeTheorems.
Import LineProps Slug Intake.
Context {Env : Type} `{Runtime} `{Collaborators Env} `{Gateway Env}.

Lemma lift_sent {T} (m : M Env T) (o : Outbox) : sent (lift m o).2 = sent o.
Proof. unfold lift. by destruct (m (inner o)). Qed.

(** The run of the [try] block up to the check of the signature: the
    endpoint names a client, the clients table holds it, its secret is
    read. *)
Lemma attempt_resolved event (o : Outbox) slug client secrets w1 w2 :
  parseClientSlug (Kornitx.orUndefined (clientHook event)) = Some slug →
  slug ≠ "" →
  getClientBySlug slug (inner o) = (Ok (Some client), w1) →
  getClientSecrets (client_secretName client) w1 = (Ok secrets, w2) →
  ∃ w3,
    sent {| inner := w3; sent := sent o |} = sent o
    ∧ attempt event o
      = andThen
          (ofRes (Shopify.verifyShopifyHmac (rawBodyOf event) (Some (hmacHeaderOf event))
                    (shopifyWebhookKey secrets))) (fun ok =>
          if negb ok then
            pure {| statusCode := 401; resultBody := ErrorBody "Invalid HMAC" |}
          else
            match JSON_parse (bufferToString (rawBodyOf event)) with
            | None => pure {| statusCode := 400; resultBody := ErrorBody "Invalid JSON" |}
            | Some parsed =>
                andThen (ofRes (asOrder parsed)) (fun order =>
                andThen (send (commandOf slug client order)) (fun _ =>
                pure {| statusCode := 200;
                        resultBody :=
                          EnqueuedBody (length (Api.candidatesOf client order)) |}))
            end) {| inner := w3; sent := sent o |}.
Proof.
  intros Hslug Hne Hclient Hsecrets. unfold attempt. rewrite Hslug.
  apply nonEmpty_true in Hne. cbn [Js.truthy]. rewrite Hne. cbn [negb].
  change (default "" (Some slug)) with slug.
  unfold andThen at 1, lift at 1. rewrite Hclient.
  unfold andThen at 1, lift at 1. cbn [inner]. rewrite Hsecrets.
  unfold andThen at 1.
  destruct (Js.nonEmpty _ && negb _).
  - unfold lift, console, call. cbn. by eexists.
  - unfold pure. by eexists.
Qed.

(** X28. A command is passed to [sqs.send] only for a request whose signature
    header is the digest of the raw body under the webhook key of the client
    that the endpoint names, and once at most; every other request leaves
    the queue alone. The handler always answers, with 200, 400, 401 or
    404. *)
Theorem intake_enqueues_only_signed_requests event (o : Outbox) :
  let '(result, o') := handler event o in
  statusCode result ∈ [200; 400; 401; 404]
  ∧ ((sent o' = sent o ∧ ∀ n, resultBody result ≠ EnqueuedBody n)
     ∨ ∃ slug client secrets order w1 w2,
         parseClientSlug (Kornitx.orUndefined (clientHook event)) = Some slug
         ∧ getClientBySlug slug (inner o) = (Ok (Some client), w1)
         ∧ getClientSecrets (client_secretName client) w1 = (Ok secrets, w2)
         ∧ hmacHeaderOf event
           = hmacSha256Base64 (shopifyWebhookKey secrets) (rawBodyOf event)
         ∧ sent o' = sent o ++ [commandOf slug client order]
         ∧ (resultBody result = FailedBody
            ∨ resultBody result = EnqueuedBody (length (line_items order)))).
Proof.
  unfold handler.
  destruct (parseClientSlug (Kornitx.orUndefined (clientHook event))) as [slug|] eqn:Hslug.
  2: { unfold attempt. rewrite Hslug. cbn. split; [(repeat first [apply list_elem_of_here|apply list_elem_of_further])|]. left. done. }
  destruct (Js.nonEmpty slug) eqn:Hne.
  2: { unfold attempt. rewrite Hslug. cbn [Js.truthy]. rewrite Hne. cbn.
       split; [(repeat first [apply list_elem_of_here|apply list_elem_of_further])|]. by left. }
  destruct (getClientBySlug slug (inner o)) as [[[client|]|e] w1] eqn:Hclient.
  2: { unfold attempt. rewrite Hslug. cbn [Js.truthy]. rewrite Hne. cbn [negb].
       change (default "" (Some slug)) with slug.
       unfold andThen, lift. rewrite Hclient. cbn. split; [(repeat first [apply list_elem_of_here|apply list_elem_of_further])|]. by left. }
  2: { unfold attempt. rewrite Hslug. cbn [Js.truthy]. rewrite Hne. cbn [negb].
       change (default "" (Some slug)) with slug.
       unfold andThen, lift. rewrite Hclient. cbn. split; [(repeat first [apply list_elem_of_here|apply list_elem_of_further])|]. by left. }
  destruct (getClientSecrets (client_secretName client) w1) as [[secrets|e] w2] eqn:Hsecrets.
  2: { unfold attempt. rewrite Hslug. cbn [Js.truthy]. rewrite Hne. cbn [negb].
       change (default "" (Some slug)) with slug.
       unfold andThen at 1, lift at 1. rewrite Hclient.
       unfold andThen at 1, lift at 1. cbn [inner]. rewrite Hsecrets. cbn.
       split; [(repeat first [apply list_elem_of_here|apply list_elem_of_further])|]. by left. }
  apply nonEmpty_true in Hne.
  destruct (attempt_resolved event o slug client secrets w1 w2) as (w3 & _ & ->); [done..|].
  unfold andThen at 1.
  destruct (Shopify.verifyShopifyHmac _ _ _) as [[|]|e] eqn:Hverify; cbn [ofRes pure raise negb].
  2: { cbn. split; [(repeat first [apply list_elem_of_here|apply list_elem_of_further])|]. by left. }
  2: { rewrite lift_sent. cbn. split; [(repeat first [apply list_elem_of_here|apply list_elem_of_further])|]. by left. }
  apply verify_true_digest in Hverify as [= Hheader].
  destruct (JSON_parse _) as [parsed|]; [|cbn; split; [(repeat first [apply list_elem_of_here|apply list_elem_of_further])|by left]].
  unfold andThen at 1.
  destruct (asOrder parsed) as [order|e]; cbn [ofRes pure raise].
  2: { rewrite lift_sent. cbn. split; [(repeat first [apply list_elem_of_here|apply list_elem_of_further])|]. by left. }
  unfold andThen, send. cbn [inner sent env].
  destruct (sqsSend _ _) as [[[]|e] e4].
  - cbn. split; [(repeat first [apply list_elem_of_here|apply list_elem_of_further])|]. right.
    exists slug, client, secrets, order, w1, w2. split_and!; try done.
    right. unfold Api.candidatesOf. by rewrite length_map.
  - rewrite lift_sent. cbn. split; [(repeat first [apply list_elem_of_here|apply list_elem_of_further])|]. right.
    exists slug, client, secrets, order, w1, w2. split_and!; try done. by left.
Qed.

(** X29. A request of a known client whose signature header is not the digest of
    the raw body is never enqueued. It is answered with 401 when the header
    is empty or as long as the digest, and with 200 and [{ ok: false }] when
    the header is of another length, the comparison of the buffers then
    throwing. *)
Theorem unsigned_request_is_turned_away event (o : Outbox) slug client secrets w1 w2 :
  parseClientSlug (Kornitx.orUndefined (clientHook event)) = Some slug →
  slug ≠ "" →
  getClientBySlug slug (inner o) = (Ok (Some client), w1) →
  getClientSecrets (client_secretName client) w1 = (Ok secrets, w2) →
  let digest := hmacSha256Base64 (shopifyWebhookKey secrets) (rawBodyOf event) in
  hmacHeaderOf event ≠ digest →
  let '(result, o') := handler event o in
  sent o' = sent o
  ∧ result
    = if negb (Js.nonEmpty (hmacHeaderOf event))
         || (length (Shopify.bufferFrom (hmacHeaderOf event))
             =? length (Shopify.bufferFrom digest))%nat
      then {| statusCode := 401; resultBody := ErrorBody "Invalid HMAC" |}
      else {| statusCode := 200; resultBody := FailedBody |}.
Proof.
  intros Hslug Hne Hclient Hsecrets digest Hwrong. unfold handler.
  destruct (attempt_resolved event o slug client secrets w1 w2) as (w3 & _ & ->); [done..|].
  unfold andThen at 1.
  destruct (Js.nonEmpty (hmacHeaderOf event)) eqn:Hheader; cbn [negb orb].
  2: { unfold Shopify.verifyShopifyHmac. rewrite Hheader. by cbn. }
  destruct (Nat.eqb_spec (length (Shopify.bufferFrom (hmacHeaderOf event)))
              (length (Shopify.bufferFrom digest))) as [Hlen|Hlen].
  - rewrite verify_same_length by done. fold digest.
    destruct (Shopify.bytesEqual _ _) eqn:Heq; [|by cbn].
    apply bytesEqual_eq, bufferFrom_inj in Heq. by destruct Hwrong.
  - rewrite verify_other_length by done. cbn [ofRes raise]. by rewrite lift_sent.
Qed.

End IntakeTheorems.

(** * The sale time *)

Section SaleTimeFacts.
Import SaleTime.

Example formatUtc_examples :
  let formatUtc := @formatUtc Gregorian.calendar in
  formatUtc (Some "2024-05-01T10:00:00Z") = Some "2024-05-01 10:00:00"
  ∧ formatUtc (Some "2024-02-29T23:59:59Z") = Some "2024-02-29 23:59:59"
  ∧ formatUtc (Some "1999-12-31T00:00:07Z") = Some "1999-12-31 00:00:07"
  ∧ formatUtc (Some "1969-12-31T23:59:59Z") = Some "1969-12-31 23:59:59"
  ∧ formatUtc (Some "0999-01-01T00:00:00Z") = Some "999-01-01 00:00:00"
  ∧ formatUtc (Some "yesterday") = None
  ∧ formatUtc (Some "") = None
  ∧ formatUtc None = None.
Proof. vm_compute. by repeat split. Qed.

Lemma pad_two_digits n : 0 ≤ n ≤ 99 → String.length (pad n) = 2%nat.
Proof.
  intros Hn.
  assert (forallb (fun k => (String.length (pad k) =? 2)%nat) (seqZ 0 100) = true) as Hall
    by by vm_compute.
  rewrite forallb_forall in Hall. apply Nat.eqb_eq, Hall, list_elem_of_In.
  apply elem_of_seqZ. lia.
Qed.

Lemma year_four_digits y : 1000 ≤ y ≤ 9999 → String.length (Js.ofNumber y) = 4%nat.
Proof.
  intros Hy.
  assert (forallb (fun k => (String.length (Js.ofNumber k) =? 4)%nat) (seqZ 1000 9000) = true)
    as Hall by by vm_compute.
  rewrite forallb_forall in Hall. apply Nat.eqb_eq, Hall, list_elem_of_In.
  apply elem_of_seqZ. lia.
Qed.

Lemma pad_reads_back n : 0 ≤ n ≤ 99 → Gregorian.digitsOf (pad n) = Some n.
Proof.
  intros Hn.
  assert (forallb (fun k => bool_decide (Gregorian.digitsOf (pad k) = Some k))
            (seqZ 0 100) = true) as Hall by by vm_compute.
  rewrite forallb_forall in Hall.
  eapply bool_decide_eq_true, Hall, list_elem_of_In, elem_of_seqZ. lia.
Qed.

Lemma year_reads_back y :
  1000 ≤ y ≤ 9999 → Gregorian.digitsOf (Js.ofNumber y) = Some y.
Proof.
  intros Hy.
  assert (forallb (fun k => bool_decide (Gregorian.digitsOf (Js.ofNumber k) = Some k))
            (seqZ 1000 9000) = true) as Hall by by vm_compute.
  rewrite forallb_forall in Hall.
  eapply bool_decide_eq_true, Hall, list_elem_of_In, elem_of_seqZ. lia.
Qed.

Lemma substring_all a : String.substring 0 (String.length a) a = a.
Proof. induction a as [|c a IH]; [done|]. cbn. by rewrite IH. Qed.

Lemma substring_here a b :
  String.substring 0 (String.length a) (a +:+ b) = a.
Proof.
  induction a as [|c a IH]; [by destruct b|]. rewrite append_cons. cbn. by rewrite IH.
Qed.

Lemma substring_skip a b n m :
  String.substring (String.length a + n) m (a +:+ b) = String.substring n m b.
Proof. induction a as [|c a IH]; [done|]. rewrite append_cons. cbn. apply IH. Qed.

(** X30. A time stamp that [Date] reads, in a year of four digits, is
    formatted as [YYYY-MM-DD HH:MM:SS]: 19 characters, with the year, the
    month counted from 1, the day, the hours, the minutes and the seconds
    of the date in UTC as decimal numbers at their places, those of two
    digits padded with a zero. An absent or empty time stamp, and one that
    [Date] does not read, give [undefined]. *)
Theorem formatUtc_has_the_partner_format `{Calendar} :
  formatUtc None = None
  ∧ formatUtc (Some "") = None
  ∧ (∀ ts, Date_getTime ts = None → formatUtc (Some ts) = None)
  ∧ (∀ ts d,
       ts ≠ "" → Date_getTime ts = Some d → inRange d →
       1000 ≤ getUTCFullYear d ≤ 9999 →
       ∃ s, formatUtc (Some ts) = Some s
            ∧ String.length s = 19%nat
            ∧ String.get 4 s = Some "-"%char ∧ String.get 7 s = Some "-"%char
            ∧ String.get 10 s = Some " "%char
            ∧ String.get 13 s = Some ":"%char ∧ String.get 16 s = Some ":"%char
            ∧ Gregorian.digitsOf (String.substring 0 4 s) = Some (getUTCFullYear d)
            ∧ Gregorian.digitsOf (String.substring 5 2 s) = Some (getUTCMonth d + 1)
            ∧ Gregorian.digitsOf (String.substring 8 2 s) = Some (getUTCDate d)
            ∧ Gregorian.digitsOf (String.substring 11 2 s) = Some (getUTCHours d)
            ∧ Gregorian.digitsOf (String.substring 14 2 s) = Some (getUTCMinutes d)
            ∧ Gregorian.digitsOf (String.substring 17 2 s) = Some (getUTCSeconds d)).
Proof.
  split; [done|]. split; [done|]. split.
  { intros ts Hnone. unfold formatUtc. destruct (negb _); [done|].
    change (default "" (Some ts)) with ts. by rewrite Hnone. }
  intros ts d Hts Hd (Hmonth & Hdate & Hhours & Hminutes & Hseconds) Hyear.
  unfold formatUtc. apply nonEmpty_true in Hts. cbn [Js.truthy]. rewrite Hts.
  cbn [negb]. change (default "" (Some ts)) with ts. rewrite Hd. eexists. split; [done|].
  pose proof (year_four_digits _ Hyear) as Ly.
  assert (String.length (pad (getUTCMonth d + 1)) = 2%nat) as Lm by (apply pad_two_digits; lia).
  assert (String.length (pad (getUTCDate d)) = 2%nat) as Ld by (apply pad_two_digits; lia).
  assert (String.length (pad (getUTCHours d)) = 2%nat) as Lh by (apply pad_two_digits; lia).
  assert (String.length (pad (getUTCMinutes d)) = 2%nat) as Lmi by (apply pad_two_digits; lia).
  assert (String.length (pad (getUTCSeconds d)) = 2%nat) as Ls by (apply pad_two_digits; lia).
  pose proof (year_reads_back _ Hyear) as Ry.
  assert (Gregorian.digitsOf (pad (getUTCMonth d + 1)) = Some (getUTCMonth d + 1)) as Rm
    by (apply pad_reads_back; lia).
  assert (Gregorian.digitsOf (pad (getUTCDate d)) = Some (getUTCDate d)) as Rd
    by (apply pad_reads_back; lia).
  assert (Gregorian.digitsOf (pad (getUTCHours d)) = Some (getUTCHours d)) as Rh
    by (apply pad_reads_back; lia).
  assert (Gregorian.digitsOf (pad (getUTCMinutes d)) = Some (getUTCMinutes d)) as Rmi
    by (apply pad_reads_back; lia).
  assert (Gregorian.digitsOf (pad (getUTCSeconds d)) = Some (getUTCSeconds d)) as Rs
    by (apply pad_reads_back; lia).
  set (Y := Js.ofNumber _) in *. set (Mo := pad (getUTCMonth d + 1)) in *.
  set (D := pad (getUTCDate d)) in *. set (Hh := pad (getUTCHours d)) in *.
  set (Mi := pad (getUTCMinutes d)) in *. set (S := pad (getUTCSeconds d)) in *.
  split; [rewrite !length_append; cbn; lia|].
  split.
  { change 4%nat with (4 + 0)%nat. rewrite <- Ly at 1. by rewrite get_append. }
  split.
  { change 7%nat with (4 + (1 + (2 + 0)))%nat. rewrite <- Ly at 1.
    rewrite get_append, (get_append "-"). rewrite <- Lm at 1. by rewrite get_append. }
  split.
  { change 10%nat with (4 + (1 + (2 + (1 + (2 + 0)))))%nat. rewrite <- Ly at 1.
    rewrite get_append, (get_append "-"). rewrite <- Lm at 1.
    rewrite get_append, (get_append "-"). rewrite <- Ld at 1. by rewrite get_append. }
  split.
  { change 13%nat with (4 + (1 + (2 + (1 + (2 + (1 + (2 + 0)))))))%nat. rewrite <- Ly at 1.
    rewrite get_append, (get_append "-"). rewrite <- Lm at 1.
    rewrite get_append, (get_append "-"). rewrite <- Ld at 1.
    rewrite get_append, (get_append " "). rewrite <- Lh at 1. by rewrite get_append. }
  split.
  { change 16%nat with (4 + (1 + (2 + (1 + (2 + (1 + (2 + (1 + (2 + 0)))))))))%nat.
    rewrite <- Ly at 1.
    rewrite get_append, (get_append "-"). rewrite <- Lm at 1.
    rewrite get_append, (get_append "-"). rewrite <- Ld at 1.
    rewrite get_append, (get_append " "). rewrite <- Lh at 1.
    rewrite get_append, (get_append ":"). rewrite <- Lmi at 1. by rewrite get_append. }
  split.
  { rewrite <- Ly at 1. by rewrite substring_here. }
  split.
  { change 5%nat with (4 + (1 + 0))%nat. rewrite <- Ly at 1.
    rewrite substring_skip, (substring_skip "-"). rewrite <- Lm at 1.
    by rewrite substring_here. }
  split.
  { change 8%nat with (4 + (1 + (2 + (1 + 0))))%nat. rewrite <- Ly at 1.
    rewrite substring_skip, (substring_skip "-"). rewrite <- Lm at 1.
    rewrite substring_skip, (substring_skip "-"). rewrite <- Ld at 1.
    by rewrite substring_here. }
  split.
  { change 11%nat with (4 + (1 + (2 + (1 + (2 + (1 + 0))))))%nat. rewrite <- Ly at 1.
    rewrite substring_skip, (substring_skip "-"). rewrite <- Lm at 1.
    rewrite substring_skip, (substring_skip "-"). rewrite <- Ld at 1.
    rewrite substring_skip, (substring_skip " "). rewrite <- Lh at 1.
    by rewrite substring_here. }
  split.
  { change 14%nat with (4 + (1 + (2 + (1 + (2 + (1 + (2 + (1 + 0))))))))%nat.
    rewrite <- Ly at 1.
    rewrite substring_skip, (substring_skip "-"). rewrite <- Lm at 1.
    rewrite substring_skip, (substring_skip "-"). rewrite <- Ld at 1.
    rewrite substring_skip, (substring_skip " "). rewrite <- Lh at 1.
    rewrite substring_skip, (substring_skip ":"). rewrite <- Lmi at 1.
    by rewrite substring_here. }
  change 17%nat with (4 + (1 + (2 + (1 + (2 + (1 + (2 + (1 + (2 + (1 + 0))))))))))%nat.
  rewrite <- Ly at 1.
  rewrite substring_skip, (substring_skip "-"). rewrite <- Lm at 1.
  rewrite substring_skip, (substring_skip "-"). rewrite <- Ld at 1.
  rewrite substring_skip, (substring_skip " "). rewrite <- Lh at 1.
  rewrite substring_skip, (substring_skip ":"). rewrite <- Lmi at 1.
  rewrite substring_skip, (substring_skip ":"). rewrite <- Ls at 1.
  by rewrite substring_all.
Qed.

End SaleTimeFacts.

(** * Runs on the sample orders and webhooks *)

Section BuilderRuns.
Import LineProps Worker Samples.

Lemma findFirstKey_returns_a_matching_value_witness :
  let obj := extractProps (Some [{| name := "Top Line"; value := "HELLO" |}]) in
  "HELLO" ≠ ""
  ∧ ∃ k cand, cand ∈ ["first"; "top line"] ∧ k ≠ "" ∧ get obj k = Some "HELLO"
      ∧ (Js.toLowerCase k = Js.toLowerCase cand
         ∨ (Obj.inherited (Js.toLowerCase cand) = true
            ∧ lowerToRealOf obj !! Js.toLowerCase cand = None
            ∧ k = Obj.text (Js.toLowerCase cand))).
Proof.
  intros obj.
  apply (findFirstKey_returns_a_matching_value obj ["first"; "top line"] "HELLO").
  vm_compute. reflexivity.
Defined.


Lemma toArray_reads_back_a_comma_list_witness :
  @toArray Reference.runtime (KeysString (Js.join "," ["Line 1"; "Top"])) = ["Line 1"; "Top"].
Proof.
  apply (@toArray_reads_back_a_comma_list Reference.runtime ["Line 1"; "Top"]).
  - repeat constructor; (discriminate || (vm_compute; reflexivity)).
  - repeat constructor; discriminate.
  - intros parsed Hparsed. vm_compute in Hparsed. discriminate Hparsed.
Defined.

Lemma enforced_mapping_gives_product_ids_witness :
  let msg := message [printLine; textLine; plainLine] in
  let m : gmap string Z := {[ "abc-1" := 42; "dpsjurag-11635890" := 7 ]} in
  Forall (fun item =>
            let normSku := Js.toLowerCase (Js.trim (default "" (Kornitx.sku item))) in
            normSku ≠ "" →
            Kornitx.textual_product_id item = Obj.get m normSku
            ∧ Obj.get m normSku ≠ Obj.Absent
            ∧ (Obj.inherited normSku = false →
               ∃ pid, m !! normSku = Some pid
                      ∧ Kornitx.textual_product_id item = Obj.Own pid))
    (Kornitx.items (payloadOf msg clientSecrets m)).
Proof.
  intros msg m.
  apply (enforced_mapping_gives_product_ids msg clientSecrets m).
  vm_compute. reflexivity.
Defined.

Lemma submission_posts_the_payload_witness :
  let msg := message [printLine] in
  let payload := payloadOf msg clientSecrets {[ "abc-1" := 42 ]} in
  let w := world [Ok unavailable; Ok accepted] in
  ∃ evs, trace (submit clientSecrets payload w).2 = trace w ++ evs
         ∧ Forall (Posted.ofSubmission clientSecrets payload) evs
         ∧ (1 <= length (fetchesOf evs) <= 5)%nat.
Proof.
  intros msg payload w.
  apply (@submission_posts_the_payload InMemory.Store InMemory.scheduler
           InMemory.collaborators clientSecrets payload w
           (submit clientSecrets payload w).1 (submit clientSecrets payload w).2).
  apply surjective_pairing.
Defined.

Lemma answered_submission_marks_the_order_witness :
  let msg := message [printLine] in
  let w := world [Ok unavailable; Ok accepted] in
  let '(r, w') := processRecord msg w in
  r = Ok tt
  ∧ putsOf (trace w')
    = [{| shopOrderKey := "acme.myshopify.com#999000111"; kxExternalId := "#1001";
          processedAt := "2024-05-01T10:00:05.000Z" |}]
  ∧ length (fetchesOf (trace w')) = 2%nat.
Proof.
  intros msg w.
  pose proof (@answered_submission_marks_the_order InMemory.Store
                InMemory.scheduler InMemory.collaborators msg w
                (afterCheck msg w) (afterClient msg w) (afterSecrets msg w)
                (afterMap msg w) client clientSecrets {[ "abc-1" := 42 ]}
                ltac:(vm_compute; reflexivity) ltac:(vm_compute; reflexivity)
                ltac:(vm_compute; reflexivity) ltac:(vm_compute; reflexivity)
                (JObject [])
                (submit clientSecrets (payloadOf msg clientSecrets {[ "abc-1" := 42 ]})
                   (afterMap msg w)).2
                ltac:(vm_compute; reflexivity)
                ltac:(vm_compute; discriminate)
                ltac:(vm_compute; reflexivity)) as Hruns.
  cbv zeta in Hruns.
  destruct (ddbPutProcessed _ _) as [put e6] eqn:Hput in Hruns.
  destruct (processRecord msg w) as [r w'] eqn:Hrun.
  destruct Hruns as (_ & _ & Hputs & Hfetches & Hresult).
  vm_compute in Hput. injection Hput as <- <-.
  destruct Hresult as [-> _]. split; [done|].
  rewrite Hputs, Hfetches. split; vm_compute; reflexivity.
Defined.

End BuilderRuns.

Section WorkerRuns.
Import LineProps Worker Samples Webhooks.


Lemma failing_record_ends_the_invocation_witness :
  let records := [message [plainLine]] ++ ghost :: [message [printLine]] in
  let '(r, w') := handler records (world [Ok accepted]) in
  r = Throw (Error "Client not found") ∧ fetchesOf (trace w') = [].
Proof.
  intros records.
  set (w1 := (@handler InMemory.Store InMemory.scheduler InMemory.collaborators
                [message [plainLine]] (world [Ok accepted])).2).
  set (w2 := (@processRecord InMemory.Store InMemory.scheduler InMemory.collaborators
                ghost w1).2).
  pose proof (@failing_record_ends_the_invocation InMemory.Store
                InMemory.scheduler InMemory.collaborators
                [message [plainLine]] ghost [message [printLine]] (world [Ok accepted])
                w1 w2 (Error "Client not found")
                ltac:(vm_compute; reflexivity) ltac:(vm_compute; reflexivity)) as Hends.
  subst records. rewrite Hends. split; [reflexivity|]. vm_compute. reflexivity.
Defined.

Lemma record_requests_the_skus_it_looks_up_witness :
  let msg := message [printLine; textLine; noSkuLine] in
  let w := world [Ok accepted] in
  ∃ evs, trace (processRecord msg w).2 = trace w ++ evs
         ∧ Forall (Requested.skuRequestOf msg) evs.
Proof.
  intros msg w.
  apply (@record_requests_the_skus_it_looks_up InMemory.Store InMemory.scheduler
           InMemory.collaborators msg w (processRecord msg w).1 (processRecord msg w).2).
  apply surjective_pairing.
Defined.

Lemma stored_sku_is_found_for_every_variant_witness :
  ∃ m, getProductIdsForSkus "acme" ["plain-9"; " ABC-1 "] (world [])
       = (Ok m, {| env := store [];
                   trace := [BatchGetSkuMap [("acme", "plain-9"); ("acme", "abc-1")]] |})
    ∧ m !! "__proto__" = None
    ∧ m !! "abc-1" = Some 42.
Proof.
  destruct (stored_sku_is_found_for_every_variant (store []) [] "acme"
              ["plain-9"; " ABC-1 "] " ABC-1 ") as (m & Hrun & Hproto & Hfound).
  - apply list_elem_of_further, list_elem_of_here.
  - vm_compute. discriminate.
  - exists m. split; [exact Hrun|]. split; [exact Hproto|].
    apply Hfound. vm_compute. discriminate.
Defined.

(** A product id that the table holds as [null] is recorded as 0, and an
    item without product id is left out; an entry for the SKU [__proto__] is
    lost, and one for [constructor] takes the place of the inherited
    member. *)
Example recorded_product_ids :
  let items := [{| item_sku := Some "A-1"; item_product_id := Null |};
                {| item_sku := Some "B-2"; item_product_id := Missing |};
                {| item_sku := Some "__proto__"; item_product_id := Num 5 |};
                {| item_sku := Some "Constructor"; item_product_id := Num 6 |};
                {| item_sku := Some "C-3"; item_product_id := Num (2 ^ 1024) |}] in
  let m := fold_left recordSku items ∅ in
  map (Obj.get m) ["a-1"; "b-2"; "__proto__"; "constructor"; "c-3"; "tostring"]
  = [Obj.Own 0; Obj.Absent; Obj.Inherited "__proto__"; Obj.Own 6; Obj.Absent;
     Obj.Absent]
  ∧ Obj.get (∅ : gmap string Z) "constructor" = Obj.Inherited "constructor".
Proof. vm_compute. by split. Qed.

Lemma returned_run_found_or_put_the_order_witness :
  let msg := message [plainLine] in
  let w := world [Ok accepted] in
  (∃ item,
     ddbGetProcessed "acme.myshopify.com#999000111" (env w)
     = (Ok (Some item), env (processRecord msg w).2))
  ∨ (∃ e5, ddbPutProcessed (ledgerItem msg (nowISO e5)) e5
           = (Ok tt, env (processRecord msg w).2)).
Proof.
  intros msg w.
  apply (@returned_run_found_or_put_the_order InMemory.Store InMemory.scheduler
           InMemory.collaborators msg w (processRecord msg w).2).
  vm_compute. reflexivity.
Defined.

Lemma redelivery_after_success_is_a_no_op_witness :
  let msg := message [printLine] in
  let w' := (processRecord msg (world [Ok accepted])).2 in
  processRecord msg w'
  = (Ok tt,
     {| env := env w';
        trace := trace w'
                 ++ [GetProcessed "acme.myshopify.com#999000111";
                     Console "log" "Order already processed; skipping"] |}).
Proof.
  intros msg w'.
  apply (redelivery_after_success_is_a_no_op msg (world [Ok accepted]) w').
  vm_compute. reflexivity.
Defined.

Lemma ledger_keys_are_distinct_witness :
  "acme.myshopify.com" = "acme.myshopify.com" ∧ 999000111 = 999000111.
Proof.
  apply (proj1 (ledger_keys_are_distinct "acme.myshopify.com" "acme.myshopify.com")
           999000111 999000111); reflexivity.
Defined.

Lemma record_waits_at_most_15_seconds_witness :
  let msg := message [printLine] in
  let w := world (replicate 5 (Ok unavailable)) in
  let run := @processRecord InMemory.Store InMemoryGateway.steady InMemory.collaborators msg w in
  ∃ evs, trace run.2 = trace w ++ evs
         ∧ Forall (fun ev => 0 ≤ waitOf ev) evs
         ∧ totalWait evs ≤ 15000.
Proof.
  intros msg w run.
  apply (@record_waits_at_most_15_seconds InMemory.Store InMemoryGateway.steady
           InMemory.collaborators ltac:(intros e; split; by vm_compute)
           msg w run.1 run.2).
  apply surjective_pairing.
Defined.

Example a_record_waits_on_four_timers :
  let msg := message [printLine] in
  let w := world (replicate 5 (Ok unavailable)) in
  let run := @processRecord InMemory.Store InMemoryGateway.steady InMemory.collaborators msg w in
  timeoutsOf (trace run.2) = [750; 1500; 3000; 6000].
Proof. vm_compute. reflexivity. Qed.

Lemma parseClientSlug_reads_back_the_slug_witness :
  Slug.parseClientSlug (Some ("wobbly-life" +:+ String "_" "Orders")) = Some "wobbly-life".
Proof.
  apply (parseClientSlug_reads_back_the_slug "wobbly-life" "_" "Orders").
  - repeat split; reflexivity.
  - discriminate.
  - reflexivity.
  - reflexivity.
Defined.

End WorkerRuns.

Section IntakeRuns.
Import LineProps Samples Intake Webhooks.

Lemma unsigned_request_is_turned_away_witness :
  let '(result, o') :=
    @handler InMemory.Store Reference.runtime InMemory.collaborators
      InMemoryGateway.gateway (webhook "acme_orders" "abc") (outbox []) in
  sent o' = []
  ∧ result = {| statusCode := 200; resultBody := FailedBody |}.
Proof.
  pose proof (@unsigned_request_is_turned_away InMemory.Store Reference.runtime
                InMemory.collaborators InMemoryGateway.gateway
                (webhook "acme_orders" "abc") (outbox []) "acme" client clientSecrets
                (getClientBySlug "acme" (inner (outbox []))).2
                (getClientSecrets "acme/kx" (getClientBySlug "acme" (inner (outbox []))).2).2
                ltac:(vm_compute; reflexivity) ltac:(discriminate)
                ltac:(vm_compute; reflexivity) ltac:(vm_compute; reflexivity)
                ltac:(vm_compute; discriminate)) as Hturned.
  cbv zeta in Hturned.
  destruct (handler _ _) as [result o'].
  destruct Hturned as [Hsent Hresult]. split; [exact Hsent|].
  rewrite Hresult. vm_compute. reflexivity.
Defined.

(** A signature of the right length that is not the digest is answered
    with 401. *)
Example wrong_signature_is_unauthorised :
  let '(result, o') :=
    @handler InMemory.Store Reference.runtime InMemory.collaborators
      InMemoryGateway.gateway
      (webhook "acme_orders" "AAAAAAAAAAAAAAAAAAAAAAAAAAAAAAAAAAAAAAAAAAA=") (outbox []) in
  sent o' = []
  ∧ result = {| statusCode := 401; resultBody := ErrorBody "Invalid HMAC" |}.
Proof. vm_compute. by split. Qed.

(** A signed webhook is put on the queue, once, with the slug of the
    endpoint, the client of the clients table and a candidate for each line;
    the worker then posts the order of the message and marks it. *)
Example signed_webhook_reaches_the_partner :
  let '(result, o') :=
    @handler InMemory.Store Reference.runtime InMemory.collaborators
      InMemoryGateway.gateway (webhook "Acme_Orders" signature) (outbox [Ok accepted]) in
  result = {| statusCode := 200; resultBody := EnqueuedBody 1 |}
  ∧ map MessageDeduplicationId (sent o') = [Some "acme.myshopify.com#999000111"]
  ∧ map MessageBody (sent o') = [message [printLine]]
  ∧ let '(r, w') :=
      Worker.handler (map MessageBody (sent o')) (inner o') in
    r = Ok tt
    ∧ map (fun req => map Kornitx.print_job_ref (Kornitx.items (body req)))
        (fetchesOf (trace w')) = [[Some "PJ1"]]
    ∧ map shopOrderKey (putsOf (trace w')) = ["acme.myshopify.com#999000111"].
Proof. vm_compute. by repeat split. Qed.

Example endpoints_without_a_client :
  let answer hook :=
    (@handler InMemory.Store Reference.runtime InMemory.collaborators
       InMemoryGateway.gateway (webhook hook signature) (outbox [])).1 in
  answer "" = {| statusCode := 404; resultBody := ErrorBody "Invalid endpoint" |}
  ∧ answer "!!!" = {| statusCode := 404; resultBody := ErrorBody "Invalid endpoint" |}
  ∧ answer "ghost_orders" = {| statusCode := 404; resultBody := ErrorBody "Unknown client" |}.
Proof. vm_compute. by repeat split. Qed.

Lemma formatUtc_has_the_partner_format_witness :
  ∃ s, @SaleTime.formatUtc Gregorian.calendar (Some "2024-05-01T10:00:00Z") = Some s
       ∧ String.length s = 19%nat
       ∧ String.get 4 s = Some "-"%char ∧ String.get 7 s = Some "-"%char
       ∧ String.get 10 s = Some " "%char
       ∧ String.get 13 s = Some ":"%char ∧ String.get 16 s = Some ":"%char
       ∧ Gregorian.digitsOf (String.substring 0 4 s) = Some 2024
       ∧ Gregorian.digitsOf (String.substring 5 2 s) = Some 5
       ∧ Gregorian.digitsOf (String.substring 8 2 s) = Some 1
       ∧ Gregorian.digitsOf (String.substring 11 2 s) = Some 10
       ∧ Gregorian.digitsOf (String.substring 14 2 s) = Some 0
       ∧ Gregorian.digitsOf (String.substring 17 2 s) = Some 0.
Proof.
  apply (proj2 (proj2 (proj2 (@formatUtc_has_the_partner_format Gregorian.calendar)))
           "2024-05-01T10:00:00Z" 1714557600000).
  - discriminate.
  - vm_compute. reflexivity.
  - repeat split; by vm_compute.
  - split; by vm_compute.
Defined.

End IntakeRuns.
